(** * grpc-resilient: a shallow embedding of the resilience engine

    The development follows the TypeScript sources module by module:

    - [Utils]             : [fastHash] and [generateCacheKey]        (utils.ts)
    - [CallExecutor]      : error mapping and classification         (CallExecutor.ts)
    - [MetricsTracker]    : counters, latency aggregate, snapshot    (MetricsTracker.ts)
    - [FallbackCache]     : the LRU/TTL cache wrapper                (FallbackCache.ts)
    - [ConnectionManager] : the connection state machine             (ConnectionManager.ts)
    - [Client]            : the call orchestrator and the facade     (ResilientGrpcClient.ts)

    Conventions.  JavaScript numbers that hold counts are [nat]; numbers that
    hold wall-clock milliseconds are [Z]; numbers the program computes and
    that may be fractional ([Math.random()], reconnect delays) are [Q];
    numbers a caller hands in and that may be anything (latencies, TTLs and
    cache sizes before they are validated) are [number], which adds [NaN]
    and the two infinities to the rationals.
    Asynchronous code is modelled in two ways: a run-to-completion function
    that receives the outcome of each awaited operation as an argument, and,
    for the connection manager, a labelled transition system in which a
    pending [waitForReady] is an explicit part of the configuration. *)

From Stdlib Require Import ZArith QArith Qround Qminmax.
From Stdlib Require Import Ascii HexadecimalString.
From stdpp Require Import base tactics option list sorting strings pretty.

Local Open Scope string_scope.
Local Open Scope Z_scope.

(** A JavaScript [Error] as the library sees it.  [code] is [None] for an
    error that carries no numeric status, such as one built by
    [new Error(msg)]. *)
Record JsError := {
  message : string;
  code : option Z;
  grpcCode : option Z;
}.

(** [new Error(msg)]. *)
Definition newError (msg : string) : JsError :=
  {| message := msg; code := None; grpcCode := None |}.

(** The outcome of a call that may throw. *)
Inductive Result (A : Type) :=
| Ok (a : A)
| Throw (e : JsError).
Arguments Ok {A} a.
Arguments Throw {A} e.

(** Whether a call threw (for a promise: was rejected). *)
Definition rejected {A : Type} (r : Result A) : bool :=
  match r with
  | Ok _ => false
  | Throw _ => true
  end.

(** What the structured logger received: level and message. *)
Inductive LogLevel := LDebug | LInfo | LWarn | LError.
Definition LogLine : Type := LogLevel * string.

(** JavaScript numbers.  A rational stands for a finite double, so the
    operations below are the program's wherever their results are
    representable, the integers of less than 54 bits among them; [NaN] and
    the two infinities behave as IEEE 754 has it. *)
Module Number.

Inductive number := NaN | NegInf | PosInf | Num (q : Q).

Definition of_Z (z : Z) : number := Num (inject_Z z).

(** [a < b], false as soon as an operand is [NaN]. *)
Definition lt (a b : number) : bool :=
  match a, b with
  | NaN, _ | _, NaN => false
  | _, NegInf => false
  | NegInf, _ => true
  | PosInf, _ => false
  | _, PosInf => true
  | Num x, Num y => match Qlt_le_dec x y with left _ => true | right _ => false end
  end.

(** [a <= b], false as soon as an operand is [NaN]. *)
Definition le (a b : number) : bool :=
  match a, b with
  | NaN, _ | _, NaN => false
  | NegInf, _ => true
  | _, PosInf => true
  | PosInf, _ => false
  | _, NegInf => false
  | Num x, Num y => match Qlt_le_dec y x with left _ => false | right _ => true end
  end.

(** [a + b]. *)
Definition add (a b : number) : number :=
  match a, b with
  | NaN, _ | _, NaN => NaN
  | PosInf, NegInf | NegInf, PosInf => NaN
  | PosInf, _ | _, PosInf => PosInf
  | NegInf, _ | _, NegInf => NegInf
  | Num x, Num y => Num (x + y)
  end.

(** [a / n] for a count [n]; a division by zero gives an infinity, or [NaN]
    for [0 / 0]. *)
Definition div_count (a : number) (n : nat) : number :=
  match a, n with
  | NaN, _ => NaN
  | PosInf, _ => PosInf
  | NegInf, _ => NegInf
  | Num x, O =>
      match Qlt_le_dec 0 x with
      | left _ => PosInf
      | right _ => match Qlt_le_dec x 0 with left _ => NegInf | right _ => NaN end
      end
  | Num x, S _ => Num (x / inject_Z (Z.of_nat n))
  end.

(** [Math.round]: halves round up. *)
Definition round (a : number) : number :=
  match a with
  | Num x => of_Z (Qfloor (x + (1 # 2)))
  | _ => a
  end.

(** [Math.floor]. *)
Definition floor (a : number) : number :=
  match a with
  | Num x => of_Z (Qfloor x)
  | _ => a
  end.

End Number.
Export Number(number, NaN, NegInf, PosInf, Num).

(* ===================================================================== *)
(** ** utils.ts *)
(* ===================================================================== *)

Module Utils.

(** The values a request may hold.  Numbers are the integer-valued ones,
    whose [String(n)] is the decimal notation; [JOther] covers the values
    whose [typeof] is ['symbol'], ['bigint'] or ['function'].  The properties
    of an object are listed in the order [Object.keys] enumerates them. *)
Inductive other_type := TSymbol | TBigint | TFunction.

#[warnings="-register-all"]
Inductive jsval :=
| JNull
| JUndefined
| JString (s : string)
| JNumber (n : Z)
| JBoolean (b : bool)
| JOther (t : other_type)
| JObject (props : list (string * jsval)).

Definition typeof_other (t : other_type) : string :=
  match t with
  | TSymbol => "symbol"
  | TBigint => "bigint"
  | TFunction => "function"
  end.

(** [ToInt32]: wrap to 32 bits, read as two's complement. *)
Definition toInt32 (z : Z) : Z :=
  let m := z mod 2 ^ 32 in
  if m <? 2 ^ 31 then m else m - 2 ^ 32.

(** [x >>> 0]. *)
Definition toUint32 (z : Z) : Z := z mod 2 ^ 32.

Definition charCode (a : ascii) : Z := Z.of_N (N_of_ascii a).

(** One iteration of the loop body:
    [hash = ((hash << 5) + hash) ^ str.charCodeAt(i)]. *)
Definition fastHash_step (hash : Z) (c : ascii) : Z :=
  Z.lxor (toInt32 (toInt32 (Z.shiftl hash 5) + hash)) (charCode c).

Fixpoint fastHash_loop (hash : Z) (str : string) : Z :=
  match str with
  | EmptyString => hash
  | String c rest => fastHash_loop (fastHash_step hash c) rest
  end.

(** [n.toString(16)] for a non-negative integer. *)
Definition toString16 (z : Z) : string :=
  NilZero.string_of_uint (N.to_hex_uint (Z.to_N z)).

Definition fastHash (str : string) : string :=
  toString16 (toUint32 (fastHash_loop 5381 str)).

(** The hash as section 4.C of the specification words it, kept apart from
    [fastHash] to compare the two: start at 5381, for each code unit
    [h = ((h << 5) + h) XOR c] over the integers, and reduce to unsigned 32 bits
    at the end. *)
Fixpoint djb2_loop (h : Z) (str : string) : Z :=
  match str with
  | EmptyString => h
  | String c rest => djb2_loop (Z.lxor (Z.shiftl h 5 + h) (charCode c)) rest
  end.

Definition djb2 (str : string) : Z := djb2_loop 5381 str mod 2 ^ 32.

(** [String(v)] for the values that pass the [isSimple] test. *)
Definition String_of (v : jsval) : string :=
  match v with
  | JNull => "null"
  | JUndefined => "undefined"
  | JString s => s
  | JNumber n => pretty n
  | JBoolean true => "true"
  | JBoolean false => "false"
  | JOther t => typeof_other t
  | JObject _ => "[object Object]"
  end.

(** [Array.prototype.join]. *)
Fixpoint join (sep : string) (parts : list string) : string :=
  match parts with
  | [] => ""
  | [p] => p
  | p :: rest => p +:+ sep +:+ join sep rest
  end.

(** [obj[key]]: the first property of that name, [undefined] if none. *)
Fixpoint get_prop (key : string) (props : list (string * jsval)) : jsval :=
  match props with
  | [] => JUndefined
  | (k, v) :: rest => if String.eqb k key then v else get_prop key rest
  end.

(** [Object.keys(obj).sort()]: the default sort compares code units. *)
Definition sorted_keys (props : list (string * jsval)) : list string :=
  merge_sort String.le (props.*1).

Definition isSimpleValue (v : jsval) : bool :=
  match v with
  | JNull | JUndefined | JString _ | JNumber _ | JBoolean _ => true
  | JOther _ | JObject _ => false
  end.

Section generateCacheKey.

(** [JSON.stringify] is a built-in of the host; it is only reached for
    objects that fail the simple-object test, and it throws a [TypeError] on
    a value it cannot serialise (a [BigInt], a cycle). *)
Variable JSON_stringify : jsval -> Result string.

Definition generateCacheKey (methodName : string) (request : jsval) : Result string :=
  match request with
  | JNull | JUndefined => Ok (methodName +:+ ":null")
  | JString s => Ok (methodName +:+ ":" +:+ s)
  | JNumber _ | JBoolean _ => Ok (methodName +:+ ":" +:+ String_of request)
  | JOther t => Ok (methodName +:+ ":" +:+ typeof_other t)
  | JObject obj =>
      let keys := sorted_keys obj in
      if (length keys <=? 10)%nat && forallb (fun key => isSimpleValue (get_prop key obj)) keys
      then
        let parts := map (fun key => key +:+ "=" +:+ String_of (get_prop key obj)) keys in
        Ok (methodName +:+ ":" +:+ join "&" parts)
      else
        match JSON_stringify request with
        | Ok json => Ok (methodName +:+ ":" +:+ fastHash json)
        | Throw e => Throw e
        end
  end.

End generateCacheKey.

End Utils.

(* ===================================================================== *)
(** ** CallExecutor.ts *)
(* ===================================================================== *)

Module CallExecutor.

(** [grpc.status], the numeric codes the classifier names. *)
Definition INVALID_ARGUMENT : Z := 3.
Definition DEADLINE_EXCEEDED : Z := 4.
Definition RESOURCE_EXHAUSTED : Z := 8.
Definition ABORTED : Z := 10.
Definition INTERNAL : Z := 13.
Definition UNAVAILABLE : Z := 14.

(** A wire error ([grpc.ServiceError]); [details] may be absent or empty. *)
Record ServiceError := {
  se_code : Z;
  se_details : option string;
  se_message : string;
}.

(** [error.details || error.message]: the empty string is falsy. *)
Definition details_or_message (e : ServiceError) : string :=
  match se_details e with
  | Some EmptyString | None => se_message e
  | Some d => d
  end.

Definition mapGrpcError (e : ServiceError) : JsError :=
  {| message := details_or_message e;
     code := Some (se_code e);
     grpcCode := Some (se_code e) |}.

Definition retryableCodes : list Z :=
  [UNAVAILABLE; DEADLINE_EXCEEDED; RESOURCE_EXHAUSTED; ABORTED].

(** [retryableCodes.includes(grpcError.code)]. *)
Definition isRetryableError (e : JsError) : bool :=
  match code e with
  | Some c => existsb (Z.eqb c) retryableCodes
  | None => false
  end.

(** [grpcError.code === grpc.status.UNAVAILABLE]. *)
Definition isConnectionError (e : JsError) : bool :=
  match code e with
  | Some c => c =? UNAVAILABLE
  | None => false
  end.

(** What the transport reports for one unary invocation. *)
Inductive InvokeOutcome (R : Type) :=
| MethodMissing
| InvokeError (e : ServiceError)
| InvokeOk (resp : R).
Arguments MethodMissing {R}.
Arguments InvokeError {R} e.
Arguments InvokeOk {R} resp.

(** [executeGrpcCall]: the promise it returns, settled. *)
Definition executeGrpcCall {R : Type} (methodName serviceName : string)
    (o : InvokeOutcome R) : Result R :=
  match o with
  | MethodMissing =>
      Throw (newError ("Method " +:+ methodName +:+ " not found on " +:+ serviceName))
  | InvokeError e => Throw (mapGrpcError e)
  | InvokeOk resp => Ok resp
  end.

End CallExecutor.

(* ===================================================================== *)
(** ** MetricsTracker.ts *)
(* ===================================================================== *)

Module MetricsTracker.

(** The snapshot handed to readers ([ClientMetrics]). *)
Record ClientMetrics := {
  m_totalCalls : nat;
  m_successfulCalls : nat;
  m_failedCalls : nat;
  m_totalRetries : nat;
  m_circuitBreakerTrips : nat;
  m_cacheHits : nat;
  m_cacheMisses : nat;
  m_avgLatencyMs : number;
  m_maxLatencyMs : number;
  m_minLatencyMs : number;
  m_lastResetAt : Z;
}.

(** The tracker's private fields.  The latencies are whatever numbers
    [recordSuccess] was given. *)
Record t := {
  totalCalls : nat;
  successfulCalls : nat;
  failedCalls : nat;
  totalRetries : nat;
  circuitBreakerTrips : nat;
  cacheHits : nat;
  cacheMisses : nat;
  avgLatencyMs : number;
  maxLatencyMs : number;
  minLatencyMs : number;
  latencySum : number;
  lastResetAt : Z;
  cachedSnapshot : option ClientMetrics;
  isDirty : bool;
}.

Definition create (now : Z) : t :=
  {| totalCalls := 0; successfulCalls := 0; failedCalls := 0; totalRetries := 0;
     circuitBreakerTrips := 0; cacheHits := 0; cacheMisses := 0;
     avgLatencyMs := Num 0; maxLatencyMs := Num 0; minLatencyMs := PosInf;
     latencySum := Num 0;
     lastResetAt := now; cachedSnapshot := None; isDirty := true |}.

Definition recordCallStart (m : t) : t :=
  {| totalCalls := S (totalCalls m); successfulCalls := successfulCalls m;
     failedCalls := failedCalls m; totalRetries := totalRetries m;
     circuitBreakerTrips := circuitBreakerTrips m; cacheHits := cacheHits m;
     cacheMisses := cacheMisses m; avgLatencyMs := avgLatencyMs m;
     maxLatencyMs := maxLatencyMs m; minLatencyMs := minLatencyMs m;
     latencySum := latencySum m; lastResetAt := lastResetAt m;
     cachedSnapshot := cachedSnapshot m; isDirty := true |}.

(** [Math.round(a / b)] for integers [a] and [b > 0]: halves round up. *)
Definition round_div (a b : Z) : Z := (2 * a + b) / (2 * b).

(** [updateLatency], run after [successfulCalls] was incremented. *)
Definition updateLatency (latencyMs : number) (m : t) : t :=
  let sum := Number.add (latencySum m) latencyMs in
  {| totalCalls := totalCalls m; successfulCalls := successfulCalls m;
     failedCalls := failedCalls m; totalRetries := totalRetries m;
     circuitBreakerTrips := circuitBreakerTrips m; cacheHits := cacheHits m;
     cacheMisses := cacheMisses m;
     avgLatencyMs := Number.round (Number.div_count sum (successfulCalls m));
     maxLatencyMs := if Number.lt (maxLatencyMs m) latencyMs then latencyMs else maxLatencyMs m;
     minLatencyMs := if Number.lt latencyMs (minLatencyMs m) then latencyMs else minLatencyMs m;
     latencySum := sum; lastResetAt := lastResetAt m;
     cachedSnapshot := cachedSnapshot m; isDirty := isDirty m |}.

Definition recordSuccess (latencyMs : number) (m : t) : t :=
  let m1 :=
    {| totalCalls := totalCalls m; successfulCalls := S (successfulCalls m);
       failedCalls := failedCalls m; totalRetries := totalRetries m;
       circuitBreakerTrips := circuitBreakerTrips m; cacheHits := cacheHits m;
       cacheMisses := cacheMisses m; avgLatencyMs := avgLatencyMs m;
       maxLatencyMs := maxLatencyMs m; minLatencyMs := minLatencyMs m;
       latencySum := latencySum m; lastResetAt := lastResetAt m;
       cachedSnapshot := cachedSnapshot m; isDirty := isDirty m |} in
  let m2 := updateLatency latencyMs m1 in
  {| totalCalls := totalCalls m2; successfulCalls := successfulCalls m2;
     failedCalls := failedCalls m2; totalRetries := totalRetries m2;
     circuitBreakerTrips := circuitBreakerTrips m2; cacheHits := cacheHits m2;
     cacheMisses := cacheMisses m2; avgLatencyMs := avgLatencyMs m2;
     maxLatencyMs := maxLatencyMs m2; minLatencyMs := minLatencyMs m2;
     latencySum := latencySum m2; lastResetAt := lastResetAt m2;
     cachedSnapshot := cachedSnapshot m2; isDirty := true |}.

Definition recordFailure (m : t) : t :=
  {| totalCalls := totalCalls m; successfulCalls := successfulCalls m;
     failedCalls := S (failedCalls m); totalRetries := totalRetries m;
     circuitBreakerTrips := circuitBreakerTrips m; cacheHits := cacheHits m;
     cacheMisses := cacheMisses m; avgLatencyMs := avgLatencyMs m;
     maxLatencyMs := maxLatencyMs m; minLatencyMs := minLatencyMs m;
     latencySum := latencySum m; lastResetAt := lastResetAt m;
     cachedSnapshot := cachedSnapshot m; isDirty := true |}.

Definition recordRetry (m : t) : t :=
  {| totalCalls := totalCalls m; successfulCalls := successfulCalls m;
     failedCalls := failedCalls m; totalRetries := S (totalRetries m);
     circuitBreakerTrips := circuitBreakerTrips m; cacheHits := cacheHits m;
     cacheMisses := cacheMisses m; avgLatencyMs := avgLatencyMs m;
     maxLatencyMs := maxLatencyMs m; minLatencyMs := minLatencyMs m;
     latencySum := latencySum m; lastResetAt := lastResetAt m;
     cachedSnapshot := cachedSnapshot m; isDirty := true |}.

Definition recordCircuitBreakerTrip (m : t) : t :=
  {| totalCalls := totalCalls m; successfulCalls := successfulCalls m;
     failedCalls := failedCalls m; totalRetries := totalRetries m;
     circuitBreakerTrips := S (circuitBreakerTrips m); cacheHits := cacheHits m;
     cacheMisses := cacheMisses m; avgLatencyMs := avgLatencyMs m;
     maxLatencyMs := maxLatencyMs m; minLatencyMs := minLatencyMs m;
     latencySum := latencySum m; lastResetAt := lastResetAt m;
     cachedSnapshot := cachedSnapshot m; isDirty := true |}.

Definition recordCacheHit (m : t) : t :=
  {| totalCalls := totalCalls m; successfulCalls := successfulCalls m;
     failedCalls := failedCalls m; totalRetries := totalRetries m;
     circuitBreakerTrips := circuitBreakerTrips m; cacheHits := S (cacheHits m);
     cacheMisses := cacheMisses m; avgLatencyMs := avgLatencyMs m;
     maxLatencyMs := maxLatencyMs m; minLatencyMs := minLatencyMs m;
     latencySum := latencySum m; lastResetAt := lastResetAt m;
     cachedSnapshot := cachedSnapshot m; isDirty := true |}.

Definition recordCacheMiss (m : t) : t :=
  {| totalCalls := totalCalls m; successfulCalls := successfulCalls m;
     failedCalls := failedCalls m; totalRetries := totalRetries m;
     circuitBreakerTrips := circuitBreakerTrips m; cacheHits := cacheHits m;
     cacheMisses := S (cacheMisses m); avgLatencyMs := avgLatencyMs m;
     maxLatencyMs := maxLatencyMs m; minLatencyMs := minLatencyMs m;
     latencySum := latencySum m; lastResetAt := lastResetAt m;
     cachedSnapshot := cachedSnapshot m; isDirty := true |}.

(** The snapshot; [minLatencyMs === Infinity ? 0 : minLatencyMs]. *)
Definition snapshot (m : t) : ClientMetrics :=
  {| m_totalCalls := totalCalls m; m_successfulCalls := successfulCalls m;
     m_failedCalls := failedCalls m; m_totalRetries := totalRetries m;
     m_circuitBreakerTrips := circuitBreakerTrips m; m_cacheHits := cacheHits m;
     m_cacheMisses := cacheMisses m; m_avgLatencyMs := avgLatencyMs m;
     m_maxLatencyMs := maxLatencyMs m;
     m_minLatencyMs := match minLatencyMs m with PosInf => Num 0 | lo => lo end;
     m_lastResetAt := lastResetAt m |}.

(** [getMetrics]: the stored snapshot while clean, a rebuilt one when dirty. *)
Definition getMetrics (m : t) : ClientMetrics * t :=
  match isDirty m, cachedSnapshot m with
  | false, Some snap => (snap, m)
  | _, _ =>
      let snap := snapshot m in
      (snap,
       {| totalCalls := totalCalls m; successfulCalls := successfulCalls m;
          failedCalls := failedCalls m; totalRetries := totalRetries m;
          circuitBreakerTrips := circuitBreakerTrips m; cacheHits := cacheHits m;
          cacheMisses := cacheMisses m; avgLatencyMs := avgLatencyMs m;
          maxLatencyMs := maxLatencyMs m; minLatencyMs := minLatencyMs m;
          latencySum := latencySum m; lastResetAt := lastResetAt m;
          cachedSnapshot := Some snap; isDirty := false |})
  end.

Definition reset (now : Z) (m : t) : t := create now.

(** The public operations of the tracker, to speak about sequences of
    them.  [OpReset] and [OpSuccess] carry the clock and the latency. *)
Inductive Op :=
| OpCallStart
| OpSuccess (latencyMs : number)
| OpFailure
| OpRetry
| OpCircuitBreakerTrip
| OpCacheHit
| OpCacheMiss
| OpGetMetrics
| OpReset (now : Z).

Definition apply (o : Op) (m : t) : t :=
  match o with
  | OpCallStart => recordCallStart m
  | OpSuccess latencyMs => recordSuccess latencyMs m
  | OpFailure => recordFailure m
  | OpRetry => recordRetry m
  | OpCircuitBreakerTrip => recordCircuitBreakerTrip m
  | OpCacheHit => recordCacheHit m
  | OpCacheMiss => recordCacheMiss m
  | OpGetMetrics => (getMetrics m).2
  | OpReset now => reset now m
  end.

(** A tracker after a sequence of operations on a new one. *)
Definition after (now : Z) (ops : list Op) : t := fold_left (fun m o => apply o m) ops (create now).

(** The latencies recorded are whole milliseconds, as the differences of
    [Date.now()] that the client records are. *)
Definition whole (o : Op) : Prop :=
  match o with
  | OpSuccess latencyMs => exists z : Z, latencyMs = Number.of_Z z
  | _ => True
  end.

(** A number that is the integer [z]. *)
Definition is_int (x : number) (z : Z) : Prop :=
  exists q : Q, x = Num q /\ (q == inject_Z z)%Q.

(** The latency aggregate is consistent: nothing recorded yet, or the sum
    lies between [n] times the minimum and [n] times the maximum and the
    average is the rounded mean. *)
Definition latency_inv (m : t) : Prop :=
  (successfulCalls m = 0%nat /\ minLatencyMs m = PosInf /\ latencySum m = Num 0 /\
   maxLatencyMs m = Num 0 /\ avgLatencyMs m = Num 0) \/
  (exists sum lo hi : Z,
     (0 < successfulCalls m)%nat /\
     is_int (latencySum m) sum /\ is_int (minLatencyMs m) lo /\ is_int (maxLatencyMs m) hi /\
     Z.of_nat (successfulCalls m) * lo <= sum /\
     sum <= Z.of_nat (successfulCalls m) * hi /\
     avgLatencyMs m = Number.of_Z (round_div sum (Z.of_nat (successfulCalls m)))).

End MetricsTracker.

(* ===================================================================== *)
(** ** FallbackCache.ts *)
(* ===================================================================== *)

(** Modelled from the spec: the [LRUCache] class of the lru-cache package,
    which FallbackCache.ts imports and which is not under src/.  The model
    follows the cache semantics of section 4.B and the meaning of the options
    the source passes ([max], [ttl], [allowStale], [updateAgeOnGet],
    [noDeleteOnStaleGet]), for the operations the source calls.  Entries are
    kept least-recently-used first. *)
Module LRUCache.

Section LRUCache.
Context {V : Type}.

Record entry := {
  e_key : string;
  e_value : V;
  e_ttl : Z;
  e_start : Z;
}.

Record t := {
  max : nat;
  allowStale : bool;
  updateAgeOnGet : bool;
  ttl : Z;
  noDeleteOnStaleGet : bool;
  items : list entry;
}.

Definition with_items (c : t) (l : list entry) : t :=
  {| max := max c; allowStale := allowStale c; updateAgeOnGet := updateAgeOnGet c;
     ttl := ttl c; noDeleteOnStaleGet := noDeleteOnStaleGet c; items := l |}.

Definition find (k : string) (l : list entry) : option entry :=
  List.find (fun e => String.eqb (e_key e) k) l.

Definition remove (k : string) (l : list entry) : list entry :=
  List.filter (fun e => negb (String.eqb (e_key e) k)) l.

Definition isStale (now : Z) (e : entry) : bool :=
  negb (e_ttl e =? 0) && (e_ttl e <? now - e_start e).

(** Modelled from the spec: [cache.set(k, v, { ttl })].  An existing key is
    replaced and becomes the most recent; a new key evicts the least recent
    entry when the cache is full. *)
Definition set (k : string) (v : V) (ttl_ms : Z) (now : Z) (c : t) : t :=
  let e := {| e_key := k; e_value := v; e_ttl := ttl_ms; e_start := now |} in
  match find k (items c) with
  | Some _ => with_items c (remove k (items c) ++ [e])
  | None =>
      let kept := if (length (items c) =? max c)%nat then tail (items c) else items c in
      with_items c (kept ++ [e])
  end.

(** Modelled from the spec: [cache.get(k)].  A stale entry is returned only
    under [allowStale] and is dropped unless [noDeleteOnStaleGet]; a fresh one
    becomes the most recent and, under [updateAgeOnGet], restarts its age. *)
Definition get (k : string) (now : Z) (c : t) : option V * t :=
  match find k (items c) with
  | None => (None, c)
  | Some e =>
      if isStale now e then
        (if allowStale c then Some (e_value e) else None,
         if noDeleteOnStaleGet c then c else with_items c (remove k (items c)))
      else
        let e' := {| e_key := k; e_value := e_value e; e_ttl := e_ttl e;
                     e_start := if updateAgeOnGet c then now else e_start e |} in
        (Some (e_value e), with_items c (remove k (items c) ++ [e']))
  end.

(** Modelled from the spec: [cache.delete(k)]. *)
Definition delete (k : string) (c : t) : bool * t :=
  match find k (items c) with
  | None => (false, c)
  | Some _ => (true, with_items c (remove k (items c)))
  end.

(** Modelled from the spec: [cache.clear()]. *)
Definition clear (c : t) : t := with_items c [].

Definition size (c : t) : nat := length (items c).

(** Modelled from the spec: [cache.purgeStale()], which drops the entries
    past their TTL and tells whether there was one. *)
Definition purgeStale (now : Z) (c : t) : bool * t :=
  let kept := List.filter (fun e => negb (isStale now e)) (items c) in
  (negb (length kept =? length (items c))%nat, with_items c kept).

(** Modelled from the spec: [cache.keys()], most recently used first. *)
Definition keys (c : t) : list string := rev (map e_key (items c)).

End LRUCache.
Arguments entry : clear implicits.
Arguments t : clear implicits.

End LRUCache.

Module FallbackCache.

Definition MIN_CACHE_SIZE : Q := 1.
Definition MAX_CACHE_SIZE : Q := 100000.
Definition MIN_TTL_MS : Q := 10.
Definition MAX_TTL_MS : Q := 86400000.

(** The characters [String.prototype.trim] strips, among 8-bit code units. *)
Definition isWhiteSpace (a : ascii) : bool :=
  let n := N_of_ascii a in
  ((9 <=? n) && (n <=? 13) || (n =? 32) || (n =? 160))%N.

Fixpoint trimStart (s : string) : string :=
  match s with
  | String a rest => if isWhiteSpace a then trimStart rest else s
  | EmptyString => EmptyString
  end.

Definition trim (s : string) : string :=
  String.rev (trimStart (String.rev (trimStart s))).

(** A string made of white space only (the empty one included). *)
Fixpoint isBlank (s : string) : bool :=
  match s with
  | EmptyString => true
  | String a rest => isWhiteSpace a && isBlank rest
  end.

(** [x < lo || x > hi]: both tests are false on [NaN]. *)
Definition outOfRange (x : number) (lo hi : Q) : bool :=
  Number.lt x (Num lo) || Number.lt (Num hi) x.

(** [Math.floor(ttl)] as the store keeps it, for a TTL that passed the range
    check.  The store tests a TTL for truthiness before it compares ages, so
    an entry whose TTL is [NaN] is never stale, like one whose TTL is 0. *)
Definition storeTtl (ttl : number) : Z :=
  match ttl with
  | Num q => Qfloor q
  | _ => 0
  end.

Section FallbackCache.
Context {V : Type}.

Record CacheValue := { data : V; timestamp : Z }.

Record t := {
  cache : LRUCache.t CacheValue;
  defaultTtlMs : number;
  serviceName : string;
  debugLog : list string;
}.

Definition with_cache (fc : t) (c : LRUCache.t CacheValue) : t :=
  {| cache := c; defaultTtlMs := defaultTtlMs fc; serviceName := serviceName fc;
     debugLog := debugLog fc |}.

Definition log_debug (msg : string) (fc : t) : t :=
  {| cache := cache fc; defaultTtlMs := defaultTtlMs fc; serviceName := serviceName fc;
     debugLog := debugLog fc ++ [msg] |}.

(** The constructor, for a logger that has a [debug] method.  The store's
    own constructor refuses a [max] that is not a positive integer, which
    after the range check is the case of [NaN]. *)
Definition create (service : string) (maxSize defaultTtl : number) : Result t :=
  if (String.length (trim service) =? 0)%nat then Throw (newError "serviceName must be a non-empty string")
  else if outOfRange maxSize MIN_CACHE_SIZE MAX_CACHE_SIZE
  then Throw (newError "maxSize must be between 1 and 100000")
  else if outOfRange defaultTtl MIN_TTL_MS MAX_TTL_MS
  then Throw (newError "defaultTtlMs must be between 10 and 86400000")
  else
    match Number.floor maxSize with
    | Num max =>
        Ok {| cache := {| LRUCache.max := Z.to_nat (Qfloor max);
                          LRUCache.allowStale := true;
                          LRUCache.updateAgeOnGet := true;
                          LRUCache.ttl := storeTtl defaultTtl;
                          LRUCache.noDeleteOnStaleGet := true;
                          LRUCache.items := [] |};
              defaultTtlMs := Number.floor defaultTtl;
              serviceName := trim service;
              debugLog := [] |}
    | _ => Throw (newError "max option must be a nonnegative integer")
    end.

(** [validateKey] throws on an empty or all-blank key. *)
Definition validKey (key : string) : bool :=
  negb (String.length (trim key) =? 0)%nat.

Definition get (key : string) (now : Z) (fc : t) : Result (option V * t) :=
  if negb (validKey key) then Throw (newError "Cache key must be a non-empty string")
  else
    let '(found, c) := LRUCache.get key now (cache fc) in
    match found with
    | None => Ok (None, with_cache fc c)
    | Some entry =>
        let fc1 := with_cache fc c in
        let isStale := Number.lt (defaultTtlMs fc) (Number.of_Z (now - timestamp entry)) in
        let fc2 :=
          if isStale
          then log_debug "Returning stale cache entry (expired but valid for degradation)" fc1
          else fc1 in
        Ok (Some (data entry), fc2)
    end.

Definition set (key : string) (value : V) (ttlMs : option number) (now : Z) (fc : t) : Result t :=
  if negb (validKey key) then Throw (newError "Cache key must be a non-empty string")
  else
    match ttlMs with
    | Some x =>
        if outOfRange x MIN_TTL_MS MAX_TTL_MS
        then Throw (newError "ttlMs must be between 10 and 86400000")
        else Ok (with_cache fc
                   (LRUCache.set key {| data := value; timestamp := now |} (storeTtl x) now (cache fc)))
    | None =>
        Ok (with_cache fc
              (LRUCache.set key {| data := value; timestamp := now |} (storeTtl (defaultTtlMs fc))
                 now (cache fc)))
    end.

Definition delete (key : string) (fc : t) : Result (bool * t) :=
  if negb (validKey key) then Throw (newError "Cache key must be a non-empty string")
  else
    let '(b, c) := LRUCache.delete key (cache fc) in
    Ok (b, with_cache fc c).

Definition clear (fc : t) : t :=
  log_debug "Fallback cache cleared" (with_cache fc (LRUCache.clear (cache fc))).

(** [getStats()]. *)
Record Stats := { size : nat; maxSize : nat; keys : list string }.

Definition getStats (fc : t) : Stats :=
  {| size := LRUCache.size (cache fc);
     maxSize := LRUCache.max (cache fc);
     keys := LRUCache.keys (cache fc) |}.

(** [cleanup()]: the number of entries the purge removed. *)
Definition cleanup (now : Z) (fc : t) : nat * t :=
  let sizeBefore := LRUCache.size (cache fc) in
  let '(_, c) := LRUCache.purgeStale now (cache fc) in
  let removed := (sizeBefore - LRUCache.size c)%nat in
  let fc1 := with_cache fc c in
  (removed, if (0 <? removed)%nat then log_debug "Expired cache entries cleaned up" fc1 else fc1).

(** The operations of the cache, to speak about sequences of them; each
    carries its arguments and the clock. *)
Inductive Op :=
| OpSet (key : string) (value : V) (ttlMs : option number) (now : Z)
| OpGet (key : string) (now : Z)
| OpDelete (key : string)
| OpClear
| OpCleanup (now : Z).

(** The cache after an operation; an operation that throws leaves it as it
    was. *)
Definition apply (o : Op) (fc : t) : t :=
  match o with
  | OpSet key value ttlMs now =>
      match set key value ttlMs now fc with Ok fc1 => fc1 | Throw _ => fc end
  | OpGet key now =>
      match get key now fc with Ok (_, fc1) => fc1 | Throw _ => fc end
  | OpDelete key =>
      match delete key fc with Ok (_, fc1) => fc1 | Throw _ => fc end
  | OpClear => clear fc
  | OpCleanup now => (cleanup now fc).2
  end.

(** The cache after a sequence of operations, first to last. *)
Definition run (ops : list Op) (fc : t) : t := fold_left (fun fc o => apply o fc) ops fc.

(** The operations that are meant to take the entry of [k] away:
    [delete(k)] and [clear()]. *)
Definition removes (k : string) (o : Op) : bool :=
  match o with
  | OpDelete key => String.eqb key k
  | OpClear => true
  | _ => false
  end.

(** The caches a program can hold: the constructor's, after any sequence of
    operations. *)
Inductive built : t -> Prop :=
| built_create service maxSize defaultTtl fc :
    create service maxSize defaultTtl = Ok fc -> built fc
| built_apply o fc : built fc -> built (apply o fc).

(** What the constructor establishes and every operation keeps. *)
Definition well_formed (fc : t) : Prop :=
  NoDup (map LRUCache.e_key (LRUCache.items (cache fc))) /\
  (length (LRUCache.items (cache fc)) <= LRUCache.max (cache fc))%nat /\
  (1 <= LRUCache.max (cache fc))%nat /\
  LRUCache.allowStale (cache fc) = true /\
  LRUCache.noDeleteOnStaleGet (cache fc) = true /\
  LRUCache.updateAgeOnGet (cache fc) = true.

End FallbackCache.
Arguments CacheValue : clear implicits.
Arguments t : clear implicits.
Arguments Op : clear implicits.

End FallbackCache.

(* ===================================================================== *)
(** ** ConnectionManager.ts *)
(* ===================================================================== *)

Module ConnectionManager.

Inductive ConnectionState := DISCONNECTED | CONNECTING | CONNECTED | RECONNECTING.

Definition ConnectionState_eqb (a b : ConnectionState) : bool :=
  match a, b with
  | DISCONNECTED, DISCONNECTED | CONNECTING, CONNECTING
  | CONNECTED, CONNECTED | RECONNECTING, RECONNECTING => true
  | _, _ => false
  end.

(** [grpc.connectivityState]. *)
Inductive ChannelState := IDLE | CH_CONNECTING | READY | TRANSIENT_FAILURE | SHUTDOWN.

(** The calls to [this.emit]. *)
Inductive Event :=
| EvConnecting
| EvConnected
| EvDisconnected
| EvError (msg : string).

(** [maxReconnectAttempts = None] is the default, [Infinity]. *)
Record ConnectionConfig := {
  serviceName : string;
  grpcUrl : string;
  timeoutMs : Z;
  maxReconnectAttempts : option nat;
  initialReconnectDelayMs : Q;
  maxReconnectDelayMs : Q;
}.

(** The identity of a transport client returned by the factory. *)
Definition Handle : Type := nat.

(** The private fields of the class.  A timer slot holds the delay it was
    armed with.  [connectPromise] tells whether the slot holds a promise.
    [errorListener] tells whether an ['error'] listener is attached (without
    one, [emit('error', e)] throws [e]); [emitted] and [log] record the calls
    to [emit] and to the logger.  [closedHandles] is a ghost field: the
    handles on which [close()] was called. *)
Record t := {
  config : ConnectionConfig;
  client : option Handle;
  state : ConnectionState;
  reconnectAttempts : nat;
  reconnectTimer : option Q;
  monitorTimer : option Z;
  connectPromise : bool;
  isShuttingDown : bool;
  lastConnectedAt : option Z;
  lastErrorAt : option Z;
  lastError : option string;
  errorListener : bool;
  emitted : list Event;
  log : list LogLine;
  closedHandles : list Handle;
}.

Definition set_client (v : option Handle) (s : t) : t :=
  {| config := config s; client := v; state := state s; reconnectAttempts :=
     reconnectAttempts s; reconnectTimer := reconnectTimer s; monitorTimer :=
     monitorTimer s; connectPromise := connectPromise s; isShuttingDown :=
     isShuttingDown s; lastConnectedAt := lastConnectedAt s; lastErrorAt :=
     lastErrorAt s; lastError := lastError s; errorListener := errorListener s;
     emitted := emitted s; log := log s; closedHandles := closedHandles s |}.

Definition set_state (v : ConnectionState) (s : t) : t :=
  {| config := config s; client := client s; state := v; reconnectAttempts :=
     reconnectAttempts s; reconnectTimer := reconnectTimer s; monitorTimer :=
     monitorTimer s; connectPromise := connectPromise s; isShuttingDown :=
     isShuttingDown s; lastConnectedAt := lastConnectedAt s; lastErrorAt :=
     lastErrorAt s; lastError := lastError s; errorListener := errorListener s;
     emitted := emitted s; log := log s; closedHandles := closedHandles s |}.

Definition set_reconnectAttempts (v : nat) (s : t) : t :=
  {| config := config s; client := client s; state := state s; reconnectAttempts := v;
     reconnectTimer := reconnectTimer s; monitorTimer := monitorTimer s;
     connectPromise := connectPromise s; isShuttingDown := isShuttingDown s;
     lastConnectedAt := lastConnectedAt s; lastErrorAt := lastErrorAt s; lastError :=
     lastError s; errorListener := errorListener s; emitted := emitted s; log := log
     s; closedHandles := closedHandles s |}.

Definition set_reconnectTimer (v : option Q) (s : t) : t :=
  {| config := config s; client := client s; state := state s; reconnectAttempts :=
     reconnectAttempts s; reconnectTimer := v; monitorTimer := monitorTimer s;
     connectPromise := connectPromise s; isShuttingDown := isShuttingDown s;
     lastConnectedAt := lastConnectedAt s; lastErrorAt := lastErrorAt s; lastError :=
     lastError s; errorListener := errorListener s; emitted := emitted s; log := log
     s; closedHandles := closedHandles s |}.

Definition set_monitorTimer (v : option Z) (s : t) : t :=
  {| config := config s; client := client s; state := state s; reconnectAttempts :=
     reconnectAttempts s; reconnectTimer := reconnectTimer s; monitorTimer := v;
     connectPromise := connectPromise s; isShuttingDown := isShuttingDown s;
     lastConnectedAt := lastConnectedAt s; lastErrorAt := lastErrorAt s; lastError :=
     lastError s; errorListener := errorListener s; emitted := emitted s; log := log
     s; closedHandles := closedHandles s |}.

Definition set_connectPromise (v : bool) (s : t) : t :=
  {| config := config s; client := client s; state := state s; reconnectAttempts :=
     reconnectAttempts s; reconnectTimer := reconnectTimer s; monitorTimer :=
     monitorTimer s; connectPromise := v; isShuttingDown := isShuttingDown s;
     lastConnectedAt := lastConnectedAt s; lastErrorAt := lastErrorAt s; lastError :=
     lastError s; errorListener := errorListener s; emitted := emitted s; log := log
     s; closedHandles := closedHandles s |}.

Definition set_isShuttingDown (v : bool) (s : t) : t :=
  {| config := config s; client := client s; state := state s; reconnectAttempts :=
     reconnectAttempts s; reconnectTimer := reconnectTimer s; monitorTimer :=
     monitorTimer s; connectPromise := connectPromise s; isShuttingDown := v;
     lastConnectedAt := lastConnectedAt s; lastErrorAt := lastErrorAt s; lastError :=
     lastError s; errorListener := errorListener s; emitted := emitted s; log := log
     s; closedHandles := closedHandles s |}.

Definition set_lastConnectedAt (v : option Z) (s : t) : t :=
  {| config := config s; client := client s; state := state s; reconnectAttempts :=
     reconnectAttempts s; reconnectTimer := reconnectTimer s; monitorTimer :=
     monitorTimer s; connectPromise := connectPromise s; isShuttingDown :=
     isShuttingDown s; lastConnectedAt := v; lastErrorAt := lastErrorAt s; lastError
     := lastError s; errorListener := errorListener s; emitted := emitted s; log :=
     log s; closedHandles := closedHandles s |}.

Definition set_lastErrorAt (v : option Z) (s : t) : t :=
  {| config := config s; client := client s; state := state s; reconnectAttempts :=
     reconnectAttempts s; reconnectTimer := reconnectTimer s; monitorTimer :=
     monitorTimer s; connectPromise := connectPromise s; isShuttingDown :=
     isShuttingDown s; lastConnectedAt := lastConnectedAt s; lastErrorAt := v;
     lastError := lastError s; errorListener := errorListener s; emitted := emitted s;
     log := log s; closedHandles := closedHandles s |}.

Definition set_lastError (v : option string) (s : t) : t :=
  {| config := config s; client := client s; state := state s; reconnectAttempts :=
     reconnectAttempts s; reconnectTimer := reconnectTimer s; monitorTimer :=
     monitorTimer s; connectPromise := connectPromise s; isShuttingDown :=
     isShuttingDown s; lastConnectedAt := lastConnectedAt s; lastErrorAt :=
     lastErrorAt s; lastError := v; errorListener := errorListener s; emitted :=
     emitted s; log := log s; closedHandles := closedHandles s |}.

Definition set_errorListener (v : bool) (s : t) : t :=
  {| config := config s; client := client s; state := state s; reconnectAttempts :=
     reconnectAttempts s; reconnectTimer := reconnectTimer s; monitorTimer :=
     monitorTimer s; connectPromise := connectPromise s; isShuttingDown :=
     isShuttingDown s; lastConnectedAt := lastConnectedAt s; lastErrorAt :=
     lastErrorAt s; lastError := lastError s; errorListener := v; emitted := emitted
     s; log := log s; closedHandles := closedHandles s |}.

Definition set_emitted (v : list Event) (s : t) : t :=
  {| config := config s; client := client s; state := state s; reconnectAttempts :=
     reconnectAttempts s; reconnectTimer := reconnectTimer s; monitorTimer :=
     monitorTimer s; connectPromise := connectPromise s; isShuttingDown :=
     isShuttingDown s; lastConnectedAt := lastConnectedAt s; lastErrorAt :=
     lastErrorAt s; lastError := lastError s; errorListener := errorListener s;
     emitted := v; log := log s; closedHandles := closedHandles s |}.

Definition set_log (v : list LogLine) (s : t) : t :=
  {| config := config s; client := client s; state := state s; reconnectAttempts :=
     reconnectAttempts s; reconnectTimer := reconnectTimer s; monitorTimer :=
     monitorTimer s; connectPromise := connectPromise s; isShuttingDown :=
     isShuttingDown s; lastConnectedAt := lastConnectedAt s; lastErrorAt :=
     lastErrorAt s; lastError := lastError s; errorListener := errorListener s;
     emitted := emitted s; log := v; closedHandles := closedHandles s |}.

Definition set_closedHandles (v : list Handle) (s : t) : t :=
  {| config := config s; client := client s; state := state s; reconnectAttempts :=
     reconnectAttempts s; reconnectTimer := reconnectTimer s; monitorTimer :=
     monitorTimer s; connectPromise := connectPromise s; isShuttingDown :=
     isShuttingDown s; lastConnectedAt := lastConnectedAt s; lastErrorAt :=
     lastErrorAt s; lastError := lastError s; errorListener := errorListener s;
     emitted := emitted s; log := log s; closedHandles := v |}.

Definition create (cfg : ConnectionConfig) : t :=
  {| config := cfg; client := None; state := DISCONNECTED; reconnectAttempts := 0;
     reconnectTimer := None; monitorTimer := None; connectPromise := false;
     isShuttingDown := false; lastConnectedAt := None; lastErrorAt := None;
     lastError := None; errorListener := false; emitted := []; log := [];
     closedHandles := [] |}.

(** [on('error', listener)] with a listener that returns normally. *)
Definition on_error (s : t) : t := set_errorListener true s.

Definition emit (ev : Event) (s : t) : t := set_emitted (emitted s ++ [ev]) s.

Definition logger (lvl : LogLevel) (msg : string) (s : t) : t :=
  set_log (log s ++ [(lvl, msg)]) s.

(** [this.client.close()] on the current handle. *)
Definition close_client (s : t) : t :=
  match client s with
  | Some h => set_closedHandles (closedHandles s ++ [h]) s
  | None => s
  end.

Definition isConnected (s : t) : bool :=
  ConnectionState_eqb (state s) CONNECTED && bool_decide (is_Some (client s)).

Definition stopReconnectTimer (s : t) : t :=
  match reconnectTimer s with
  | Some _ => set_reconnectTimer None s
  | None => s
  end.

Definition stopMonitorTimer (s : t) : t :=
  match monitorTimer s with
  | Some _ => set_monitorTimer None s
  | None => s
  end.

(** [removeAllListeners()]. *)
Definition removeAllListeners (s : t) : t := set_errorListener false s.

Definition close (s : t) : t :=
  let s := set_isShuttingDown true s in
  let s := stopReconnectTimer s in
  let s := stopMonitorTimer s in
  let s := match client s with
           | Some _ => set_client None (close_client s)
           | None => s
           end in
  let s := set_state DISCONNECTED s in
  let s := emit EvDisconnected s in
  let s := removeAllListeners s in
  logger LInfo "gRPC connection manager closed" s.

(** [this.reconnectAttempts >= this.config.maxReconnectAttempts]. *)
Definition attemptsExhausted (s : t) : bool :=
  match maxReconnectAttempts (config s) with
  | Some bound => (bound <=? reconnectAttempts s)%nat
  | None => false
  end.

Definition pow2 (n : nat) : Q := inject_Z (2 ^ Z.of_nat n).

(** [scheduleReconnect]; [rnd] is the value [Math.random()] returns. *)
Definition scheduleReconnect (rnd : Q) (s : t) : t :=
  if isShuttingDown s || bool_decide (is_Some (reconnectTimer s)) then s
  else if attemptsExhausted s
  then logger LError "Max reconnect attempts reached, giving up" s
  else
    let baseDelay := (initialReconnectDelayMs (config s) * pow2 (reconnectAttempts s))%Q in
    let jitter := (rnd * 1000)%Q in
    let delay := Qmin (baseDelay + jitter)%Q (maxReconnectDelayMs (config s)) in
    let s := set_reconnectAttempts (S (reconnectAttempts s)) s in
    let s := logger LDebug "Scheduling reconnect" s in
    set_reconnectTimer (Some delay) s.

Definition handleConnectionLost (rnd : Q) (s : t) : t :=
  if negb (ConnectionState_eqb (state s) CONNECTED) then s
  else
    let s := set_state DISCONNECTED s in
    let s := emit EvDisconnected s in
    let s := logger LWarn "gRPC connection lost, reconnecting..." s in
    let s := match client s with
             | Some _ => set_client None (close_client s)
             | None => s
             end in
    scheduleReconnect rnd s.

(** [monitorConnection]: arms the first probe. *)
Definition monitorConnection (s : t) : t :=
  match client s with
  | None => s
  | Some _ => set_monitorTimer (Some 5000) s
  end.

(** The body of [checkState], run when a monitor timer fires; [ch] is what
    [channel.getConnectivityState(false)] returns. *)
Definition checkState (ch : ChannelState) (rnd : Q) (s : t) : t :=
  if isShuttingDown s || negb (bool_decide (is_Some (client s)))
  then set_monitorTimer None s
  else
    match ch with
    | TRANSIENT_FAILURE | SHUTDOWN => handleConnectionLost rnd (set_monitorTimer None s)
    | READY => set_monitorTimer (Some 5000) s
    | IDLE | CH_CONNECTING => set_monitorTimer (Some 1000) s
    end.

Definition handleConnectionSuccess (now : Z) (s : t) : t :=
  let s := set_state CONNECTED s in
  let s := set_lastConnectedAt (Some now) s in
  let s := set_reconnectAttempts 0%nat s in
  let s := set_lastError None s in
  let s := emit EvConnected s in
  let s := logger LInfo "gRPC client connected" s in
  monitorConnection s.

(** [handleConnectionFailure].  Without an ['error'] listener the [emit]
    throws and the rest of the body is skipped. *)
Definition handleConnectionFailure (now : Z) (rnd : Q) (err : JsError) (s : t) : t :=
  let s := set_lastErrorAt (Some now) s in
  let s := set_lastError (Some (message err)) s in
  let s := set_state DISCONNECTED s in
  let s := emit (EvError (message err)) s in
  if errorListener s then
    let s := logger LWarn "gRPC client connection failed, will retry in background" s in
    scheduleReconnect rnd s
  else s.

(** What the client factory does, and what [waitForReady] reports. *)
Inductive FactoryOutcome := FactoryThrows (e : JsError) | FactoryReturns (h : Handle).
Inductive ReadyOutcome := ReadyOk | ReadyError (e : JsError).

(** [connect()] up to its [await]: either the promise is already rejected,
    or it is pending on [waitForReady]. *)
Inductive ConnectStart :=
| Rejected (e : JsError) (s : t)
| Pending (h : Handle) (s : t).

Definition connect_start (now : Z) (rnd : Q) (f : FactoryOutcome) (s : t) : ConnectStart :=
  if isShuttingDown s then Rejected (newError "Client is shutting down") s
  else
    let s :=
      set_state (if (0 <? reconnectAttempts s)%nat then RECONNECTING else CONNECTING) s in
    let s := emit EvConnecting s in
    match f with
    | FactoryThrows e => Rejected e (handleConnectionFailure now rnd e s)
    | FactoryReturns h => Pending h (set_client (Some h) s)
    end.

(** [connect()] after its [await]: the promise settles. *)
Definition connect_finish (now : Z) (rnd : Q) (r : ReadyOutcome) (s : t) : t * Result unit :=
  match r with
  | ReadyOk => (handleConnectionSuccess now s, Ok tt)
  | ReadyError e => (handleConnectionFailure now rnd e s, Throw e)
  end.

(** The continuation of [ensureConnected] after [await this.connectPromise]:
    [try { return state === CONNECTED } catch { return false }], and for the
    caller that created the promise, [finally { connectPromise = null }]. *)
Definition ensureConnected_resume (owner : bool) (settled : Result unit) (s : t) : t * Result bool :=
  let s' := if owner then set_connectPromise false s else s in
  match settled with
  | Ok _ => (s', Ok (ConnectionState_eqb (state s) CONNECTED))
  | Throw _ => (s', Ok false)
  end.

(** [ensureConnected()] run to completion, nothing else interleaved: [f] is
    the factory's outcome if a connect is started, [r] the outcome of the
    [waitForReady] the caller ends up waiting for. *)
Definition ensureConnected (now : Z) (rnd : Q) (f : FactoryOutcome) (r : ReadyOutcome)
    (s : t) : t * Result bool :=
  if isConnected s then (s, Ok true)
  else if connectPromise s then
    let '(s1, settled) := connect_finish now rnd r s in
    let '(s2, _) := ensureConnected_resume true settled s1 in
    ensureConnected_resume false settled s2
  else
    match connect_start now rnd f s with
    | Rejected e s1 => ensureConnected_resume true (Throw e) (set_connectPromise true s1)
    | Pending _ s1 =>
        let '(s2, settled) := connect_finish now rnd r (set_connectPromise true s1) in
        ensureConnected_resume true settled s2
    end.

(** A manager that takes a new connect: it is not shutting down and no
    connect is pending. *)
Definition operable (s : t) : Prop :=
  isShuttingDown s = false /\ connectPromise s = false.

(** The callback of the reconnect timer, up to the [await] inside
    [connect()]; a rejection is swallowed by [.catch(() => {})]. *)
Definition reconnectTimerFired (now : Z) (rnd : Q) (f : FactoryOutcome) (s : t) : ConnectStart :=
  connect_start now rnd f (set_reconnectTimer None s).

End ConnectionManager.

(** *** The connection manager as a transition system

    A configuration is the manager together with the [connect()] calls that
    are suspended on [waitForReady].  An attempt is [a_owned] when its promise
    is the one stored in [connectPromise]; the attempts started by the
    reconnect timer are not. *)
Module ConnectionLts.
Import ConnectionManager.

Record Attempt := { a_handle : Handle; a_owned : bool }.

Record Config := { mgr : t; inflight : list Attempt }.

Inductive Action :=
| ActEnsureConnected (now : Z) (rnd : Q) (f : FactoryOutcome)
| ActSettle (i : nat) (now : Z) (rnd : Q) (r : ReadyOutcome)
| ActReconnectTimer (now : Z) (rnd : Q) (f : FactoryOutcome)
| ActMonitorTick (ch : ChannelState) (rnd : Q)
| ActConnectionLost (rnd : Q)
| ActOnError
| ActClose.

(** What the callers of [ensureConnected] observe: an immediate result, a
    suspension on the pending promise, or the value delivered to everyone
    suspended on the promise that has just settled. *)
Inductive Obs :=
| ObsNone
| ObsReturned (b : Result bool)
| ObsAwaiting
| ObsDelivered (b : Result bool).

Definition initial (cfg : ConnectionConfig) : Config :=
  {| mgr := create cfg; inflight := [] |}.

Definition step (a : Action) (c : Config) : option (Config * Obs) :=
  let s := mgr c in
  match a with
  | ActEnsureConnected now rnd f =>
      if isConnected s then Some (c, ObsReturned (Ok true))
      else if connectPromise s then Some (c, ObsAwaiting)
      else
        match connect_start now rnd f s with
        | Rejected e s1 =>
            let '(s2, b) := ensureConnected_resume true (Throw e) (set_connectPromise true s1) in
            Some ({| mgr := s2; inflight := inflight c |}, ObsReturned b)
        | Pending h s1 =>
            Some ({| mgr := set_connectPromise true s1;
                     inflight := inflight c ++ [{| a_handle := h; a_owned := true |}] |},
                  ObsAwaiting)
        end
  | ActSettle i now rnd r =>
      match inflight c !! i with
      | None => None
      | Some att =>
          let '(s1, settled) := connect_finish now rnd r s in
          if a_owned att then
            let '(s2, b) := ensureConnected_resume true settled s1 in
            Some ({| mgr := s2; inflight := delete i (inflight c) |}, ObsDelivered b)
          else Some ({| mgr := s1; inflight := delete i (inflight c) |}, ObsNone)
      end
  | ActReconnectTimer now rnd f =>
      match reconnectTimer s with
      | None => None
      | Some _ =>
          match reconnectTimerFired now rnd f s with
          | Rejected _ s1 => Some ({| mgr := s1; inflight := inflight c |}, ObsNone)
          | Pending h s1 =>
              Some ({| mgr := s1;
                       inflight := inflight c ++ [{| a_handle := h; a_owned := false |}] |},
                    ObsNone)
          end
      end
  | ActMonitorTick ch rnd =>
      Some ({| mgr := checkState ch rnd s; inflight := inflight c |}, ObsNone)
  | ActConnectionLost rnd =>
      Some ({| mgr := handleConnectionLost rnd s; inflight := inflight c |}, ObsNone)
  | ActOnError => Some ({| mgr := on_error s; inflight := inflight c |}, ObsNone)
  | ActClose => Some ({| mgr := close s; inflight := inflight c |}, ObsNone)
  end.

(** Running a schedule; the observations are collected in order. *)
Fixpoint run (acts : list Action) (c : Config) : option (Config * list Obs) :=
  match acts with
  | [] => Some (c, [])
  | a :: rest =>
      match step a c with
      | None => None
      | Some (c1, o) =>
          match run rest c1 with
          | None => None
          | Some (c2, os) => Some (c2, o :: os)
          end
      end
  end.

(** Any interleaving. *)
Inductive reachable (cfg : ConnectionConfig) : Config -> Prop :=
| reachable_initial : reachable cfg (initial cfg)
| reachable_step a c c' o :
    reachable cfg c -> step a c = Some (c', o) -> reachable cfg c'.

(** The interleavings in which connect attempts do not overlap: at most one
    is in flight, and [close()] is not called while one is. *)
Definition serial (a : Action) (c c' : Config) : Prop :=
  (length (inflight c') <= 1)%nat /\ (a = ActClose -> inflight c = []).

Inductive serial_reachable (cfg : ConnectionConfig) : Config -> Prop :=
| serial_initial : serial_reachable cfg (initial cfg)
| serial_step a c c' o :
    serial_reachable cfg c -> step a c = Some (c', o) -> serial a c c' ->
    serial_reachable cfg c'.

(** The invariant of the serial interleavings. *)
Definition handle_inv (c : Config) : Prop :=
  (state (mgr c) = CONNECTED -> is_Some (client (mgr c))) /\
  (inflight c <> [] -> is_Some (client (mgr c)) /\ state (mgr c) <> CONNECTED) /\
  (length (inflight c) <= 1)%nat.

(** The configurations a [close()] leaves behind when no connect attempt is
    in flight. *)
Definition closed_quiet (c : Config) : Prop :=
  isShuttingDown (mgr c) = true /\ state (mgr c) = DISCONNECTED /\
  client (mgr c) = None /\ connectPromise (mgr c) = false /\
  reconnectTimer (mgr c) = None /\ inflight c = [].

Definition is_connecting (ev : Event) : bool :=
  match ev with
  | EvConnecting => true
  | _ => false
  end.

(** How many ['connecting'] events were emitted so far. *)
Definition connecting_count (s : t) : nat :=
  length (List.filter is_connecting (emitted s)).

Definition is_settled (ev : Event) : bool :=
  match ev with
  | EvConnected | EvError _ => true
  | _ => false
  end.

(** How many connects came to an end: the ['connected'] and ['error']
    events emitted so far. *)
Definition settled_count (s : t) : nat :=
  length (List.filter is_settled (emitted s)).

(** The attempts in flight whose promise sits in [connectPromise]. *)
Definition owned_count (c : Config) : nat :=
  length (List.filter a_owned (inflight c)).


Definition is_ensure (a : Action) : bool :=
  match a with
  | ActEnsureConnected _ _ _ => true
  | _ => false
  end.

End ConnectionLts.

(* ===================================================================== *)
(** ** ResilientGrpcClient.ts *)
(* ===================================================================== *)

Module Client.
Import CallExecutor.

(** The configuration with defaults applied ([InternalConfig]); only the
    fields the engine reads. *)
Record InternalConfig := {
  serviceName : string;
  grpcUrl : string;
  timeoutMs : Z;
  retryCount : nat;
  retryDelayMs : Z;
  maxReconnectAttempts : option nat;
  initialReconnectDelayMs : Q;
  maxReconnectDelayMs : Q;
  enableFallbackCache : bool;
  fallbackCacheTtlMs : number;
  maxCacheSize : number;
}.

Record CallOptions := {
  opt_timeoutMs : option Z;
  opt_locale : option string;
  opt_clientUrl : option string;
  skipRetry : bool;
  cacheKey : option string;
  skipCache : bool;
}.

(** [options || {}]. *)
Definition noOptions : CallOptions :=
  {| opt_timeoutMs := None; opt_locale := None; opt_clientUrl := None;
     skipRetry := false; cacheKey := None; skipCache := false |}.

(** [ClientHealth]. *)
Record ClientHealth := {
  h_state : ConnectionManager.ConnectionState;
  h_healthy : bool;
  h_lastConnectedAt : option Z;
  h_lastErrorAt : option Z;
  h_lastError : option string;
  h_reconnectAttempts : nat;
  h_latencyMs : number;
  h_metrics : MetricsTracker.ClientMetrics;
}.

(** What the environment does during one iteration of the retry loop: the
    clock, [Math.random()], the factory and [waitForReady] (consulted only if
    a connect is needed), the transport's answer, and the time it took, a
    difference of two readings of [Date.now()]. *)
Record AttemptEnv (R : Type) := {
  env_now : Z;
  env_rnd : Q;
  env_factory : ConnectionManager.FactoryOutcome;
  env_ready : ConnectionManager.ReadyOutcome;
  env_invoke : InvokeOutcome R;
  env_latency : Z;
}.
Arguments env_now {R} _.
Arguments env_rnd {R} _.
Arguments env_factory {R} _.
Arguments env_ready {R} _.
Arguments env_invoke {R} _.
Arguments env_latency {R} _.

Section Client.
Context {R : Type}.
Variable JSON_stringify : Utils.jsval -> Result string.

Record t := {
  config : InternalConfig;
  metricsTracker : MetricsTracker.t;
  fallbackCache : FallbackCache.t R;
  connectionManager : ConnectionManager.t;
  log : list LogLine;
  slept : list Z;
}.

Definition set_metrics (m : MetricsTracker.t) (c : t) : t :=
  {| config := config c; metricsTracker := m; fallbackCache := fallbackCache c;
     connectionManager := connectionManager c; log := log c; slept := slept c |}.

Definition set_cache (fc : FallbackCache.t R) (c : t) : t :=
  {| config := config c; metricsTracker := metricsTracker c; fallbackCache := fc;
     connectionManager := connectionManager c; log := log c; slept := slept c |}.

Definition set_manager (m : ConnectionManager.t) (c : t) : t :=
  {| config := config c; metricsTracker := metricsTracker c;
     fallbackCache := fallbackCache c; connectionManager := m; log := log c;
     slept := slept c |}.

Definition logger (lvl : LogLevel) (msg : string) (c : t) : t :=
  {| config := config c; metricsTracker := metricsTracker c;
     fallbackCache := fallbackCache c; connectionManager := connectionManager c;
     log := log c ++ [(lvl, msg)]; slept := slept c |}.

(** [await sleep(ms)]. *)
Definition sleep (ms : Z) (c : t) : t :=
  {| config := config c; metricsTracker := metricsTracker c;
     fallbackCache := fallbackCache c; connectionManager := connectionManager c;
     log := log c; slept := slept c ++ [ms] |}.

(** The constructor, given a [protosPath] and a logger.  [listening] tells
    whether the application listens to the client's own ['error'] event: the
    forwarder installed on the manager re-emits on the client, and that
    [emit] throws when nobody listens. *)
Definition create (cfg : InternalConfig) (listening : bool) (now : Z) : Result t :=
  match FallbackCache.create (serviceName cfg) (maxCacheSize cfg) (fallbackCacheTtlMs cfg) with
  | Throw e => Throw e
  | Ok fc =>
      let m :=
        ConnectionManager.create
          {| ConnectionManager.serviceName := serviceName cfg;
             ConnectionManager.grpcUrl := grpcUrl cfg;
             ConnectionManager.timeoutMs := timeoutMs cfg;
             ConnectionManager.maxReconnectAttempts := maxReconnectAttempts cfg;
             ConnectionManager.initialReconnectDelayMs := initialReconnectDelayMs cfg;
             ConnectionManager.maxReconnectDelayMs := maxReconnectDelayMs cfg |} in
      Ok {| config := cfg;
            metricsTracker := MetricsTracker.create now;
            fallbackCache := fc;
            connectionManager := ConnectionManager.set_errorListener listening m;
            log := [];
            slept := [] |}
  end.

Definition getMetrics (c : t) : MetricsTracker.ClientMetrics * t :=
  let '(snap, m) := MetricsTracker.getMetrics (metricsTracker c) in
  (snap, set_metrics m c).

Definition getHealth (c : t) : ClientHealth * t :=
  let cm := connectionManager c in
  let '(snap1, c1) := getMetrics c in
  let '(snap2, c2) := getMetrics c1 in
  ({| h_state := ConnectionManager.state cm;
      h_healthy := ConnectionManager.isConnected cm;
      h_lastConnectedAt := ConnectionManager.lastConnectedAt cm;
      h_lastErrorAt := ConnectionManager.lastErrorAt cm;
      h_lastError := ConnectionManager.lastError cm;
      h_reconnectAttempts := ConnectionManager.reconnectAttempts cm;
      h_latencyMs := MetricsTracker.m_avgLatencyMs snap1;
      h_metrics := snap2 |}, c2).

Definition handleServiceUnavailable (effectiveCacheKey : string) (useCache : bool)
    (now : Z) (c : t) : t * Result R :=
  let unavailable := newError (serviceName (config c) +:+ " is not available") in
  if useCache then
    match FallbackCache.get effectiveCacheKey now (fallbackCache c) with
    | Throw e => (c, Throw e)
    | Ok (Some cached, fc) =>
        let c := set_cache fc c in
        let c := set_metrics (MetricsTracker.recordCacheHit (metricsTracker c)) c in
        let c := logger LInfo "Service unavailable, returning cached response" c in
        (c, Ok cached)
    | Ok (None, fc) =>
        let c := set_cache fc c in
        let c := set_metrics (MetricsTracker.recordCacheMiss (metricsTracker c)) c in
        (c, Throw unavailable)
    end
  else (c, Throw unavailable).

Definition executeCallAttempt (env : AttemptEnv R) (methodName : string)
    (effectiveCacheKey : string) (useCache : bool) (c : t) : t * Result R :=
  let '(cm, connected) :=
    ConnectionManager.ensureConnected (env_now env) (env_rnd env) (env_factory env)
      (env_ready env) (connectionManager c) in
  let c := set_manager cm c in
  match connected with
  | Throw e => (c, Throw e)
  | Ok false => handleServiceUnavailable effectiveCacheKey useCache (env_now env) c
  | Ok true =>
      match ConnectionManager.client cm with
      | None => (c, Throw (newError (serviceName (config c) +:+ " client not connected")))
      | Some _ =>
          match executeGrpcCall methodName (serviceName (config c)) (env_invoke env) with
          | Throw e => (c, Throw e)
          | Ok response =>
              let c :=
                set_metrics
                  (MetricsTracker.recordSuccess (Number.of_Z (env_latency env)) (metricsTracker c))
                  c in
              if useCache then
                match FallbackCache.set effectiveCacheKey response None
                        (env_now env + env_latency env) (fallbackCache c) with
                | Throw e => (c, Throw e)
                | Ok fc => (set_cache fc c, Ok response)
                end
              else (c, Ok response)
          end
      end
  end.

Definition handleRetryAttempt (env : AttemptEnv R) (attempt : nat) (lastError : JsError)
    (maxAttempts : nat) (c : t) : t * bool :=
  let c :=
    if (0 <? attempt)%nat
    then set_metrics (MetricsTracker.recordRetry (metricsTracker c)) c
    else c in
  if negb (isRetryableError lastError) || (maxAttempts - 1 <=? attempt)%nat then (c, false)
  else
    let c :=
      if isConnectionError lastError
      then set_manager
             (ConnectionManager.handleConnectionLost (env_rnd env) (connectionManager c)) c
      else c in
    let delay := retryDelayMs (config c) * 2 ^ Z.of_nat attempt in
    let c := logger LWarn "gRPC call failed, retrying..." c in
    (sleep delay c, true).

Definition tryFallbackCache (effectiveCacheKey : string) (useCache : bool) (now : Z)
    (c : t) : t * Result (option R) :=
  if negb useCache then (c, Ok None)
  else
    match FallbackCache.get effectiveCacheKey now (fallbackCache c) with
    | Throw e => (c, Throw e)
    | Ok (Some cached, fc) =>
        let c := set_cache fc c in
        let c := set_metrics (MetricsTracker.recordCacheHit (metricsTracker c)) c in
        let c := logger LWarn "Call failed, returning stale cached response" c in
        (c, Ok (Some cached))
    | Ok (None, fc) =>
        let c := set_cache fc c in
        (set_metrics (MetricsTracker.recordCacheMiss (metricsTracker c)) c, Ok None)
    end.

(** How the [for] loop of [call] ends: a [return] from inside the [try], or
    an exit (by [break] or by the loop condition) with the last error. *)
Inductive LoopExit :=
| Returned (response : R)
| Exited (lastError : option JsError).

(** The loop, [remaining = maxAttempts - attempt] iterations to go. *)
Fixpoint call_loop (envs : nat -> AttemptEnv R) (methodName effectiveCacheKey : string)
    (useCache : bool) (maxAttempts remaining attempt : nat) (lastError : option JsError)
    (c : t) : t * LoopExit :=
  match remaining with
  | O => (c, Exited lastError)
  | S remaining' =>
      match executeCallAttempt (envs attempt) methodName effectiveCacheKey useCache c with
      | (c1, Ok response) => (c1, Returned response)
      | (c1, Throw e) =>
          let '(c2, shouldRetry) := handleRetryAttempt (envs attempt) attempt e maxAttempts c1 in
          if shouldRetry
          then call_loop envs methodName effectiveCacheKey useCache maxAttempts remaining'
                 (S attempt) (Some e) c2
          else (c2, Exited (Some e))
      end
  end.

(** [cacheKey || generateCacheKey(methodName, request)]: the key is
    generated only when the options give none, and generating it may throw. *)
Definition effectiveCacheKeyOf (options : CallOptions) (methodName : string)
    (request : Utils.jsval) : Result string :=
  match cacheKey options with
  | Some EmptyString | None => Utils.generateCacheKey JSON_stringify methodName request
  | Some k => Ok k
  end.

(** [call], run to completion.  [envs] gives the environment of each
    iteration and [finalNow] the clock at the fallback read.  The cache key
    is computed before the call is counted: if that throws, the call rejects
    and nothing was recorded. *)
Definition call (envs : nat -> AttemptEnv R) (finalNow : Z) (methodName : string)
    (request : Utils.jsval) (options : CallOptions) (c : t) : t * Result R :=
  let maxAttempts := if skipRetry options then 1%nat else (retryCount (config c) + 1)%nat in
  match effectiveCacheKeyOf options methodName request with
  | Throw e => (c, Throw e)
  | Ok effectiveCacheKey =>
      let useCache := enableFallbackCache (config c) && negb (skipCache options) in
      let c := set_metrics (MetricsTracker.recordCallStart (metricsTracker c)) c in
      match call_loop envs methodName effectiveCacheKey useCache maxAttempts maxAttempts 0 None c
      with
      | (c1, Returned response) => (c1, Ok response)
      | (c1, Exited lastError) =>
          let c2 := set_metrics (MetricsTracker.recordFailure (metricsTracker c1)) c1 in
          match tryFallbackCache effectiveCacheKey useCache finalNow c2 with
          | (c3, Throw e) => (c3, Throw e)
          | (c3, Ok (Some cached)) => (c3, Ok cached)
          | (c3, Ok None) =>
              (c3, Throw (match lastError with
                          | Some e => e
                          | None => newError "Unknown gRPC error"
                          end))
          end
      end
  end.

(** One invocation of [call] with everything it is given. *)
Record Invocation := {
  inv_envs : nat -> AttemptEnv R;
  inv_finalNow : Z;
  inv_method : string;
  inv_request : Utils.jsval;
  inv_options : CallOptions;
}.

(** The environment lets every connect that the attempts [0 .. n-1] may
    need succeed. *)
Definition connects (envs : nat -> AttemptEnv R) (n : nat) : Prop :=
  forall i, (i < n)%nat ->
    (exists h, env_factory (envs i) = ConnectionManager.FactoryReturns h) /\
    env_ready (envs i) = ConnectionManager.ReadyOk.

(** The transport answers each of the attempts [0 .. n-1] with an error
    that is retryable. *)
Definition failsRetryably (envs : nat -> AttemptEnv R) (n : nat) : Prop :=
  forall i, (i < n)%nat ->
    exists se, env_invoke (envs i) = InvokeError se /\
               isRetryableError (mapGrpcError se) = true.

(** Whether the invocation gets a cache key: not when generating it throws. *)
Definition keyed (i : Invocation) : bool :=
  negb (rejected (effectiveCacheKeyOf (inv_options i) (inv_method i) (inv_request i))).

(** A sequence of invocations, each completed before the next starts. *)
Fixpoint calls (invs : list Invocation) (c : t) : t * list (Result R) :=
  match invs with
  | [] => (c, [])
  | i :: rest =>
      let '(c1, r) :=
        call (inv_envs i) (inv_finalNow i) (inv_method i) (inv_request i) (inv_options i) c in
      let '(c2, rs) := calls rest c1 in
      (c2, r :: rs)
  end.

(** The public [ensureConnected()], which hands over to the manager. *)
Definition ensureConnected (now : Z) (rnd : Q) (f : ConnectionManager.FactoryOutcome)
    (r : ConnectionManager.ReadyOutcome) (c : t) : t * Result bool :=
  let '(cm, b) := ConnectionManager.ensureConnected now rnd f r (connectionManager c) in
  (set_manager cm c, b).

(** [close()].  The forwarders sit on the manager, whose own [close] has
    detached them, so the client's [removeAllListeners()] changes nothing
    that is recorded here. *)
Definition close (c : t) : t :=
  let c := set_manager (ConnectionManager.close (connectionManager c)) c in
  let c := set_cache (FallbackCache.clear (fallbackCache c)) c in
  logger LInfo "gRPC client closed" c.

(** A client that was closed while no connect was under way: the manager is
    shutting down and disconnected, and the cache is empty. *)
Definition closed (c : t) : Prop :=
  ConnectionManager.isShuttingDown (connectionManager c) = true /\
  ConnectionManager.state (connectionManager c) = ConnectionManager.DISCONNECTED /\
  ConnectionManager.connectPromise (connectionManager c) = false /\
  LRUCache.items (FallbackCache.cache (fallbackCache c)) = [].

(** The cache key a call ends up with is usable: no key in the options, or
    one that is empty (and so replaced by the generated key) or not made of
    white space only. *)
Definition usableKey (options : CallOptions) : bool :=
  match cacheKey options with
  | Some k => String.eqb k "" || negb (FallbackCache.isBlank k)
  | None => true
  end.

(** [enableFallbackCache && !skipCache]. *)
Definition useCacheOf (c : t) (options : CallOptions) : bool :=
  enableFallbackCache (config c) && negb (skipCache options).

(** The backoff delays of the first [k] retries. *)
Definition backoff (c : t) (k : nat) : list Z :=
  map (fun i => retryDelayMs (config c) * 2 ^ Z.of_nat i) (seq 0 k).

End Client.
Arguments t : clear implicits.
Arguments Invocation : clear implicits.
Arguments LoopExit : clear implicits.

End Client.

(* ===================================================================== *)
(** ** Scenarios *)
(* ===================================================================== *)

(** Sample configuration and environments used by the closed statements. *)
Module Scenario.
Import Client.

Definition cfg (retries : nat) (cacheOn : bool) : InternalConfig :=
  {| serviceName := "Svc"; grpcUrl := "localhost:50051"; timeoutMs := 5000;
     retryCount := retries; retryDelayMs := 1000; maxReconnectAttempts := None;
     initialReconnectDelayMs := 1000; maxReconnectDelayMs := 30000;
     enableFallbackCache := cacheOn; fallbackCacheTtlMs := Num 60000; maxCacheSize := Num 100 |}.

Definition wireError (c : Z) (msg : string) : CallExecutor.ServiceError :=
  {| CallExecutor.se_code := c; CallExecutor.se_details := None;
     CallExecutor.se_message := msg |}.

(** An iteration in which a connect, if needed, succeeds. *)
Definition up (now : Z) (h : ConnectionManager.Handle)
    (o : CallExecutor.InvokeOutcome string) (latency : Z) : AttemptEnv string :=
  {| env_now := now; env_rnd := 1 # 2;
     env_factory := ConnectionManager.FactoryReturns h;
     env_ready := ConnectionManager.ReadyOk; env_invoke := o; env_latency := latency |}.

(** An iteration in which the channel does not become ready. *)
Definition down (now : Z) (h : ConnectionManager.Handle) : AttemptEnv string :=
  {| env_now := now; env_rnd := 1 # 2;
     env_factory := ConnectionManager.FactoryReturns h;
     env_ready := ConnectionManager.ReadyError (newError "Failed to connect before the deadline");
     env_invoke := CallExecutor.MethodMissing; env_latency := 0 |}.

(** A client straight from the constructor. *)
Definition fresh (retries : nat) (cacheOn : bool) : option (Client.t string) :=
  match create (cfg retries cacheOn) true 0 with
  | Ok c => Some c
  | Throw _ => None
  end.

(** A call to [Get({id: 1})] without options. *)
Definition invocation (envs : nat -> AttemptEnv string) : Invocation string :=
  {| inv_envs := envs; inv_finalNow := 0; inv_method := "Get";
     inv_request := Utils.JObject [("id", Utils.JNumber 1)]; inv_options := noOptions |}.

(** The transport answers [UNAVAILABLE] twice, then succeeds. *)
Definition twoFailures (n : nat) : AttemptEnv string :=
  match n with
  | 0%nat => Scenario.up 0 1%nat (CallExecutor.InvokeError (Scenario.wireError 14 "unavailable")) 0
  | 1%nat => Scenario.up 1000 2%nat (CallExecutor.InvokeError (Scenario.wireError 14 "unavailable")) 0
  | _ => Scenario.up 3000 3%nat (CallExecutor.InvokeOk "payload") 7
  end.

(** Every attempt succeeds after [latency] milliseconds. *)
Definition healthy (latency : Z) (n : nat) : AttemptEnv string :=
  Scenario.up 0 1%nat (CallExecutor.InvokeOk "payload") latency.

(** The server goes away: [UNAVAILABLE] on the open connection, then the
    channel does not become ready again. *)
Definition outage (n : nat) : AttemptEnv string :=
  match n with
  | 0%nat =>
      Scenario.up 10000 1%nat (CallExecutor.InvokeError (Scenario.wireError 14 "unavailable")) 0
  | _ => Scenario.down 11000 2%nat
  end.

Definition connCfg : ConnectionManager.ConnectionConfig :=
  {| ConnectionManager.serviceName := "Svc";
     ConnectionManager.grpcUrl := "localhost:50051";
     ConnectionManager.timeoutMs := 5000;
     ConnectionManager.maxReconnectAttempts := None;
     ConnectionManager.initialReconnectDelayMs := 1000;
     ConnectionManager.maxReconnectDelayMs := 30000 |}.

Definition deadline : JsError := newError "Failed to connect before the deadline".

(** A reconnect timer is armed after a failed connect; the application asks
    for the connection again (handle 2), the timer fires during that attempt
    (handle 3), [close()] is called, [ensureConnected()] is called once more,
    and then the channel of handle 2 becomes ready. *)
Definition closeDuringConnect : list ConnectionLts.Action :=
  [ ConnectionLts.ActOnError;
    ConnectionLts.ActEnsureConnected 0 (1 # 2) (ConnectionManager.FactoryReturns 1%nat);
    ConnectionLts.ActSettle 0 5000 (1 # 2) (ConnectionManager.ReadyError deadline);
    ConnectionLts.ActEnsureConnected 6000 (1 # 2) (ConnectionManager.FactoryReturns 2%nat);
    ConnectionLts.ActReconnectTimer 6500 (1 # 2) (ConnectionManager.FactoryReturns 3%nat);
    ConnectionLts.ActClose;
    ConnectionLts.ActEnsureConnected 7000 (1 # 2) (ConnectionManager.FactoryReturns 4%nat);
    ConnectionLts.ActSettle 0 8000 (1 # 2) ConnectionManager.ReadyOk ].

(** Two connects overlap and the connection is lost in between: after a
    failed connect has armed the reconnect timer, [ensureConnected()] starts
    a connect (handle 2), the timer fires during it (handle 3) and its
    channel becomes ready first, a call then reports the connection lost,
    and only then the channel of handle 2 becomes ready. *)
Definition lateReady : list ConnectionLts.Action :=
  [ ConnectionLts.ActOnError;
    ConnectionLts.ActEnsureConnected 0 (1 # 2) (ConnectionManager.FactoryReturns 1%nat);
    ConnectionLts.ActSettle 0 5000 (1 # 2) (ConnectionManager.ReadyError deadline);
    ConnectionLts.ActEnsureConnected 6000 (1 # 2) (ConnectionManager.FactoryReturns 2%nat);
    ConnectionLts.ActReconnectTimer 6500 (1 # 2) (ConnectionManager.FactoryReturns 3%nat);
    ConnectionLts.ActSettle 1 7000 (1 # 2) ConnectionManager.ReadyOk;
    ConnectionLts.ActConnectionLost (1 # 2);
    ConnectionLts.ActSettle 0 8000 (1 # 2) ConnectionManager.ReadyOk ].
End Scenario.

(* ===================================================================== *)
(** * Properties *)
(* ===================================================================== *)

(** ** Cache-key derivation *)

Section UtilsFacts.
Import Utils.

Example fastHash_empty : fastHash "" = "1505".
Proof. reflexivity. Qed.

Example fastHash_a : fastHash "a" = "2b5c4".
Proof. vm_compute. reflexivity. Qed.

Example key_ab :
  generateCacheKey (fun _ => Ok "")
    "M" (JObject [("b", JNumber 2); ("a", JNumber 1)]) = Ok "M:a=1&b=2".
Proof. vm_compute. reflexivity. Qed.


Lemma get_prop_elem k v (x : list (string * jsval)) :
  NoDup (x.*1) -> (k, v) ∈ x -> get_prop k x = v.
Proof.
  induction x as [|[k' v'] x IH]; simpl; intros Hnd Hin.
  - by apply elem_of_nil in Hin.
  - apply NoDup_cons in Hnd as [Hk' Hnd].
    apply elem_of_cons in Hin as [Heq|Hin].
    + inversion Heq; subst. by rewrite String.eqb_refl.
    + destruct (String.eqb_spec k' k) as [->|Hne]; [|by apply IH].
      exfalso. apply Hk'. apply list_elem_of_fmap. by exists (k, v).
Qed.

Lemma get_prop_perm k (x y : list (string * jsval)) :
  NoDup (x.*1) -> x ≡ₚ y -> get_prop k x = get_prop k y.
Proof.
  intros Hnd Hp.
  assert (Hnd' : NoDup (y.*1)) by (by rewrite <- Hp).
  destruct (decide (k ∈ x.*1)) as [Hin|Hnin].
  - apply list_elem_of_fmap in Hin as [[k' v] [-> Hin]]. simpl.
    rewrite (get_prop_elem _ v x), (get_prop_elem _ v y); auto.
    by rewrite <- Hp.
  - assert (Hund : forall z : list (string * jsval), k ∉ z.*1 -> get_prop k z = JUndefined).
    { induction z as [|[k' v'] z IH]; simpl; [done|]. intros Hz.
      apply not_elem_of_cons in Hz as [Hne Hz].
      destruct (String.eqb_spec k' k); [congruence | by apply IH]. }
    rewrite !Hund; auto. by rewrite <- Hp.
Qed.

Lemma sorted_keys_perm (x y : list (string * jsval)) :
  x ≡ₚ y -> sorted_keys x = sorted_keys y.
Proof.
  intros Hp. unfold sorted_keys.
  apply (Sorted_unique String.le); try apply Sorted_merge_sort; try apply _.
  by rewrite !merge_sort_Permutation, Hp.
Qed.


Lemma simple_keys (x : list (string * jsval)) :
  NoDup (x.*1) ->
  Forall (fun kv => isSimpleValue kv.2 = true) x ->
  forallb (fun key => isSimpleValue (get_prop key x)) (sorted_keys x) = true.
Proof.
  intros Hnd Hall. apply forallb_forall. intros k Hk.
  apply list_elem_of_In in Hk. unfold sorted_keys in Hk.
  rewrite merge_sort_Permutation in Hk.
  apply list_elem_of_fmap in Hk as [[k' v] [-> Hin]]. simpl.
  rewrite (get_prop_elem k' v x Hnd Hin).
  by apply (proj1 (Forall_forall _ _) Hall (k', v)).
Qed.

Lemma generateCacheKey_simple JSON_stringify m (x : list (string * jsval)) :
  NoDup (x.*1) -> (length x <= 10)%nat ->
  Forall (fun kv => isSimpleValue kv.2 = true) x ->
  generateCacheKey JSON_stringify m (JObject x) =
  Ok (m +:+ ":" +:+ join "&"
        (map (fun key => key +:+ "=" +:+ String_of (get_prop key x)) (sorted_keys x))).
Proof.
  intros Hnd Hlen Hall. unfold generateCacheKey.
  rewrite simple_keys by done.
  assert (Hl : length (sorted_keys x) = length x).
  { unfold sorted_keys. by rewrite merge_sort_Permutation, length_fmap. }
  rewrite Hl. by rewrite (proj2 (Nat.leb_le _ _) Hlen).
Qed.

(** C6.  Two flat objects with at most ten keys, whose values are strings,
    numbers, booleans, [null] or [undefined], and which hold the same
    key-value pairs, in whatever order, get the same cache key; the key is the method name, a colon, and the [k=v] pairs
    joined by [&] with the keys in ascending order.  In particular
    [{a:1, b:2}] and [{b:2, a:1}] under method ["M"] both give
    ["M:a=1&b=2"]. *)
Theorem generateCacheKey_order_invariant JSON_stringify m (x y : list (string * jsval)) :
  NoDup (x.*1) -> x ≡ₚ y -> (length x <= 10)%nat ->
  Forall (fun kv => isSimpleValue kv.2 = true) x ->
  generateCacheKey JSON_stringify m (JObject x) = generateCacheKey JSON_stringify m (JObject y)
  /\ (exists ks : list string,
        Sorted String.le ks /\ ks ≡ₚ x.*1 /\
        generateCacheKey JSON_stringify m (JObject x) =
        Ok (m +:+ ":" +:+ join "&" (map (fun k => k +:+ "=" +:+ String_of (get_prop k x)) ks)))
  /\ generateCacheKey JSON_stringify "M" (JObject [("a", JNumber 1); ("b", JNumber 2)])
     = Ok "M:a=1&b=2"
  /\ generateCacheKey JSON_stringify "M" (JObject [("b", JNumber 2); ("a", JNumber 1)])
     = Ok "M:a=1&b=2".
Proof.
  intros Hnd Hp Hlen Hall.
  assert (Hnd' : NoDup (y.*1)) by (by rewrite <- Hp).
  assert (Hlen' : (length y <= 10)%nat) by (by rewrite <- Hp).
  assert (Hall' : Forall (fun kv => isSimpleValue kv.2 = true) y) by (by rewrite <- Hp).
  split; [|split; [|split]].
  - rewrite !generateCacheKey_simple by done.
    rewrite <- (sorted_keys_perm x y Hp).
    do 4 f_equal. apply map_ext. intros k. by rewrite (get_prop_perm k x y).
  - exists (sorted_keys x). split; [|split].
    + apply Sorted_merge_sort; apply _.
    + apply merge_sort_Permutation.
    + by apply generateCacheKey_simple.
  - vm_compute. reflexivity.
  - vm_compute. reflexivity.
Qed.

Lemma generateCacheKey_order_invariant_witness :
  Utils.generateCacheKey (fun _ => Ok "") "Get" (JObject [("id", JNumber 1); ("all", JBoolean true)]) =
  Utils.generateCacheKey (fun _ => Ok "") "Get" (JObject [("all", JBoolean true); ("id", JNumber 1)]).
Proof.
  refine (proj1 (generateCacheKey_order_invariant (fun _ => Ok "") "Get"
           [("id", JNumber 1); ("all", JBoolean true)]
           [("all", JBoolean true); ("id", JNumber 1)] _ _ _ _)).
  - apply (bool_decide_unpack _). vm_compute. exact I.
  - apply perm_swap.
  - simpl. lia.
  - repeat constructor.
Defined.

End UtilsFacts.

(** ** Fallback cache *)

Section LRUCacheFacts.
Context {V : Type}.
Import FallbackCache.

Lemma outOfRange_false (x lo hi : Q) :
  (lo <= x)%Q -> (x <= hi)%Q -> outOfRange (Num x) lo hi = false.
Proof.
  intros Hlo Hhi. unfold outOfRange, Number.lt.
  destruct (Qlt_le_dec x lo) as [Hlt|_].
  - exfalso. apply (Qlt_not_le _ _ Hlt Hlo).
  - destruct (Qlt_le_dec hi x) as [Hlt|_]; [|done].
    exfalso. apply (Qlt_not_le _ _ Hlt Hhi).
Qed.

Lemma outOfRange_Num (x lo hi : Q) :
  outOfRange (Num x) lo hi = false <-> (lo <= x)%Q /\ (x <= hi)%Q.
Proof.
  unfold outOfRange, Number.lt.
  destruct (Qlt_le_dec x lo) as [Hlt|Hlo]; simpl.
  - split; [done|]. intros [Hlo _]. exfalso. apply (Qlt_not_le _ _ Hlt Hlo).
  - destruct (Qlt_le_dec hi x) as [Hlt|Hhi].
    + split; [done|]. intros [_ Hhi]. exfalso. apply (Qlt_not_le _ _ Hlt Hhi).
    + done.
Qed.

(** The range test lets [NaN] through and stops the infinities. *)
Lemma outOfRange_special (lo hi : Q) :
  outOfRange NaN lo hi = false /\ outOfRange PosInf lo hi = true /\
  outOfRange NegInf lo hi = true.
Proof. done. Qed.

(** What the constructor has checked when it returns. *)
Lemma create_Ok_inv service maxSize defaultTtl (fc : FallbackCache.t V) :
  create service maxSize defaultTtl = Ok fc ->
  exists size : Q,
    maxSize = Num size /\ (MIN_CACHE_SIZE <= size)%Q /\ (size <= MAX_CACHE_SIZE)%Q /\
    (String.length (trim service) =? 0)%nat = false /\
    outOfRange defaultTtl MIN_TTL_MS MAX_TTL_MS = false /\
    fc = {| cache := {| LRUCache.max := Z.to_nat (Qfloor size);
                        LRUCache.allowStale := true;
                        LRUCache.updateAgeOnGet := true;
                        LRUCache.ttl := storeTtl defaultTtl;
                        LRUCache.noDeleteOnStaleGet := true;
                        LRUCache.items := [] |};
            defaultTtlMs := Number.floor defaultTtl;
            serviceName := trim service;
            debugLog := [] |}.
Proof.
  unfold create.
  destruct (String.length (trim service) =? 0)%nat eqn:Hs; [done|].
  destruct (outOfRange maxSize MIN_CACHE_SIZE MAX_CACHE_SIZE) eqn:Hm; [done|].
  destruct (outOfRange defaultTtl MIN_TTL_MS MAX_TTL_MS) eqn:Ht; [done|].
  destruct maxSize as [| | |size]; try done. cbn [Number.floor Number.of_Z].
  intros H. simplify_eq. apply outOfRange_Num in Hm as [Hlo Hhi].
  exists size. repeat split; try done.
  f_equal. f_equal. f_equal. apply Qfloor_Z.
Qed.

Lemma find_last (k : string) (e : LRUCache.entry V) (l : list (LRUCache.entry V)) :
  LRUCache.e_key e = k ->
  LRUCache.find k l = None ->
  LRUCache.find k (l ++ [e]) = Some e.
Proof.
  intros Hk. unfold LRUCache.find. induction l as [|e' l IH]; simpl.
  - intros _. by rewrite Hk, String.eqb_refl.
  - destruct (String.eqb (LRUCache.e_key e') k); [done|]. apply IH.
Qed.

Lemma find_remove (k : string) (l : list (LRUCache.entry V)) :
  LRUCache.find k (LRUCache.remove k l) = None.
Proof.
  unfold LRUCache.find, LRUCache.remove. induction l as [|e l IH]; simpl; [done|].
  destruct (String.eqb (LRUCache.e_key e) k) eqn:He; simpl; [done|]. by rewrite He.
Qed.

Lemma find_tail (k : string) (l : list (LRUCache.entry V)) :
  LRUCache.find k l = None -> LRUCache.find k (tail l) = None.
Proof.
  unfold LRUCache.find. destruct l as [|e l]; simpl; [done|].
  by destruct (String.eqb (LRUCache.e_key e) k).
Qed.

(** After [set], the key is bound to the entry just written. *)
Lemma LRUCache_find_set (k : string) (v : V) (ttl now : Z) (c : LRUCache.t V) :
  LRUCache.find k (LRUCache.items (LRUCache.set k v ttl now c)) =
  Some {| LRUCache.e_key := k; LRUCache.e_value := v;
          LRUCache.e_ttl := ttl; LRUCache.e_start := now |}.
Proof.
  unfold LRUCache.set.
  destruct (LRUCache.find k (LRUCache.items c)) eqn:Hf; simpl.
  - apply find_last; [done | apply find_remove].
  - apply find_last; [done|].
    destruct (length (LRUCache.items c) =? LRUCache.max c)%nat; [by apply find_tail | done].
Qed.

Lemma LRUCache_flags_set (k : string) (v : V) (ttl now : Z) (c : LRUCache.t V) :
  LRUCache.allowStale (LRUCache.set k v ttl now c) = LRUCache.allowStale c /\
  LRUCache.noDeleteOnStaleGet (LRUCache.set k v ttl now c) = LRUCache.noDeleteOnStaleGet c.
Proof.
  unfold LRUCache.set. by destruct (LRUCache.find k (LRUCache.items c)).
Qed.

End LRUCacheFacts.

Section CacheFacts.
Context {V : Type}.
Import FallbackCache.

(** C5, amended.  For a cache configured as the constructor configures it
    ([allowStale], [noDeleteOnStaleGet]), a valid key [k], a value [v] and a TTL
    [T] within the allowed range: [set(k, v, T)] succeeds, and a [get(k)]
    issued more than [T] milliseconds later on the cache as the [set] left
    it, no other operation having come in between, returns [v]; the entries
    of the cache are the same after the [get] as before, so [k] is still
    bound. *)
Theorem stale_get_returns_value (fc : FallbackCache.t V) (k : string) (v : V) (T : Q)
    (now now' : Z) :
  LRUCache.allowStale (cache fc) = true ->
  LRUCache.noDeleteOnStaleGet (cache fc) = true ->
  validKey k = true ->
  (MIN_TTL_MS <= T)%Q -> (T <= MAX_TTL_MS)%Q ->
  (T < inject_Z (now' - now))%Q ->
  exists fc1 fc2,
    set k v (Some (Num T)) now fc = Ok fc1 /\
    get k now' fc1 = Ok (Some v, fc2) /\
    LRUCache.items (cache fc2) = LRUCache.items (cache fc1) /\
    LRUCache.find k (LRUCache.items (cache fc2)) =
      Some {| LRUCache.e_key := k;
              LRUCache.e_value := {| data := v; timestamp := now |};
              LRUCache.e_ttl := Qfloor T; LRUCache.e_start := now |}.
Proof.
  intros Hstale Hkeep Hkey Hlo Hhi Hlate.
  assert (Hfloor : 10 <= Qfloor T).
  { change 10 with (Qfloor (inject_Z 10)) at 1. by apply Qfloor_resp_le. }
  assert (Hexp : Qfloor T < now' - now).
  { rewrite Zlt_Qlt. eapply Qle_lt_trans; [apply Qfloor_le | done]. }
  assert (Hs : LRUCache.isStale now'
                 {| LRUCache.e_key := k;
                    LRUCache.e_value := {| data := v; timestamp := now |};
                    LRUCache.e_ttl := Qfloor T; LRUCache.e_start := now |} = true).
  { unfold LRUCache.isStale. simpl.
    rewrite (proj2 (Z.ltb_lt _ _) Hexp).
    destruct (Z.eqb_spec (Qfloor T) 0); [lia | done]. }
  exists (with_cache fc
            (LRUCache.set k {| data := v; timestamp := now |} (Qfloor T) now (cache fc))).
  unfold set, get. rewrite Hkey. simpl.
  rewrite (outOfRange_false _ _ _ Hlo Hhi).
  unfold LRUCache.get. rewrite LRUCache_find_set, Hs.
  destruct (LRUCache_flags_set k {| data := v; timestamp := now |} (Qfloor T) now (cache fc))
    as [-> ->].
  rewrite Hstale, Hkeep. simpl.
  destruct (Number.lt (defaultTtlMs fc) (Number.of_Z (now' - now))); eexists;
    (split; [reflexivity | split; [reflexivity | split; [reflexivity|]]]);
    simpl; apply LRUCache_find_set.
Qed.

End CacheFacts.

(** ** Connection manager *)

Section ManagerFacts.
Import ConnectionManager.

(** Scheduling leaves the state, the handle and the shutdown flag alone. *)
Lemma scheduleReconnect_frame rnd s :
  state (scheduleReconnect rnd s) = state s /\
  client (scheduleReconnect rnd s) = client s /\
  isShuttingDown (scheduleReconnect rnd s) = isShuttingDown s /\
  connectPromise (scheduleReconnect rnd s) = connectPromise s /\
  emitted (scheduleReconnect rnd s) = emitted s.
Proof.
  unfold scheduleReconnect.
  destruct (isShuttingDown s || bool_decide (is_Some (reconnectTimer s))); [done|].
  destruct (attemptsExhausted s); done.
Qed.


Lemma isConnected_iff s :
  isConnected s = true <-> state s = CONNECTED /\ is_Some (client s).
Proof.
  unfold isConnected. rewrite andb_true_iff, bool_decide_eq_true.
  destruct (state s); simpl; intuition congruence.
Qed.

Lemma handleConnectionFailure_frame now rnd e s :
  state (handleConnectionFailure now rnd e s) = DISCONNECTED /\
  client (handleConnectionFailure now rnd e s) = client s /\
  isShuttingDown (handleConnectionFailure now rnd e s) = isShuttingDown s /\
  connectPromise (handleConnectionFailure now rnd e s) = connectPromise s.
Proof.
  unfold handleConnectionFailure. simpl.
  destruct (errorListener s); [|done].
  match goal with |- context [scheduleReconnect rnd ?x] =>
    destruct (scheduleReconnect_frame rnd x) as (-> & -> & -> & -> & _) end.
  done.
Qed.

Lemma handleConnectionSuccess_frame now s :
  state (handleConnectionSuccess now s) = CONNECTED /\
  client (handleConnectionSuccess now s) = client s /\
  isShuttingDown (handleConnectionSuccess now s) = isShuttingDown s /\
  connectPromise (handleConnectionSuccess now s) = connectPromise s.
Proof.
  unfold handleConnectionSuccess, monitorConnection. cbn.
  destruct (client s) eqn:Hcl; cbn; by rewrite ?Hcl.
Qed.

(** Whatever the state, also with a connect pending, [ensureConnected]
    resolves to a boolean. *)
Lemma ensureConnected_never_throws now rnd f r s :
  exists s' (b : bool), ensureConnected now rnd f r s = (s', Ok b).
Proof.
  unfold ensureConnected, ensureConnected_resume.
  destruct (isConnected s); [eauto|]. destruct (connectPromise s).
  - destruct (connect_finish now rnd r s) as [s1 [|]]; eauto.
  - destruct (connect_start now rnd f s) as [e s1|h s1]; [eauto|].
    destruct (connect_finish now rnd r (set_connectPromise true s1)) as [s2 [|]]; eauto.
Qed.

(** [ensureConnected] run to completion, with nothing interleaved during
    its [await]: it never throws, whatever the factory and [waitForReady] do
    and whether or not the manager is shutting down.  Started from a state in
    which no connect is pending, the boolean is [true] exactly when the state
    it leaves is [CONNECTED] with a handle, and [connectPromise] is empty
    afterwards. *)
Lemma ensureConnected_total (now : Z) (rnd : Q) (f : FactoryOutcome) (r : ReadyOutcome)
    (s : t) :
  (exists s' (b : bool), ensureConnected now rnd f r s = (s', Ok b)) /\
  (connectPromise s = false ->
   exists s' b,
     ensureConnected now rnd f r s = (s', Ok b) /\
     (b = true <-> state s' = CONNECTED /\ is_Some (client s')) /\
     connectPromise s' = false).
Proof.
  split; [apply ensureConnected_never_throws|].
  intros Hp. unfold ensureConnected.
  destruct (isConnected s) eqn:Hc.
  { exists s, true. by rewrite <- isConnected_iff. }
  rewrite Hp. unfold connect_start.
  destruct (isShuttingDown s) eqn:Hsd.
  { simpl. eexists _, false. split; [reflexivity|]. split; [|done].
    split; [done|]. simpl. intros Hcon. apply isConnected_iff in Hcon. congruence. }
  destruct f as [e|h].
  - simpl.
    match goal with |- context [handleConnectionFailure now rnd e ?x] =>
      destruct (handleConnectionFailure_frame now rnd e x) as (Hst & _) end.
    eexists _, false. split; [reflexivity|]. split; [|done].
    split; [done|]. simpl. rewrite Hst. by intros [? _].
  - destruct r as [|e].
    + set (s1 := set_connectPromise true _).
      destruct (handleConnectionSuccess_frame now s1) as (Hst & Hcl & _).
      unfold connect_finish, ensureConnected_resume.
      rewrite Hst. cbn [ConnectionState_eqb].
      eexists _, true. split; [reflexivity|]. split; [|reflexivity].
      split; [|reflexivity]. intros _.
      change (state (handleConnectionSuccess now s1) = CONNECTED /\
              is_Some (client (handleConnectionSuccess now s1))).
      rewrite Hst, Hcl. split; [reflexivity|]. subst s1. cbn. eauto.
    + set (s1 := set_connectPromise true _).
      destruct (handleConnectionFailure_frame now rnd e s1) as (Hst & _).
      unfold connect_finish, ensureConnected_resume.
      eexists _, false. split; [reflexivity|]. split; [|reflexivity].
      split; [intros; discriminate|].
      change (state (handleConnectionFailure now rnd e s1) = CONNECTED /\
              is_Some (client (handleConnectionFailure now rnd e s1)) -> false = true).
      rewrite Hst. by intros [? _].
Qed.

End ManagerFacts.

(** ** Interleavings of the connection manager *)

Section LtsFacts.
Import ConnectionManager ConnectionLts.

Lemma handleConnectionLost_cases rnd s :
  (state s <> CONNECTED /\ handleConnectionLost rnd s = s) \/
  (state s = CONNECTED /\ state (handleConnectionLost rnd s) = DISCONNECTED /\
   client (handleConnectionLost rnd s) = None).
Proof.
  unfold handleConnectionLost. destruct (state s) eqn:Hst; simpl; try (left; done).
  right. split; [done|].
  match goal with |- context [scheduleReconnect rnd ?x] =>
    destruct (scheduleReconnect_frame rnd x) as (-> & -> & _) end.
  destruct (client s) eqn:Hcl; unfold close_client; cbn; rewrite ?Hcl; done.
Qed.

Lemma checkState_cases ch rnd s :
  (state (checkState ch rnd s) = state s /\ client (checkState ch rnd s) = client s) \/
  (state s = CONNECTED /\ state (checkState ch rnd s) = DISCONNECTED /\
   client (checkState ch rnd s) = None).
Proof.
  unfold checkState.
  destruct (isShuttingDown s || negb (bool_decide (is_Some (client s)))); [by left|].
  destruct ch; try (by left);
    (destruct (handleConnectionLost_cases rnd (set_monitorTimer None s))
       as [[_ ->]|(? & ? & ?)]; [by left | by right]).
Qed.

Lemma close_frame s :
  state (close s) = DISCONNECTED /\ client (close s) = None /\
  isShuttingDown (close s) = true /\ reconnectTimer (close s) = None /\
  connectPromise (close s) = connectPromise s.
Proof.
  unfold close, stopReconnectTimer, stopMonitorTimer, close_client.
  destruct (reconnectTimer s) eqn:Hr, (monitorTimer s) eqn:Hm, (client s) eqn:Hc;
    do 4 (cbn; rewrite ?Hc, ?Hr, ?Hm); done.
Qed.

Lemma connect_start_inv now rnd f s :
  match connect_start now rnd f s with
  | Rejected _ s1 =>
      (s1 = s /\ isShuttingDown s = true) \/
      (state s1 = DISCONNECTED /\ client s1 = client s)
  | Pending h s1 => client s1 = Some h /\ state s1 <> CONNECTED
  end.
Proof.
  unfold connect_start. destruct (isShuttingDown s); [by left|].
  destruct f as [e|h].
  - right.
    match goal with |- context [handleConnectionFailure now rnd e ?x] =>
      destruct (handleConnectionFailure_frame now rnd e x) as (-> & -> & _) end.
    done.
  - cbn. split; [done|]. by destruct (reconnectAttempts s).
Qed.

Lemma connect_finish_inv now rnd r s :
  (state (connect_finish now rnd r s).1 = CONNECTED \/
   state (connect_finish now rnd r s).1 = DISCONNECTED) /\
  client (connect_finish now rnd r s).1 = client s.
Proof.
  destruct r as [|e]; simpl.
  - destruct (handleConnectionSuccess_frame now s) as (-> & -> & _). auto.
  - destruct (handleConnectionFailure_frame now rnd e s) as (-> & -> & _). auto.
Qed.

Lemma step_handle_inv a c c' o :
  handle_inv c -> step a c = Some (c', o) -> serial a c c' -> handle_inv c'.
Proof.
  intros (Hconn & Hfl & Hone) Hstep [Hlen Hclose].
  cut ((state (mgr c') = CONNECTED -> is_Some (client (mgr c'))) /\
       (inflight c' <> [] -> is_Some (client (mgr c')) /\ state (mgr c') <> CONNECTED)).
  { intros [? ?]. unfold handle_inv. auto. }
  clear Hlen. destruct a; simpl in Hstep.
  - (* ensureConnected *)
    destruct (isConnected (mgr c)); [by simplify_eq|].
    destruct (connectPromise (mgr c)); [by simplify_eq|].
    pose proof (connect_start_inv now rnd f (mgr c)) as Hcs.
    destruct (connect_start now rnd f (mgr c)) as [e s1|h s1]; simplify_eq; cbn.
    + destruct Hcs as [[-> _]|[Hst Hcl]]; [done|].
      rewrite Hst, Hcl. split; [done|]. intros Hne. split; [|done]. by apply Hfl.
    + destruct Hcs as [-> Hst]. split; [eauto|]. intros _. eauto.
  - (* a pending connect settles *)
    destruct (inflight c !! i) as [att|] eqn:Hi; [|done].
    assert (Hne : inflight c <> []) by (intros Hnil; by rewrite Hnil in Hi).
    destruct (Hfl Hne) as [Hcl _].
    destruct (connect_finish_inv now rnd r (mgr c)) as [Hst Hcl'].
    destruct (connect_finish now rnd r (mgr c)) as [s1 settled]. simpl in *.
    assert (Hdel : delete i (inflight c) = []).
    { destruct (inflight c) as [|a1 [|a2 l]]; [done| |simpl in Hone; lia].
      destruct i; [done|]. by destruct i. }
    unfold ensureConnected_resume in Hstep.
    destruct (a_owned att), settled; simplify_eq; cbn; rewrite Hdel, Hcl';
      (split; [done|by intros []]).
  - (* the reconnect timer fires *)
    destruct (reconnectTimer (mgr c)); [|done]. unfold reconnectTimerFired in Hstep.
    pose proof (connect_start_inv now rnd f (set_reconnectTimer None (mgr c))) as Hcs.
    destruct (connect_start now rnd f (set_reconnectTimer None (mgr c))) as [e s1|h s1];
      simplify_eq; cbn.
    + destruct Hcs as [[-> _]|[Hst Hcl]]; [done|].
      rewrite Hst, Hcl. split; [done|]. intros Hne. split; [|done]. by apply Hfl.
    + destruct Hcs as [-> Hst]. split; [eauto|]. intros _. eauto.
  - (* a monitor probe *)
    simplify_eq; cbn.
    destruct (checkState_cases ch rnd (mgr c)) as [[-> ->]|(Hc & -> & ->)]; [done|].
    split; [done|]. intros Hne. by destruct (Hfl Hne).
  - (* connection lost *)
    simplify_eq; cbn.
    destruct (handleConnectionLost_cases rnd (mgr c)) as [[_ ->]|(Hc & -> & ->)]; [done|].
    split; [done|]. intros Hne. by destruct (Hfl Hne).
  - (* a listener is attached *)
    by simplify_eq.
  - (* close *)
    simplify_eq; cbn [mgr inflight]. destruct (close_frame (mgr c)) as (-> & _).
    rewrite (Hclose eq_refl). done.
Qed.

(** C3, amended.  In every configuration reachable by an interleaving in
    which connect attempts do not overlap (at most one in flight, [close()]
    not called while one is), [state = CONNECTED] implies that the manager
    holds a transport handle. *)
Theorem connected_has_handle cfg c :
  serial_reachable cfg c ->
  state (mgr c) = CONNECTED -> is_Some (client (mgr c)).
Proof.
  intros Hreach. cut (handle_inv c); [by intros (H & _)|].
  induction Hreach as [|a c c' o _ IH Hstep Hser].
  - split; [done|]. split; [done | simpl; lia].
  - by eapply step_handle_inv.
Qed.
End LtsFacts.

(** ** After [close()] *)

Section CloseFacts.
Import ConnectionManager ConnectionLts.

(** C4.  The code at the schedule [Scenario.closeDuringConnect]: a connect
    attempt that was pending when [close()] was called completes
    successfully afterwards.  Its handle (2) is not among the closed ones;
    the manager ends in state [CONNECTED] although it is shutting down, and
    the [ensureConnected()] issued after [close()] resolves to [true]. *)
Theorem close_does_not_stop_pending_connect :
  exists c obs,
    run Scenario.closeDuringConnect (initial Scenario.connCfg) = Some (c, obs) /\
    isShuttingDown (mgr c) = true /\
    state (mgr c) = CONNECTED /\
    client (mgr c) = None /\
    closedHandles (mgr c) = [3%nat] /\
    obs !! 5%nat = Some ObsNone /\
    obs !! 6%nat = Some ObsAwaiting /\
    obs !! 7%nat = Some (ObsDelivered (Ok true)).
Proof.
  do 2 eexists. split; [vm_compute; reflexivity|]. vm_compute. repeat split.
Qed.

(** What [close()] does guarantee: when no connect attempt is in flight,
    the manager stays [DISCONNECTED] under every later step, every later
    [ensureConnected()] resolves to [false] at once, and no ['connecting']
    event is emitted. *)
Lemma close_makes_quiet c :
  inflight c = [] -> connectPromise (mgr c) = false ->
  closed_quiet {| mgr := close (mgr c); inflight := inflight c |}.
Proof.
  intros Hfl Hp. destruct (close_frame (mgr c)) as (Hst & Hcl & Hsd & Ht & Hcp).
  unfold closed_quiet. cbn [mgr inflight]. rewrite Hst, Hcl, Hsd, Ht, Hcp. auto 10.
Qed.

Lemma close_emitted s : emitted (close s) = (emitted s ++ [EvDisconnected])%list.
Proof.
  unfold close, stopReconnectTimer, stopMonitorTimer, close_client.
  destruct (reconnectTimer s) eqn:Hr, (monitorTimer s) eqn:Hm, (client s) eqn:Hc;
    do 4 (cbn; rewrite ?Hc, ?Hr, ?Hm); done.
Qed.

Lemma closed_quiet_step a c c' o :
  closed_quiet c -> step a c = Some (c', o) ->
  closed_quiet c' /\ (o = ObsNone \/ o = ObsReturned (Ok false)) /\
  connecting_count (mgr c') = connecting_count (mgr c).
Proof.
  intros (Hsd & Hst & Hcl & Hp & Ht & Hfl) Hstep. unfold closed_quiet.
  destruct a; simpl in Hstep.
  - unfold isConnected, connect_start, ensureConnected_resume in Hstep.
    rewrite Hst, Hp, Hsd in Hstep. simpl in Hstep. simplify_eq. cbn.
    rewrite Hsd, Hst, Hcl, Ht. auto 10.
  - rewrite Hfl in Hstep. done.
  - rewrite Ht in Hstep. done.
  - unfold checkState in Hstep. rewrite Hsd in Hstep. simpl in Hstep. simplify_eq. cbn.
    rewrite Hsd, Hst, Hcl, Ht, Hp. auto 10.
  - unfold handleConnectionLost in Hstep. rewrite Hst in Hstep. simpl in Hstep.
    simplify_eq. auto 10.
  - simplify_eq. cbn. rewrite Hsd, Hst, Hcl, Ht, Hp. auto 10.
  - simplify_eq. cbn [mgr inflight].
    destruct (close_frame (mgr c)) as (-> & -> & -> & -> & ->).
    split; [auto 10|]. split; [auto|].
    unfold connecting_count. rewrite close_emitted.
    rewrite List.filter_app, length_app. simpl. lia.
Qed.

Lemma closed_quiet_run acts c c' obs :
  closed_quiet c -> run acts c = Some (c', obs) ->
  state (mgr c') = DISCONNECTED /\
  Forall (fun o => o = ObsNone \/ o = ObsReturned (Ok false)) obs /\
  connecting_count (mgr c') = connecting_count (mgr c).
Proof.
  revert c obs. induction acts as [|a acts IH]; intros c obs Hq Hrun; simpl in Hrun.
  - simplify_eq. destruct Hq as (_ & Hst & _). auto.
  - destruct (step a c) as [[c1 o]|] eqn:Hstep; [|done].
    destruct (run acts c1) as [[c2 os]|] eqn:Hrest; [|done]. simplify_eq.
    destruct (closed_quiet_step a c c1 o Hq Hstep) as (Hq1 & Ho & Hcount).
    destruct (IH c1 os Hq1 Hrest) as (Hst & Hos & Hcount').
    split; [done|]. split; [by constructor | congruence].
Qed.

End CloseFacts.

(** ** Error classification *)

Section ClassifierFacts.
Import CallExecutor Client.

Lemma uncoded_not_retryable (e : JsError) :
  (forall c, code e = Some c -> ~ In c retryableCodes) ->
  isRetryableError e = false /\ isConnectionError e = false.
Proof.
  unfold isRetryableError, isConnectionError. intros Hcode.
  destruct (code e) as [c|]; [|done].
  specialize (Hcode c eq_refl). simpl in Hcode.
  unfold UNAVAILABLE, DEADLINE_EXCEEDED, RESOURCE_EXHAUSTED, ABORTED in *.
  assert (H14 : (c =? 14) = false) by (apply Z.eqb_neq; intros ->; tauto).
  assert (H4 : (c =? 4) = false) by (apply Z.eqb_neq; intros ->; tauto).
  assert (H8 : (c =? 8) = false) by (apply Z.eqb_neq; intros ->; tauto).
  assert (H10 : (c =? 10) = false) by (apply Z.eqb_neq; intros ->; tauto).
  unfold retryableCodes, UNAVAILABLE, DEADLINE_EXCEEDED, RESOURCE_EXHAUSTED, ABORTED. simpl.
  by rewrite H14, H4, H8, H10.
Qed.

Lemma handleRetryAttempt_not_retryable {R} (env : AttemptEnv R) attempt e maxAttempts
    (c : Client.t R) :
  isRetryableError e = false ->
  exists c', handleRetryAttempt env attempt e maxAttempts c = (c', false)
    /\ slept c' = slept c
    /\ connectionManager c' = connectionManager c.
Proof.
  intros He. unfold handleRetryAttempt. rewrite He. simpl.
  destruct (0 <? attempt)%nat; simpl; eexists; (split; [reflexivity|done]).
Qed.

Lemma get_throws_uncoded {V} key now (fc : FallbackCache.t V) e :
  FallbackCache.get key now fc = Throw e -> code e = None.
Proof.
  unfold FallbackCache.get. destruct (negb (FallbackCache.validKey key)).
  - intros H. by simplify_eq.
  - destruct (LRUCache.get key now (FallbackCache.cache fc)) as [[entry|] c]; done.
Qed.

Lemma set_throws_uncoded {V} key (v : V) ttl now (fc : FallbackCache.t V) e :
  FallbackCache.set key v ttl now fc = Throw e -> code e = None.
Proof.
  unfold FallbackCache.set. destruct (negb (FallbackCache.validKey key)).
  - intros H. by simplify_eq.
  - destruct ttl as [x|]; [|done].
    destruct (FallbackCache.outOfRange x _ _); [|done]. intros H. by simplify_eq.
Qed.

(** Only the transport produces errors that carry a code. *)
Lemma executeCallAttempt_throws {R} (env : AttemptEnv R) methodName key useCache
    (c c1 : Client.t R) e :
  executeCallAttempt env methodName key useCache c = (c1, Throw e) ->
  code e = None \/ exists se, env_invoke env = InvokeError se /\ e = mapGrpcError se.
Proof.
  unfold executeCallAttempt.
  destruct (ConnectionManager.ensureConnected _ _ _ _ _) as [cm [[|]|e0]] eqn:Hec.
  - destruct (ConnectionManager.client cm); [|intros H; simplify_eq; by left].
    destruct (env_invoke env) as [|se|resp]; simpl.
    + intros H. simplify_eq. by left.
    + intros H. simplify_eq. right. eauto.
    + destruct useCache; [|done].
      destruct (FallbackCache.set _ _ _ _ _) eqn:Hset; [done|].
      intros H. simplify_eq. left. eapply set_throws_uncoded, Hset.
  - unfold handleServiceUnavailable. destruct useCache; [|intros H; simplify_eq; by left].
    destruct (FallbackCache.get _ _ _) as [[[cached|] fc]|e1] eqn:Hget.
    + done.
    + intros H. simplify_eq. by left.
    + intros H. simplify_eq. left. eapply get_throws_uncoded, Hget.
  - destruct (ensureConnected_never_throws (env_now env) (env_rnd env)
                (env_factory env) (env_ready env) (connectionManager c)) as (s' & b & Hb).
    congruence.
Qed.

(** C10.  An error that carries no code among the retryable gRPC status
    codes is classified as neither retryable nor a connection error.  When an
    attempt of the retry loop throws such an error, the loop ends on that
    attempt with that error as the last error, no backoff sleep is recorded
    and the connection manager is left as the attempt left it.  The errors
    raised locally by an attempt, among them "is not available" and "client
    not connected", carry no code at all: a thrown error either has none or
    is the mapped error of the transport. *)
Theorem uncoded_errors_end_the_loop {R} (envs : nat -> AttemptEnv R)
    (methodName key : string) (useCache : bool) (maxAttempts remaining attempt : nat)
    (lastError : option JsError) (c c1 : Client.t R) (e : JsError) :
  (forall k, code e = Some k -> ~ In k retryableCodes) ->
  executeCallAttempt (envs attempt) methodName key useCache c = (c1, Throw e) ->
  isRetryableError e = false /\ isConnectionError e = false
  /\ (exists c2,
        call_loop envs methodName key useCache maxAttempts (S remaining) attempt lastError c
        = (c2, Exited (Some e))
        /\ slept c2 = slept c1
        /\ connectionManager c2 = connectionManager c1)
  /\ (code e = None \/
      exists se, env_invoke (envs attempt) = InvokeError se /\ e = mapGrpcError se)
  /\ code (newError (serviceName (config c) +:+ " is not available")) = None
  /\ code (newError (serviceName (config c) +:+ " client not connected")) = None.
Proof.
  intros Hcode Hexec.
  destruct (uncoded_not_retryable e Hcode) as [Hr Hc].
  split; [done|]. split; [done|]. split; [|split; [|done]].
  - destruct (handleRetryAttempt_not_retryable (envs attempt) attempt e maxAttempts c1 Hr)
      as (c2 & Hh & Hs & Hm).
    exists c2. simpl. rewrite Hexec, Hh. done.
  - by eapply executeCallAttempt_throws.
Qed.

End ClassifierFacts.

(** ** Call accounting *)

Section CallFacts.
Import Client.

(** A retry is recorded only by the failure handler of an attempt after the
    first: the counter moves when [attempt > 0], and not otherwise. *)
Lemma handleRetryAttempt_retries {R} (env : AttemptEnv R) attempt e maxAttempts
    (c : Client.t R) :
  MetricsTracker.totalRetries (metricsTracker (handleRetryAttempt env attempt e maxAttempts c).1)
  = (MetricsTracker.totalRetries (metricsTracker c) + if (0 <? attempt)%nat then 1 else 0)%nat.
Proof.
  unfold handleRetryAttempt.
  destruct (0 <? attempt)%nat, (negb (CallExecutor.isRetryableError e) || _),
    (CallExecutor.isConnectionError e); cbn; lia.
Qed.

Lemma handleServiceUnavailable_frame {R} key useCache now (c c1 : Client.t R) r :
  handleServiceUnavailable key useCache now c = (c1, r) ->
  slept c1 = slept c /\
  MetricsTracker.totalRetries (metricsTracker c1) = MetricsTracker.totalRetries (metricsTracker c) /\
  MetricsTracker.successfulCalls (metricsTracker c1) = MetricsTracker.successfulCalls (metricsTracker c) /\
  MetricsTracker.failedCalls (metricsTracker c1) = MetricsTracker.failedCalls (metricsTracker c) /\
  MetricsTracker.totalCalls (metricsTracker c1) = MetricsTracker.totalCalls (metricsTracker c).
Proof.
  unfold handleServiceUnavailable. destruct useCache; [|intros H; by simplify_eq].
  destruct (FallbackCache.get key now (fallbackCache c)) as [[[cached|] fc]|e];
    intros H; by simplify_eq.
Qed.

Lemma executeCallAttempt_frame {R} (env : AttemptEnv R) methodName key useCache
    (c c1 : Client.t R) r :
  executeCallAttempt env methodName key useCache c = (c1, r) ->
  slept c1 = slept c /\
  MetricsTracker.totalRetries (metricsTracker c1) = MetricsTracker.totalRetries (metricsTracker c).
Proof.
  unfold executeCallAttempt.
  destruct (ConnectionManager.ensureConnected _ _ _ _ _) as [cm [[|]|e0]].
  - destruct (ConnectionManager.client cm); [|intros H; by simplify_eq].
    destruct (CallExecutor.executeGrpcCall _ _ _); [|intros H; by simplify_eq].
    destruct useCache; [|intros H; by simplify_eq].
    destruct (FallbackCache.set _ _ _ _ _); intros H; by simplify_eq.
  - intros H. apply handleServiceUnavailable_frame in H as (? & ? & _). done.
  - intros H; by simplify_eq.
Qed.

Lemma handleRetryAttempt_slept {R} (env : AttemptEnv R) attempt e maxAttempts (c : Client.t R) :
  length (slept (handleRetryAttempt env attempt e maxAttempts c).1) =
  (length (slept c) + if (handleRetryAttempt env attempt e maxAttempts c).2 then 1 else 0)%nat.
Proof.
  unfold handleRetryAttempt.
  destruct (0 <? attempt)%nat, (negb (CallExecutor.isRetryableError e) || _),
    (CallExecutor.isConnectionError e); cbn; rewrite ?length_app; simpl; lia.
Qed.

(** The retries a call performs are the backoff sleeps it takes.  When the
    loop returns a response, the retries it recorded are the ones it
    performed, minus the first if the loop was entered at attempt 0. *)
Lemma call_loop_retries {R} (envs : nat -> AttemptEnv R) methodName key useCache maxAttempts
    remaining attempt lastError (c c' : Client.t R) response :
  call_loop envs methodName key useCache maxAttempts remaining attempt lastError c
    = (c', Returned response) ->
  let performed := (length (slept c') - length (slept c))%nat in
  (length (slept c) <= length (slept c'))%nat /\
  MetricsTracker.totalRetries (metricsTracker c') =
    (MetricsTracker.totalRetries (metricsTracker c) +
     if (0 <? attempt)%nat then performed else performed - 1)%nat.
Proof.
  revert attempt lastError c.
  induction remaining as [|remaining IH]; intros attempt lastError c; simpl; [done|].
  destruct (executeCallAttempt (envs attempt) methodName key useCache c) as [c1 [resp|e]] eqn:Hexec.
  - intros H. simplify_eq. apply executeCallAttempt_frame in Hexec as [-> ->].
    rewrite Nat.sub_diag. destruct (0 <? attempt)%nat; simpl; lia.
  - apply executeCallAttempt_frame in Hexec as [Hs Hr].
    pose proof (handleRetryAttempt_slept (envs attempt) attempt e maxAttempts c1) as Hlen.
    pose proof (handleRetryAttempt_retries (envs attempt) attempt e maxAttempts c1) as Hret.
    destruct (handleRetryAttempt (envs attempt) attempt e maxAttempts c1) as [c2 [|]];
      simpl in *; [|done].
    intros Hloop. apply IH in Hloop as [Hle Hloop]. simpl in Hloop.
    rewrite Hs in Hlen. rewrite Hr in Hret.
    split; [lia|]. rewrite Hloop, Hret.
    destruct (0 <? attempt)%nat; lia.
Qed.

(** A call that finds the service unavailable on its first attempt and the
    key in the cache returns the cached value having counted the call but
    neither a success nor a failure. *)
Lemma unavailable_cache_hit_uncounted {R} JSON_stringify (envs : nat -> AttemptEnv R) finalNow
    methodName request options (c : Client.t R) cm key cached fc :
  enableFallbackCache (config c) = true -> skipCache options = false ->
  effectiveCacheKeyOf JSON_stringify options methodName request = Ok key ->
  ConnectionManager.ensureConnected (env_now (envs 0%nat)) (env_rnd (envs 0%nat))
    (env_factory (envs 0%nat)) (env_ready (envs 0%nat)) (connectionManager c) = (cm, Ok false) ->
  FallbackCache.get key (env_now (envs 0%nat)) (fallbackCache c) = Ok (Some cached, fc) ->
  exists c',
    call JSON_stringify envs finalNow methodName request options c = (c', Ok cached) /\
    MetricsTracker.totalCalls (metricsTracker c') = S (MetricsTracker.totalCalls (metricsTracker c)) /\
    MetricsTracker.successfulCalls (metricsTracker c') = MetricsTracker.successfulCalls (metricsTracker c) /\
    MetricsTracker.failedCalls (metricsTracker c') = MetricsTracker.failedCalls (metricsTracker c).
Proof.
  intros Hon Hskip Hkey Hec Hget. unfold call. rewrite Hkey, Hon, Hskip. simpl.
  assert (Hmax : exists n, (if skipRetry options then 1 else retryCount (config c) + 1)%nat = S n).
  { destruct (skipRetry options); [by exists 0%nat|]. exists (retryCount (config c)). lia. }
  destruct Hmax as [n ->]. simpl.
  unfold executeCallAttempt. cbn [connectionManager set_metrics]. rewrite Hec.
  unfold handleServiceUnavailable. cbn [fallbackCache set_manager set_metrics]. rewrite Hget.
  eexists. split; [reflexivity|]. cbn. auto.
Qed.
(** C2.  The code at the scenario of the claim: [retryCount = 3], the
    transport answers [UNAVAILABLE] on the first two attempts and succeeds
    on the third.  The call returns the payload and the counters read
    [totalCalls = 1], [successfulCalls = 1], [failedCalls = 0], but
    [totalRetries = 1], not 2. *)
Theorem retry_then_succeed_counts_one_retry :
  exists c c' : Client.t string,
    Scenario.fresh 3 false = Some c /\
    call (fun _ => Ok "") Scenario.twoFailures 0 "Get"
      (Utils.JObject [("id", Utils.JNumber 1)]) noOptions c = (c', Ok "payload") /\
    slept c' = [1000; 2000] /\
    MetricsTracker.m_totalCalls (getMetrics c').1 = 1%nat /\
    MetricsTracker.m_successfulCalls (getMetrics c').1 = 1%nat /\
    MetricsTracker.m_failedCalls (getMetrics c').1 = 0%nat /\
    MetricsTracker.m_totalRetries (getMetrics c').1 = 1%nat.
Proof.
  do 2 eexists. split; [vm_compute; reflexivity|].
  split; [vm_compute; reflexivity|]. vm_compute. repeat split.
Qed.

(** C1.  The code at a sequence of two completed calls with the fallback
    cache enabled: the first succeeds and is cached; during the second the
    server goes away, [ensureConnected] yields [false] and the cached value
    is returned.  Afterwards [totalCalls = 2] while
    [successfulCalls + failedCalls = 1]. *)
Theorem cached_unavailable_call_is_not_counted :
  exists c c' : Client.t string,
    Scenario.fresh 3 true = Some c /\
    calls (fun _ => Ok "")
      [Scenario.invocation (Scenario.healthy 5); Scenario.invocation Scenario.outage] c
      = (c', [Ok "payload"; Ok "payload"]) /\
    MetricsTracker.m_totalCalls (getMetrics c').1 = 2%nat /\
    MetricsTracker.m_successfulCalls (getMetrics c').1 = 1%nat /\
    MetricsTracker.m_failedCalls (getMetrics c').1 = 0%nat /\
    MetricsTracker.m_cacheHits (getMetrics c').1 = 1%nat.
Proof.
  do 2 eexists. split; [vm_compute; reflexivity|].
  split; [vm_compute; reflexivity|]. vm_compute. repeat split.
Qed.

Lemma getHealth_latency_is_average {R} (c : Client.t R) :
  MetricsTracker.isDirty (metricsTracker c) = true ->
  h_latencyMs (getHealth c).1 = MetricsTracker.avgLatencyMs (metricsTracker c).
Proof.
  intros Hd. unfold getHealth, getMetrics, MetricsTracker.getMetrics. simpl.
  rewrite Hd. reflexivity.
Qed.

(** C7.  The code after two successful calls with latencies 100 ms and
    300 ms: [getHealth().latencyMs] is 200, the rounded average, while the
    latency of the most recent successful call is 300. *)
Theorem getHealth_latency_after_two_calls :
  exists c c' : Client.t string,
    Scenario.fresh 3 false = Some c /\
    calls (fun _ => Ok "")
      [Scenario.invocation (Scenario.healthy 100); Scenario.invocation (Scenario.healthy 300)] c
      = (c', [Ok "payload"; Ok "payload"]) /\
    h_latencyMs (getHealth c').1 = Number.of_Z 200 /\
    MetricsTracker.m_maxLatencyMs (h_metrics (getHealth c').1) = Number.of_Z 300.
Proof.
  do 2 eexists. split; [vm_compute; reflexivity|].
  split; [vm_compute; reflexivity|]. vm_compute. repeat split.
Qed.

Lemma uncoded_errors_end_the_loop_witness :
  exists (c c1 : Client.t string) (e : JsError),
    Scenario.fresh 3 false = Some c /\
    executeCallAttempt (Scenario.down 0 1%nat) "Get" "Get:id=1" false c = (c1, Throw e) /\
    message e = "Svc is not available" /\
    exists c2,
      call_loop (fun _ => Scenario.down 0 1%nat) "Get" "Get:id=1" false 4 4 0 None c
        = (c2, Exited (Some e)) /\
      slept c2 = slept c1 /\
      connectionManager c2 = connectionManager c1.
Proof.
  do 3 eexists. split; [vm_compute; reflexivity|].
  split; [vm_compute; reflexivity|]. split; [reflexivity|].
  refine (proj1 (proj2 (proj2
    (uncoded_errors_end_the_loop (fun _ => Scenario.down 0 1%nat) "Get" "Get:id=1" false
       4 3 0 None _ _ _ _ _)))).
  - intros k Hk. discriminate Hk.
  - vm_compute. reflexivity.
Defined.
End CallFacts.

(** ** Closed instances *)

Section Instances.
Import ConnectionManager ConnectionLts.

Lemma stale_get_returns_value_witness :
  exists fc fc1 fc2 : FallbackCache.t string,
    FallbackCache.create "Svc" (Num 100) (Num 60000) = Ok fc /\
    FallbackCache.set "Get:id=1" "payload" (Some (Num (21 # 2))) 0 fc = Ok fc1 /\
    FallbackCache.get "Get:id=1" 11 fc1 = Ok (Some "payload", fc2) /\
    LRUCache.items (FallbackCache.cache fc2) = LRUCache.items (FallbackCache.cache fc1).
Proof.
  eexists. 
  assert (Hc : FallbackCache.create (V:=string) "Svc" (Num 100) (Num 60000) = Ok _)
    by (vm_compute; reflexivity).
  match type of Hc with _ = Ok ?fc =>
    destruct (stale_get_returns_value fc "Get:id=1" "payload" (21 # 2) 0 11)
      as (fc1 & fc2 & Hset & Hget & Hitems & _)
  end; try reflexivity; try (intros H; discriminate H).
  exists fc1, fc2. split; [exact Hc|]. split; [exact Hset|]. split; [exact Hget | exact Hitems].
Defined.

(** C5, as stated, fails: excluding [delete(k)] and [clear()] between the
    write and the read is not enough.  A [cleanup()] after the TTL has passed
    purges the entry, and the read returns [null]. *)
Lemma stale_entry_purged :
  ~ (forall (fc fc1 : FallbackCache.t string) k v T now later ops,
       FallbackCache.built fc ->
       FallbackCache.validKey k = true ->
       (FallbackCache.MIN_TTL_MS <= T)%Q -> (T <= FallbackCache.MAX_TTL_MS)%Q ->
       FallbackCache.set k v (Some (Num T)) now fc = Ok fc1 ->
       Forall (fun o => FallbackCache.removes k o = false) ops ->
       (T < inject_Z (later - now))%Q ->
       exists fc2,
         FallbackCache.get k later (FallbackCache.run ops fc1) = Ok (Some v, fc2)).
Proof.
  intros Hclaim.
  eassert (Hc : FallbackCache.create (V:=string) "Svc" (Num 100) (Num 60000) = Ok _)
    by (vm_compute; reflexivity).
  match type of Hc with _ = Ok ?fc =>
    eassert (Hs : FallbackCache.set "Get:id=1" "payload" (Some (Num (10 # 1))) 0 fc = Ok _)
      by (vm_compute; reflexivity)
  end.
  match type of Hs with FallbackCache.set _ _ _ _ ?fc = Ok ?fc1 =>
    destruct (Hclaim fc fc1 "Get:id=1" "payload" (10 # 1)%Q 0 12 [FallbackCache.OpCleanup 11]
                (FallbackCache.built_create _ _ _ _ Hc) eq_refl) as [fc2 Hnone]
  end.
  - intros H. discriminate H.
  - intros H. discriminate H.
  - exact Hs.
  - by repeat constructor.
  - reflexivity.
  - vm_compute in Hnone. discriminate Hnone.
Qed.

(** The same happens without [cleanup()], by eviction: in a cache of
    capacity 1 a write under another key takes the entry away. *)
Example stale_entry_evicted :
  exists fc fc1 fc2 : FallbackCache.t string,
    FallbackCache.create "Svc" (Num 1) (Num 60000) = Ok fc /\
    FallbackCache.set "a" "1" (Some (Num (10 # 1))) 0 fc = Ok fc1 /\
    FallbackCache.get "a" 12 (FallbackCache.run [FallbackCache.OpSet "b" "2" None 5] fc1)
      = Ok (None, fc2).
Proof. vm_compute. eexists _, _, _. repeat split. Qed.


Lemma ensureConnected_total_witness :
  exists s' b,
    ensureConnected 0 (1 # 2) (FactoryReturns 1%nat) ReadyOk (create Scenario.connCfg)
      = (s', Ok b) /\
    (b = true <-> state s' = CONNECTED /\ is_Some (client s')) /\
    connectPromise s' = false.
Proof.
  apply (proj2 (ensureConnected_total 0 (1 # 2) (FactoryReturns 1%nat) ReadyOk
                  (create Scenario.connCfg))).
  reflexivity.
Defined.

(** C3, as stated, fails: while a connect is pending the manager holds a
    handle in state [CONNECTING], and after the attempt has failed it still
    holds the handle in state [DISCONNECTED]. *)
Lemma handle_without_connected :
  ~ (forall c, reachable Scenario.connCfg c ->
               (state (mgr c) = CONNECTED <-> is_Some (client (mgr c)))).
Proof.
  intros Hiff.
  assert (Hr : exists c, reachable Scenario.connCfg c /\
                         state (mgr c) = CONNECTING /\ client (mgr c) = Some 1%nat).
  { eexists. split.
    - eapply (reachable_step _ (ActEnsureConnected 0 (1 # 2) (FactoryReturns 1%nat))
                _ _ _ (reachable_initial _)).
      vm_compute. reflexivity.
    - split; reflexivity. }
  destruct Hr as (c & Hreach & Hst & Hcl).
  destruct (Hiff c Hreach) as [_ Hback].
  rewrite Hst, Hcl in Hback. discriminate Hback. by eexists.
Qed.

Lemma connected_has_handle_witness :
  exists c, serial_reachable Scenario.connCfg c /\
            state (mgr c) = CONNECTED /\ is_Some (client (mgr c)).
Proof.
  assert (Hr : exists c, serial_reachable Scenario.connCfg c /\ state (mgr c) = CONNECTED).
  { eexists. split.
    - eapply (serial_step _ (ActSettle 0 10 (1 # 2) ReadyOk)).
      + eapply (serial_step _ (ActEnsureConnected 0 (1 # 2) (FactoryReturns 1%nat))
                  _ _ _ (serial_initial _)).
        * vm_compute. reflexivity.
        * split; [simpl; lia | intros H; discriminate H].
      + vm_compute. reflexivity.
      + split; [simpl; lia | intros H; discriminate H].
    - reflexivity. }
  destruct Hr as (c & Hreach & Hst).
  exists c. split; [exact Hreach|]. split; [exact Hst|].
  exact (connected_has_handle Scenario.connCfg c Hreach Hst).
Defined.
End Instances.

(** ** Supporting facts *)

Section Supporting.
Import ConnectionManager ConnectionLts.

(** The constructor sets the two options the stale read depends on. *)
Lemma create_allows_stale {V : Type} service maxSize ttl (fc : FallbackCache.t V) :
  FallbackCache.create service maxSize ttl = Ok fc ->
  LRUCache.allowStale (FallbackCache.cache fc) = true /\
  LRUCache.noDeleteOnStaleGet (FallbackCache.cache fc) = true /\
  (1 <= LRUCache.max (FallbackCache.cache fc))%nat.
Proof.
  intros Hok. apply create_Ok_inv in Hok as (size & _ & Hlo & _ & _ & _ & ->).
  simpl. split; [done|]. split; [done|].
  assert (H1 : 1 <= Qfloor size).
  { change 1 with (Qfloor (inject_Z 1)) at 1. by apply Qfloor_resp_le. }
  lia.
Qed.

(** After a failed attempt the manager is [DISCONNECTED] and still holds the
    handle the factory returned. *)
Example handle_kept_after_failure :
  exists c obs,
    run [ActEnsureConnected 0 (1 # 2) (FactoryReturns 1%nat);
         ActSettle 0 5000 (1 # 2) (ReadyError Scenario.deadline)]
      (initial Scenario.connCfg) = Some (c, obs) /\
    state (mgr c) = DISCONNECTED /\ client (mgr c) = Some 1%nat.
Proof.
  do 2 eexists. split; [vm_compute; reflexivity|]. vm_compute. by split.
Qed.

(** The serial interleavings are interleavings. *)
Lemma serial_reachable_reachable cfg c : serial_reachable cfg c -> reachable cfg c.
Proof.
  induction 1 as [|a c c' o _ IH Hstep _]; [constructor|].
  by eapply reachable_step.
Qed.

(** In any configuration, what a step delivers to the callers of
    [ensureConnected] is a boolean, never an exception. *)
Lemma step_delivers_boolean a c c' o :
  step a c = Some (c', o) ->
  match o with
  | ObsReturned r | ObsDelivered r => exists b : bool, r = Ok b
  | ObsNone | ObsAwaiting => True
  end.
Proof.
  intros Hstep. destruct a; simpl in Hstep.
  - destruct (isConnected (mgr c)); [simplify_eq; eauto|].
    destruct (connectPromise (mgr c)); [by simplify_eq|].
    destruct (connect_start now rnd f (mgr c)); simpl in Hstep; simplify_eq; eauto.
  - destruct (inflight c !! i) as [att|]; [|done].
    destruct (connect_finish now rnd r (mgr c)) as [s1 settled].
    unfold ensureConnected_resume in Hstep.
    destruct (a_owned att), settled; simplify_eq; eauto.
  - destruct (reconnectTimer (mgr c)); [|done].
    destruct (reconnectTimerFired now rnd f (mgr c)); by simplify_eq.
  - by simplify_eq.
  - by simplify_eq.
  - by simplify_eq.
  - by simplify_eq.
Qed.

End Supporting.

(* ===================================================================== *)
(** * Further properties *)
(* ===================================================================== *)

(** ** Metrics tracker *)

Section MetricsFacts.
Import MetricsTracker.

(** While the tracker is clean, the stored snapshot is the current one. *)
Lemma snapshot_coherent_apply o m :
  (isDirty m = false -> cachedSnapshot m = Some (snapshot m)) ->
  isDirty (apply o m) = false -> cachedSnapshot (apply o m) = Some (snapshot (apply o m)).
Proof.
  intros Hm. destruct o; simpl; try discriminate.
  unfold getMetrics. destruct (isDirty m) eqn:Hd; simpl.
  - intros _. reflexivity.
  - rewrite (Hm eq_refl). simpl. intros _. by apply Hm.
Qed.

Lemma snapshot_coherent_after now ops :
  isDirty (after now ops) = false ->
  cachedSnapshot (after now ops) = Some (snapshot (after now ops)).
Proof.
  unfold after. induction ops as [|o ops IH] using rev_ind; simpl; [discriminate|].
  rewrite fold_left_app. simpl. by apply snapshot_coherent_apply.
Qed.

(** X1.  After any sequence of tracker operations (recordings, reads and
    resets in any order) [getMetrics] returns the snapshot of the counters as
    they are now, never an outdated stored one; a second read right after it
    returns the same snapshot and leaves the tracker as it is. *)
Theorem getMetrics_is_current now ops :
  let m := after now ops in
  (getMetrics m).1 = snapshot m /\
  (getMetrics (getMetrics m).2).1 = (getMetrics m).1 /\
  (getMetrics (getMetrics m).2).2 = (getMetrics m).2.
Proof.
  intros m. pose proof (snapshot_coherent_after now ops) as Hc. fold m in Hc.
  unfold getMetrics. destruct (isDirty m) eqn:Hd; simpl.
  - auto.
  - rewrite (Hc eq_refl). simpl. rewrite Hd, (Hc eq_refl). simpl. auto.
Qed.

Lemma round_div_bounds (sum n lo hi : Z) :
  0 < n -> n * lo <= sum -> sum <= n * hi -> lo <= round_div sum n <= hi.
Proof.
  intros Hn Hlo Hhi. unfold round_div. split.
  - apply Z.div_le_lower_bound; lia.
  - apply Z.lt_succ_r. apply Z.div_lt_upper_bound; lia.
Qed.

(** [Math.round] of a quotient of integers, in integer arithmetic. *)
Lemma round_div_Q (q : Q) (a b : Z) :
  (q == inject_Z a)%Q -> 0 < b ->
  Qfloor (q / inject_Z b + (1 # 2)) = round_div a b.
Proof.
  intros Hq Hb. rewrite Hq. destruct b as [|p|p]; try lia.
  unfold round_div.
  assert (He : (inject_Z a / inject_Z (Z.pos p) + (1 # 2) == (2 * a + Z.pos p) # (2 * p))%Q).
  { unfold Qeq, Qdiv, Qmult, Qinv, Qplus, inject_Z. cbn [Qnum Qden].
    rewrite !Pos2Z.inj_mul. lia. }
  rewrite He. unfold Qfloor. rewrite Pos2Z.inj_mul. reflexivity.
Qed.

Lemma is_int_of_Z z : is_int (Number.of_Z z) z.
Proof. exists (inject_Z z). split; [done|]. reflexivity. Qed.

Lemma is_int_lt x y a b :
  is_int x a -> is_int y b -> Number.lt x y = bool_decide (a < b).
Proof.
  intros (p & -> & Hp) (q & -> & Hq). unfold Number.lt.
  destruct (Qlt_le_dec p q) as [Hlt|Hle]; symmetry.
  - apply bool_decide_eq_true. rewrite Hp, Hq in Hlt. by rewrite Zlt_Qlt.
  - apply bool_decide_eq_false. rewrite Hp, Hq in Hle. rewrite <- Zle_Qle in Hle. lia.
Qed.

Lemma is_int_le x y a b :
  is_int x a -> is_int y b -> a <= b -> Number.le x y = true.
Proof.
  intros (p & -> & Hp) (q & -> & Hq) Hab. unfold Number.le.
  destruct (Qlt_le_dec q p) as [Hlt|Hle]; [|done].
  rewrite Hp, Hq in Hlt. rewrite <- Zlt_Qlt in Hlt. lia.
Qed.

Lemma recordSuccess_fields l m :
  successfulCalls (recordSuccess l m) = S (successfulCalls m) /\
  latencySum (recordSuccess l m) = Number.add (latencySum m) l /\
  minLatencyMs (recordSuccess l m) =
    (if Number.lt l (minLatencyMs m) then l else minLatencyMs m) /\
  maxLatencyMs (recordSuccess l m) =
    (if Number.lt (maxLatencyMs m) l then l else maxLatencyMs m) /\
  avgLatencyMs (recordSuccess l m) =
    Number.round (Number.div_count (Number.add (latencySum m) l) (S (successfulCalls m))).
Proof. done. Qed.

Lemma is_int_add x y a b : is_int x a -> is_int y b -> is_int (Number.add x y) (a + b).
Proof.
  intros (p & -> & Hp) (q & -> & Hq). exists (p + q)%Q. split; [done|].
  rewrite Hp, Hq, inject_Z_plus. reflexivity.
Qed.

Lemma round_mean x a n :
  is_int x a -> Number.round (Number.div_count x (S n)) = Number.of_Z (round_div a (Z.of_nat (S n))).
Proof.
  intros (p & -> & Hp). unfold Number.div_count, Number.round. f_equal.
  apply round_div_Q; [done | lia].
Qed.

Lemma latency_inv_recordSuccess z m :
  latency_inv m -> latency_inv (recordSuccess (Number.of_Z z) m).
Proof.
  intros Hinv. right. unfold latency_inv in Hinv.
  destruct (recordSuccess_fields (Number.of_Z z) m) as (Hn' & Hs' & Hlo' & Hhi' & Ha').
  rewrite Hn', Hs', Hlo', Hhi', Ha'. clear Hn' Hs' Hlo' Hhi' Ha'.
  destruct Hinv
    as [(Hn & Hmin & Hsum & Hmax & Havg)|(sum & lo & hi & Hn & Hsum & Hlo & Hhi & Hl & Hh & Havg)].
  - assert (His : is_int (latencySum m) 0) by (rewrite Hsum; apply (is_int_of_Z 0)).
    assert (Hih : is_int (maxLatencyMs m) 0) by (rewrite Hmax; apply (is_int_of_Z 0)).
    exists (0 + z), z, (Z.max 0 z). rewrite Hn, Hmin.
    split; [lia|]. split; [by apply is_int_add, is_int_of_Z|].
    split; [apply is_int_of_Z|]. split.
    { rewrite (is_int_lt _ _ 0 z Hih (is_int_of_Z z)).
      destruct (bool_decide_reflect (0 < z)).
      - rewrite Z.max_r by lia. apply is_int_of_Z.
      - rewrite Z.max_l by lia. done. }
    split; [lia|]. split; [lia|].
    apply round_mean. by apply is_int_add, is_int_of_Z.
  - exists (sum + z), (Z.min lo z), (Z.max hi z).
    split; [lia|]. split; [by apply is_int_add, is_int_of_Z|].
    split.
    { rewrite (is_int_lt _ _ z lo (is_int_of_Z z) Hlo).
      destruct (bool_decide_reflect (z < lo)).
      - rewrite Z.min_r by lia. apply is_int_of_Z.
      - rewrite Z.min_l by lia. done. }
    split.
    { rewrite (is_int_lt _ _ hi z Hhi (is_int_of_Z z)).
      destruct (bool_decide_reflect (hi < z)).
      - rewrite Z.max_r by lia. apply is_int_of_Z.
      - rewrite Z.max_l by lia. done. }
    split; [nia|]. split; [nia|].
    apply round_mean. by apply is_int_add, is_int_of_Z.
Qed.

Lemma latency_inv_apply o m : whole o -> latency_inv m -> latency_inv (apply o m).
Proof.
  destruct o; simpl; try done.
  - intros [z ->]. apply latency_inv_recordSuccess.
  - intros _. unfold getMetrics. by destruct (isDirty m), (cachedSnapshot m).
  - intros _ _. left. done.
Qed.

Lemma latency_inv_after now ops : Forall whole ops -> latency_inv (after now ops).
Proof.
  unfold after. induction ops as [|o ops IH] using rev_ind; simpl.
  - intros _. left. done.
  - intros Hall. apply Forall_app in Hall as [Hops Ho]. apply Forall_cons in Ho as [Ho _].
    rewrite fold_left_app. simpl. apply latency_inv_apply; [done | by apply IH].
Qed.

(** X2.  When the latencies recorded are whole milliseconds, as the
    differences of [Date.now()] that the client records are, then after any
    sequence of tracker operations the snapshot satisfies
    [minLatencyMs <= avgLatencyMs <= maxLatencyMs], and while no success is
    counted (before the first one, and after a reset) all three read 0. *)
Theorem latency_snapshot_ordered now ops :
  Forall whole ops ->
  let m := after now ops in
  let snap := snapshot m in
  Number.le (m_minLatencyMs snap) (m_avgLatencyMs snap) = true /\
  Number.le (m_avgLatencyMs snap) (m_maxLatencyMs snap) = true /\
  (successfulCalls m = 0%nat ->
   m_minLatencyMs snap = Num 0 /\ m_avgLatencyMs snap = Num 0 /\ m_maxLatencyMs snap = Num 0).
Proof.
  intros Hall. cbv zeta. cbn [snapshot m_minLatencyMs m_avgLatencyMs m_maxLatencyMs].
  destruct (latency_inv_after now ops Hall)
    as [(Hn & -> & _ & -> & ->)|(sum & lo & hi & Hn & Hsum & Hlo & Hhi & Hl & Hh & ->)].
  - done.
  - destruct (round_div_bounds sum (Z.of_nat (successfulCalls (after now ops))) lo hi)
      as [Hb1 Hb2]; [lia|done..|].
    assert (Hmin : is_int (match minLatencyMs (after now ops) with
                           | PosInf => Num 0
                           | x => x
                           end) lo).
    { destruct Hlo as (q & -> & Hq). by exists q. }
    split; [eapply is_int_le; [exact Hmin | apply is_int_of_Z | done]|].
    split; [eapply is_int_le; [apply is_int_of_Z | exact Hhi | done]|].
    intros H0. lia.
Qed.

(** A latency that is not whole leaves the order: after
    [recordSuccess(0.4)] the minimum is 0.4 and the average 0. *)
Example fractional_latency :
  let snap := snapshot (after 0 [OpSuccess (Num (2 # 5))]) in
  m_minLatencyMs snap = Num (2 # 5) /\ m_avgLatencyMs snap = Num 0 /\
  Number.le (m_minLatencyMs snap) (m_avgLatencyMs snap) = false.
Proof. vm_compute. done. Qed.

(** Only a reset lowers a counter. *)
Lemma counters_never_decrease o m :
  (forall now, o <> OpReset now) ->
  (totalCalls m <= totalCalls (apply o m))%nat /\
  (successfulCalls m <= successfulCalls (apply o m))%nat /\
  (failedCalls m <= failedCalls (apply o m))%nat /\
  (totalRetries m <= totalRetries (apply o m))%nat /\
  (cacheHits m <= cacheHits (apply o m))%nat /\
  (cacheMisses m <= cacheMisses (apply o m))%nat /\
  (circuitBreakerTrips m <= circuitBreakerTrips (apply o m))%nat.
Proof.
  intros Hreset. destruct o; simpl; try (repeat split; lia).
  - unfold getMetrics. destruct (isDirty m), (cachedSnapshot m); simpl; repeat split; lia.
  - by destruct (Hreset now).
Qed.
End MetricsFacts.

(** ** Fallback cache: invariants and operations *)

Section CacheInvariant.
Context {V : Type}.
Import FallbackCache.

Lemma remove_keys_NoDup {W} k (l : list (LRUCache.entry W)) :
  NoDup (map LRUCache.e_key l) -> NoDup (map LRUCache.e_key (LRUCache.remove k l)).
Proof.
  unfold LRUCache.remove. induction l as [|e l IH]; simpl; [done|].
  intros Hnd. apply NoDup_cons in Hnd as [Hnin Hnd].
  destruct (negb (String.eqb (LRUCache.e_key e) k)); simpl; [|by apply IH].
  apply NoDup_cons. split; [|by apply IH].
  intros Hin. apply Hnin. apply list_elem_of_fmap in Hin as (e' & -> & Hin').
  apply list_elem_of_fmap. exists e'. split; [done|].
  apply list_elem_of_In. apply list_elem_of_In in Hin'. by apply List.filter_In in Hin' as [? _].
Qed.

Lemma remove_key_absent {W} k (l : list (LRUCache.entry W)) :
  k ∉ map LRUCache.e_key (LRUCache.remove k l).
Proof.
  unfold LRUCache.remove. intros Hin. apply list_elem_of_fmap in Hin as (e & -> & Hin).
  apply list_elem_of_In, List.filter_In in Hin as [_ Hne].
  by rewrite String.eqb_refl in Hne.
Qed.

Lemma find_None_absent {W} k (l : list (LRUCache.entry W)) :
  LRUCache.find k l = None <-> k ∉ map LRUCache.e_key l.
Proof.
  unfold LRUCache.find. induction l as [|e l IH]; simpl.
  - split; [intros _ H; by apply elem_of_nil in H | done].
  - destruct (String.eqb_spec (LRUCache.e_key e) k) as [<-|Hne].
    + split; [done|]. intros Hnin. exfalso. apply Hnin. by left.
    + rewrite IH, not_elem_of_cons. split; [by intros ? | by intros [_ ?]].
Qed.

Lemma find_Some_key {W} k (l : list (LRUCache.entry W)) e :
  LRUCache.find k l = Some e -> LRUCache.e_key e = k /\ e ∈ l.
Proof.
  unfold LRUCache.find. intros H. apply List.find_some in H as [Hin Heq].
  apply String.eqb_eq in Heq. split; [done|]. by apply list_elem_of_In.
Qed.

Lemma remove_length_found {W} k (l : list (LRUCache.entry W)) e :
  LRUCache.find k l = Some e -> (length (LRUCache.remove k l) < length l)%nat.
Proof.
  unfold LRUCache.find, LRUCache.remove. induction l as [|e' l IH]; simpl; [done|].
  destruct (String.eqb (LRUCache.e_key e') k); simpl.
  - intros _. pose proof (List.filter_length_le (fun e0 => negb (String.eqb (LRUCache.e_key e0) k)) l).
    lia.
  - intros H. apply IH in H. lia.
Qed.

Lemma NoDup_keys_snoc {W} (l : list (LRUCache.entry W)) e :
  NoDup (map LRUCache.e_key l) -> LRUCache.e_key e ∉ map LRUCache.e_key l ->
  NoDup (map LRUCache.e_key (l ++ [e])).
Proof.
  intros Hnd Hnin. rewrite map_app. simpl. apply NoDup_app. split; [done|].
  split; [|apply NoDup_singleton].
  intros x Hx Hx'. apply list_elem_of_singleton in Hx'. by subst.
Qed.

(** Writing or touching an entry: it moves to the most recent end. *)
Lemma touch_well_formed {W} k (l : list (LRUCache.entry W)) e e' (max : nat) :
  NoDup (map LRUCache.e_key l) -> (length l <= max)%nat ->
  LRUCache.find k l = Some e -> LRUCache.e_key e' = k ->
  NoDup (map LRUCache.e_key (LRUCache.remove k l ++ [e'])) /\
  (length (LRUCache.remove k l ++ [e']) <= max)%nat.
Proof.
  intros Hnd Hlen Hf Hk. split.
  - apply NoDup_keys_snoc; [by apply remove_keys_NoDup|]. rewrite Hk. apply remove_key_absent.
  - rewrite length_app. simpl. pose proof (remove_length_found k l e Hf). lia.
Qed.

Lemma tail_keys_NoDup {W} (l : list (LRUCache.entry W)) :
  NoDup (map LRUCache.e_key l) -> NoDup (map LRUCache.e_key (tail l)).
Proof. destruct l; simpl; [done|]. intros H. by apply NoDup_cons in H as [_ ?]. Qed.

Lemma well_formed_set key (value : V) ttlMs now (fc fc1 : FallbackCache.t V) :
  well_formed fc -> set key value ttlMs now fc = Ok fc1 -> well_formed fc1.
Proof.
  intros (Hnd & Hlen & Hmax & Hflags) Hset.
  assert (Hlru : forall cv ttl, well_formed
            (with_cache fc (LRUCache.set key cv ttl now (cache fc)))).
  { intros cv ttl. unfold well_formed, LRUCache.set. simpl.
    destruct (LRUCache.find key (LRUCache.items (cache fc))) as [e|] eqn:Hf; simpl.
    - destruct (touch_well_formed key (LRUCache.items (cache fc)) e
                  {| LRUCache.e_key := key; LRUCache.e_value := cv;
                     LRUCache.e_ttl := ttl; LRUCache.e_start := now |}
                  (LRUCache.max (cache fc)) Hnd Hlen Hf eq_refl) as [? ?].
      done.
    - apply find_None_absent in Hf.
      destruct (Nat.eqb_spec (length (LRUCache.items (cache fc))) (LRUCache.max (cache fc)))
        as [Heq|Hne].
      + split; [|split; [|done]].
        * apply NoDup_keys_snoc; [by apply tail_keys_NoDup|]. simpl.
          intros Hin. apply Hf. destruct (LRUCache.items (cache fc)); [done|]. by right.
        * rewrite length_app. simpl.
          destruct (LRUCache.items (cache fc)); simpl in *; lia.
      + split; [|split; [|done]].
        * by apply NoDup_keys_snoc.
        * rewrite length_app. simpl. lia. }
  unfold set in Hset. destruct (negb (validKey key)); [done|].
  destruct ttlMs as [x|]; [destruct (outOfRange x MIN_TTL_MS MAX_TTL_MS); [done|]|];
    simplify_eq; apply Hlru.
Qed.

Lemma filter_keys_NoDup {W} (p : LRUCache.entry W -> bool) (l : list (LRUCache.entry W)) :
  NoDup (map LRUCache.e_key l) -> NoDup (map LRUCache.e_key (List.filter p l)).
Proof.
  induction l as [|e l IH]; simpl; [done|].
  intros Hnd. apply NoDup_cons in Hnd as [Hnin Hnd].
  destruct (p e); simpl; [|by apply IH].
  apply NoDup_cons. split; [|by apply IH].
  intros Hin. apply Hnin. apply list_elem_of_fmap in Hin as (e' & -> & Hin').
  apply list_elem_of_fmap. exists e'. split; [done|].
  apply list_elem_of_In. apply list_elem_of_In in Hin'. by apply List.filter_In in Hin' as [? _].
Qed.

Lemma well_formed_get key now (fc fc1 : FallbackCache.t V) r :
  well_formed fc -> get key now fc = Ok (r, fc1) -> well_formed fc1.
Proof.
  intros (Hnd & Hlen & Hmax & Hstale & Hkeep & Hage) Hget.
  unfold get in Hget. destruct (negb (validKey key)); [done|].
  unfold LRUCache.get in Hget.
  destruct (LRUCache.find key (LRUCache.items (cache fc))) as [e|] eqn:Hf.
  - destruct (LRUCache.isStale now e).
    + rewrite Hstale, Hkeep in Hget.
      destruct (Number.lt (defaultTtlMs fc) (Number.of_Z (now - timestamp (LRUCache.e_value e))));
        simplify_eq; by repeat split.
    + simpl in Hget.
      destruct (touch_well_formed key (LRUCache.items (cache fc)) e
                  {| LRUCache.e_key := key; LRUCache.e_value := LRUCache.e_value e;
                     LRUCache.e_ttl := LRUCache.e_ttl e;
                     LRUCache.e_start :=
                       if LRUCache.updateAgeOnGet (cache fc) then now else LRUCache.e_start e |}
                  (LRUCache.max (cache fc)) Hnd Hlen Hf eq_refl) as [? ?].
      destruct (Number.lt (defaultTtlMs fc) (Number.of_Z (now - timestamp (LRUCache.e_value e))));
        simplify_eq; by repeat split.
  - simplify_eq. unfold well_formed; simpl; auto 10.
Qed.

Lemma well_formed_delete key (fc fc1 : FallbackCache.t V) b :
  well_formed fc -> delete key fc = Ok (b, fc1) -> well_formed fc1.
Proof.
  intros (Hnd & Hlen & Hmax & Hflags) Hdel.
  unfold delete in Hdel. destruct (negb (validKey key)); [done|].
  unfold LRUCache.delete in Hdel.
  destruct (LRUCache.find key (LRUCache.items (cache fc))) as [e|] eqn:Hf; simplify_eq.
  - split; [by apply remove_keys_NoDup|]. split; [|done]. simpl.
    pose proof (remove_length_found key _ e Hf). lia.
  - unfold well_formed; simpl; auto 10.
Qed.

Lemma well_formed_clear (fc : FallbackCache.t V) : well_formed fc -> well_formed (clear fc).
Proof.
  intros (Hnd & Hlen & Hmax & Hflags). split; [apply NoDup_nil_2|]. split; [simpl; lia | done].
Qed.

Lemma well_formed_cleanup now (fc : FallbackCache.t V) :
  well_formed fc -> well_formed (cleanup now fc).2.
Proof.
  intros (Hnd & Hlen & Hmax & Hflags). unfold cleanup, LRUCache.purgeStale. simpl.
  set (kept := List.filter _ _).
  assert (Hwf : well_formed (with_cache fc (LRUCache.with_items (cache fc) kept))).
  { split; [by apply filter_keys_NoDup|]. split; [|done]. simpl.
    pose proof (List.filter_length_le
                  (fun e => negb (LRUCache.isStale now e)) (LRUCache.items (cache fc))).
    subst kept. lia. }
  by destruct (0 <? _)%nat.
Qed.

Lemma well_formed_apply o (fc : FallbackCache.t V) : well_formed fc -> well_formed (apply o fc).
Proof.
  intros Hwf. destruct o as [key value ttlMs now|key now|key| |now]; simpl.
  - destruct (set key value ttlMs now fc) eqn:Hs; [by eapply well_formed_set | done].
  - destruct (get key now fc) as [[r fc1]|] eqn:Hg; [by eapply well_formed_get | done].
  - destruct (delete key fc) as [[b fc1]|] eqn:Hd; [by eapply well_formed_delete | done].
  - by apply well_formed_clear.
  - by apply well_formed_cleanup.
Qed.

Lemma built_well_formed (fc : FallbackCache.t V) : built fc -> well_formed fc.
Proof.
  induction 1 as [service maxSize ttl fc Hc|o fc _ IH]; [|by apply well_formed_apply].
  destruct (create_allows_stale _ _ _ _ Hc) as (Hs & Hk & Hmax).
  apply create_Ok_inv in Hc as (size & _ & _ & _ & _ & _ & ->).
  split; [apply NoDup_nil_2|]. split; [simpl; lia|]. by repeat split.
Qed.

(** X3.  For a cache made by the constructor and changed by any sequence of
    [set], [get], [delete], [clear] and [cleanup]: [getStats()] reports a size
    that does not exceed [maxSize], a [maxSize] of at least 1, and no key
    twice.  (The LRU store is the model of the lru-cache dependency.) *)
Theorem cache_is_bounded (fc : FallbackCache.t V) :
  built fc ->
  (size (getStats fc) <= maxSize (getStats fc))%nat /\
  (1 <= maxSize (getStats fc))%nat /\
  NoDup (keys (getStats fc)).
Proof.
  intros Hb. destruct (built_well_formed fc Hb) as (Hnd & Hlen & Hmax & _).
  split; [done|]. split; [done|]. simpl. unfold LRUCache.keys. by apply NoDup_ListNoDup, NoDup_rev, NoDup_ListNoDup.
Qed.
End CacheInvariant.

Section CacheValidation.
Context {V : Type}.
Import FallbackCache.

Lemma trimStart_empty s : trimStart s = "" <-> isBlank s = true.
Proof.
  induction s as [|a s IH]; simpl; [done|].
  destruct (isWhiteSpace a); simpl; [done|]. split; discriminate.
Qed.

Lemma isBlank_trimStart s : isBlank (trimStart s) = isBlank s.
Proof.
  induction s as [|a s IH]; simpl; [done|].
  destruct (isWhiteSpace a) eqn:Ha; simpl; [done|]. by rewrite Ha.
Qed.

Lemma isBlank_rev_app s1 s2 : isBlank (String.rev_app s1 s2) = isBlank s1 && isBlank s2.
Proof.
  revert s2. induction s1 as [|a s1 IH]; intros s2; simpl; [done|].
  rewrite IH. simpl. by destruct (isWhiteSpace a), (isBlank s1), (isBlank s2).
Qed.

Lemma rev_app_empty s1 s2 : String.rev_app s1 s2 = "" <-> s1 = "" /\ s2 = "".
Proof.
  revert s2. induction s1 as [|a s1 IH]; intros s2; simpl; [split; [done | by intros [_ ?]]|].
  rewrite IH. split; [by intros [_ ?] | by intros [? _]].
Qed.

Lemma trim_empty s : (String.length (trim s) =? 0)%nat = isBlank s.
Proof.
  assert (Hlen : forall t : string, (String.length t =? 0)%nat = true <-> t = "").
  { intros [|a t]; simpl; [done|]. split; discriminate. }
  apply eq_true_iff_eq. rewrite Hlen. unfold trim, String.rev.
  rewrite rev_app_empty, trimStart_empty, isBlank_rev_app, isBlank_trimStart.
  simpl. rewrite andb_true_r. tauto.
Qed.

Lemma validKey_blank k : validKey k = negb (isBlank k).
Proof. unfold validKey. by rewrite trim_empty. Qed.
End CacheValidation.

Section CacheOperations.
Context {V : Type}.
Import FallbackCache.

Lemma set_Ok_inv key (value : V) ttlMs now (fc fc1 : FallbackCache.t V) :
  set key value ttlMs now fc = Ok fc1 ->
  validKey key = true /\
  exists ttl, fc1 = with_cache fc
    (LRUCache.set key {| data := value; timestamp := now |} ttl now (cache fc)).
Proof.
  unfold set. destruct (validKey key); simpl; [|done]. intros H. split; [done|].
  destruct ttlMs as [x|]; [destruct (outOfRange x MIN_TTL_MS MAX_TTL_MS); [done|]|];
    simplify_eq; eauto.
Qed.

Lemma get_found key now (fc : FallbackCache.t V) e :
  validKey key = true -> LRUCache.allowStale (cache fc) = true ->
  LRUCache.find key (LRUCache.items (cache fc)) = Some e ->
  exists fc1, get key now fc = Ok (Some (data (LRUCache.e_value e)), fc1).
Proof.
  intros Hk Hstale Hf. unfold get, LRUCache.get. rewrite Hk, Hf. simpl.
  destruct (LRUCache.isStale now e); rewrite ?Hstale; simpl;
    destruct (Number.lt (defaultTtlMs fc) (Number.of_Z (now - timestamp (LRUCache.e_value e)))); eauto.
Qed.

Lemma get_absent key now (fc : FallbackCache.t V) :
  validKey key = true ->
  LRUCache.find key (LRUCache.items (cache fc)) = None ->
  exists fc1, get key now fc = Ok (None, fc1) /\ cache fc1 = cache fc.
Proof.
  intros Hk Hf. unfold get, LRUCache.get. rewrite Hk, Hf. simpl. eauto.
Qed.

(** X4.  A value written with [set], under the default TTL or one of its
    own, is returned by every later [get] of the same key, at whatever time
    the read happens, as long as nothing else touched the cache in between:
    expiry never turns a hit into a miss. *)
Theorem set_then_get key (value : V) ttlMs now now' (fc fc1 : FallbackCache.t V) :
  built fc ->
  set key value ttlMs now fc = Ok fc1 ->
  exists fc2, get key now' fc1 = Ok (Some value, fc2).
Proof.
  intros Hb Hset. destruct (built_well_formed fc Hb) as (_ & _ & _ & Hstale & _).
  destruct (set_Ok_inv _ _ _ _ _ _ Hset) as (Hk & ttl & ->).
  apply (get_found key now' _
           {| LRUCache.e_key := key; LRUCache.e_value := {| data := value; timestamp := now |};
              LRUCache.e_ttl := ttl; LRUCache.e_start := now |} Hk).
  - simpl. by destruct (LRUCache_flags_set key {| data := value; timestamp := now |} ttl now
                          (cache fc)) as [-> _].
  - apply LRUCache_find_set.
Qed.
End CacheOperations.

Section CacheRecency.
Context {V : Type}.
Import FallbackCache.


Lemma keys_remove {W} key (l : list (LRUCache.entry W)) :
  rev (map LRUCache.e_key (LRUCache.remove key l)) =
  List.filter (fun k => negb (String.eqb k key)) (rev (map LRUCache.e_key l)).
Proof.
  unfold LRUCache.remove. induction l as [|e l IH]; simpl; [done|].
  rewrite List.filter_app. simpl.
  destruct (negb (String.eqb (LRUCache.e_key e) key)); simpl; rewrite IH; [done|].
  by rewrite app_nil_r.
Qed.

Lemma keys_tail {W} (l : list (LRUCache.entry W)) :
  rev (map LRUCache.e_key (tail l)) = removelast (rev (map LRUCache.e_key l)).
Proof.
  destruct l as [|e l]; simpl; [done|]. by rewrite removelast_last.
Qed.

Lemma keys_snoc {W} (l : list (LRUCache.entry W)) e :
  rev (map LRUCache.e_key (l ++ [e])) = LRUCache.e_key e :: rev (map LRUCache.e_key l).
Proof. by rewrite map_app, rev_app_distr. Qed.

Lemma find_is_Some_keys {W} key (l : list (LRUCache.entry W)) :
  is_Some (LRUCache.find key l) <-> In key (rev (map LRUCache.e_key l)).
Proof.
  rewrite <- in_rev, <- list_elem_of_In.
  destruct (LRUCache.find key l) eqn:Hf.
  - split; [intros _|by eauto]. apply find_Some_key in Hf as [<- Hin].
    apply list_elem_of_fmap. eauto.
  - apply find_None_absent in Hf. split; [by intros [? ?]|done].
Qed.

(** X5.  What a successful [set] does to the key list of [getStats()],
    which runs from the most to the least recently used key: the written key
    comes first; a key already present is moved, a new key is added, and when
    the cache is full the last key of the list, the least recently used one,
    is dropped. *)
Theorem set_recency_order key (value : V) ttlMs now (fc fc1 : FallbackCache.t V) :
  set key value ttlMs now fc = Ok fc1 ->
  (In key (keys (getStats fc)) ->
   keys (getStats fc1) =
     key :: List.filter (fun k => negb (String.eqb k key)) (keys (getStats fc))) /\
  (~ In key (keys (getStats fc)) -> size (getStats fc) <> maxSize (getStats fc) ->
   keys (getStats fc1) = key :: keys (getStats fc)) /\
  (~ In key (keys (getStats fc)) -> size (getStats fc) = maxSize (getStats fc) ->
   keys (getStats fc1) = key :: removelast (keys (getStats fc))).
Proof.
  intros Hset. destruct (set_Ok_inv _ _ _ _ _ _ Hset) as (_ & ttl & ->).
  simpl. unfold LRUCache.keys, LRUCache.set, LRUCache.size.
  pose proof (find_is_Some_keys key (LRUCache.items (cache fc))) as Hin.
  destruct (LRUCache.find key (LRUCache.items (cache fc))) as [e|]; simpl.
  - split; [intros _; by rewrite keys_snoc, keys_remove|].
    split; intros Hnin; exfalso; apply Hnin, Hin; eauto.
  - split; [intros Hk; apply Hin in Hk; by destruct Hk|].
    split; intros _ Hsz.
    + apply Nat.eqb_neq in Hsz. rewrite Hsz. by rewrite keys_snoc.
    + apply Nat.eqb_eq in Hsz. rewrite Hsz. by rewrite keys_snoc, keys_tail.
Qed.

(** X6.  A [get] of a key that is present returns its value and keeps the
    size.  If the entry is still fresh the key moves to the front of the key
    list; if it is past its TTL the value is returned all the same and the
    order is left as it was. *)
Theorem get_recency_order key now (fc fc1 : FallbackCache.t V) e r :
  built fc ->
  LRUCache.find key (LRUCache.items (cache fc)) = Some e ->
  get key now fc = Ok (r, fc1) ->
  r = Some (data (LRUCache.e_value e)) /\
  size (getStats fc1) = size (getStats fc) /\
  keys (getStats fc1) =
    if LRUCache.isStale now e then keys (getStats fc)
    else key :: List.filter (fun k => negb (String.eqb k key)) (keys (getStats fc)).
Proof.
  intros Hb Hf Hget. destruct (built_well_formed fc Hb) as (Hnd & _ & _ & Hstale & Hkeep & _).
  unfold get, LRUCache.get in Hget. destruct (negb (validKey key)); [done|].
  rewrite Hf in Hget. simpl. unfold LRUCache.keys, LRUCache.size.
  destruct (LRUCache.isStale now e).
  - rewrite Hstale, Hkeep in Hget.
    destruct (Number.lt (defaultTtlMs fc) (Number.of_Z (now - timestamp (LRUCache.e_value e)))); by simplify_eq.
  - simpl in Hget.
    assert (Hlen : length (LRUCache.remove key (LRUCache.items (cache fc)) ++
                     [{| LRUCache.e_key := key; LRUCache.e_value := LRUCache.e_value e;
                         LRUCache.e_ttl := LRUCache.e_ttl e;
                         LRUCache.e_start :=
                           if LRUCache.updateAgeOnGet (cache fc) then now
                           else LRUCache.e_start e |}])
                   = length (LRUCache.items (cache fc))).
    { rewrite length_app. simpl.
      cut (S (length (LRUCache.remove key (LRUCache.items (cache fc))))
           = length (LRUCache.items (cache fc))); [lia|].
      clear Hget. revert Hnd Hf. unfold LRUCache.find, LRUCache.remove.
      induction (LRUCache.items (cache fc)) as [|e' l IH]; simpl; [done|].
      intros Hnd. apply NoDup_cons in Hnd as [Hnin Hnd].
      destruct (String.eqb_spec (LRUCache.e_key e') key) as [Heq|Hne]; simpl.
      - intros _. f_equal. rewrite Heq in Hnin. clear -Hnin.
        induction l as [|e'' l IH]; simpl; [done|].
        apply not_elem_of_cons in Hnin as [Hne Hnin].
        destruct (String.eqb_spec (LRUCache.e_key e'') key); [congruence|].
        simpl. f_equal. by apply IH.
      - intros Hfind. f_equal. by apply IH. }
    destruct (Number.lt (defaultTtlMs fc) (Number.of_Z (now - timestamp (LRUCache.e_value e)))); simplify_eq; simpl;
      rewrite Hlen, keys_snoc, keys_remove; done.
Qed.
End CacheRecency.

Section CacheRemoval.
Context {V : Type}.
Import FallbackCache.

Lemma remove_length_NoDup {W} key (l : list (LRUCache.entry W)) e :
  NoDup (map LRUCache.e_key l) -> LRUCache.find key l = Some e ->
  S (length (LRUCache.remove key l)) = length l.
Proof.
  unfold LRUCache.find, LRUCache.remove.
  induction l as [|e' l IH]; simpl; [done|].
  intros Hnd. apply NoDup_cons in Hnd as [Hnin Hnd].
  destruct (String.eqb_spec (LRUCache.e_key e') key) as [Heq|Hne]; simpl.
  - intros _. f_equal. rewrite Heq in Hnin. clear -Hnin.
    induction l as [|e'' l IH]; simpl; [done|].
    apply not_elem_of_cons in Hnin as [Hne Hnin].
    destruct (String.eqb_spec (LRUCache.e_key e'') key); [congruence|].
    simpl. f_equal. by apply IH.
  - intros Hfind. f_equal. by apply IH.
Qed.

Lemma find_remove_other {W} key key' (l : list (LRUCache.entry W)) :
  key' <> key -> LRUCache.find key' (LRUCache.remove key l) = LRUCache.find key' l.
Proof.
  intros Hne. unfold LRUCache.find, LRUCache.remove.
  induction l as [|e l IH]; simpl; [done|].
  destruct (String.eqb_spec (LRUCache.e_key e) key) as [Heq|Hne']; simpl.
  - destruct (String.eqb_spec (LRUCache.e_key e) key'); [congruence | done].
  - by destruct (String.eqb (LRUCache.e_key e) key').
Qed.

(** X7.  [delete] of a valid key returns [true] exactly when the key was
    present; afterwards the key is absent, a [get] of it misses, the size
    went down by one if it was present, and every other key is bound as
    before. *)
Theorem delete_removes key (fc : FallbackCache.t V) :
  built fc -> validKey key = true ->
  exists b fc1,
    delete key fc = Ok (b, fc1) /\
    (b = true <-> In key (keys (getStats fc))) /\
    ~ In key (keys (getStats fc1)) /\
    size (getStats fc1) = (size (getStats fc) - if b then 1 else 0)%nat /\
    (forall now, exists fc2, get key now fc1 = Ok (None, fc2)) /\
    (forall key', key' <> key ->
       LRUCache.find key' (LRUCache.items (cache fc1)) =
       LRUCache.find key' (LRUCache.items (cache fc))).
Proof.
  intros Hb Hk. destruct (built_well_formed fc Hb) as (Hnd & _).
  unfold delete, LRUCache.delete. rewrite Hk. simpl.
  pose proof (find_is_Some_keys key (LRUCache.items (cache fc))) as Hin.
  destruct (LRUCache.find key (LRUCache.items (cache fc))) as [e|] eqn:Hf.
  - exists true. eexists. split; [reflexivity|]. simpl.
    split; [split; [intros _; apply Hin; eauto | done]|].
    split.
    { unfold LRUCache.keys. simpl. rewrite <- in_rev, <- list_elem_of_In.
      apply remove_key_absent. }
    split.
    { unfold LRUCache.size. simpl. rewrite <- (remove_length_NoDup key _ e Hnd Hf). lia. }
    split.
    { intros now. destruct (get_absent key now
        (with_cache fc (LRUCache.with_items (cache fc)
           (LRUCache.remove key (LRUCache.items (cache fc))))) Hk) as (fc2 & Hg & _);
        [apply find_remove | eauto]. }
    intros key' Hne. by apply find_remove_other.
  - exists false. eexists. split; [reflexivity|]. simpl.
    split; [split; [done | intros Hk'; apply Hin in Hk'; by destruct Hk']|].
    split; [intros Hk'; apply Hin in Hk'; by destruct Hk'|].
    split; [unfold LRUCache.size; lia|].
    split; [|done].
    intros now. destruct (get_absent key now (with_cache fc (cache fc)) Hk Hf)
      as (fc2 & Hg & _). eauto.
Qed.

(** X8.  [cleanup()] keeps exactly the entries that are not past their TTL,
    returns the number of entries it removed, never grows the cache, and a
    second [cleanup()] at the same time removes nothing. *)
Theorem cleanup_purges_expired now (fc : FallbackCache.t V) :
  let '(removed, fc1) := cleanup now fc in
  (forall e, e ∈ LRUCache.items (cache fc1) <->
             e ∈ LRUCache.items (cache fc) /\ LRUCache.isStale now e = false) /\
  removed = (size (getStats fc) - size (getStats fc1))%nat /\
  (size (getStats fc1) <= size (getStats fc))%nat /\
  (cleanup now fc1).1 = 0%nat.
Proof.
  unfold cleanup, LRUCache.purgeStale. simpl.
  set (kept := List.filter _ (LRUCache.items (cache fc))).
  assert (Hkept : forall e, e ∈ kept <->
            e ∈ LRUCache.items (cache fc) /\ LRUCache.isStale now e = false).
  { intros e. subst kept. rewrite !list_elem_of_In, List.filter_In, negb_true_iff. done. }
  assert (Hle : (length kept <= length (LRUCache.items (cache fc)))%nat)
    by apply List.filter_length_le.
  assert (Hagain : List.filter (fun e => negb (LRUCache.isStale now e)) kept = kept).
  { subst kept. clear. induction (LRUCache.items (cache fc)) as [|e l IH]; simpl; [done|].
    destruct (negb (LRUCache.isStale now e)) eqn:He; simpl; [|done]. by rewrite He, IH. }
  unfold LRUCache.size. simpl.
  destruct (0 <? length (LRUCache.items (cache fc)) - length kept)%nat; simpl;
    rewrite Hagain; (split; [done|]); (split; [done|]); (split; [done|]); lia.
Qed.
End CacheRemoval.

Section CacheValidation2.
Context {V : Type}.
Import FallbackCache.

(** X9.  Stale reads last only until a purge: when nothing else touches the
    cache between [set(k, v, T)] and a [cleanup()] that runs more than [T]
    milliseconds later, that [cleanup()] removes at least one entry and a
    [get] of [k] right after it returns [null]. *)
Theorem cleanup_ends_stale_reads key (value : V) (T : Q) now now' (fc fc1 : FallbackCache.t V) :
  set key value (Some (Num T)) now fc = Ok fc1 ->
  (T < inject_Z (now' - now))%Q ->
  (1 <= (cleanup now' fc1).1)%nat /\
  exists fc2, get key now' (cleanup now' fc1).2 = Ok (None, fc2).
Proof.
  intros Hset Hlate.
  assert (Hopen := Hset). unfold set in Hopen.
  destruct (validKey key) eqn:Hk; simpl in Hopen; [|done].
  destruct (outOfRange (Num T) MIN_TTL_MS MAX_TTL_MS) eqn:Hrange; [done|]. simplify_eq.
  assert (Hlo : (MIN_TTL_MS <= T)%Q) by (by apply outOfRange_Num in Hrange as [? _]).
  cbn [storeTtl].
  assert (Hfloor : 10 <= Qfloor T).
  { change 10 with (Qfloor (inject_Z 10)) at 1. by apply Qfloor_resp_le. }
  assert (Hexp : Qfloor T < now' - now).
  { rewrite Zlt_Qlt. eapply Qle_lt_trans; [apply Qfloor_le | done]. }
  set (e := {| LRUCache.e_key := key; LRUCache.e_value := {| data := value; timestamp := now |};
               LRUCache.e_ttl := Qfloor T; LRUCache.e_start := now |}).
  assert (Hs : LRUCache.isStale now' e = true).
  { unfold LRUCache.isStale. simpl. rewrite (proj2 (Z.ltb_lt _ _) Hexp).
    destruct (Z.eqb_spec (Qfloor T) 0); [lia | done]. }
  assert (Hitems : exists l, LRUCache.items (LRUCache.set key {| data := value; timestamp := now |}
                      (Qfloor T) now (cache fc)) = (l ++ [e])%list /\ LRUCache.find key l = None).
  { unfold LRUCache.set.
    destruct (LRUCache.find key (LRUCache.items (cache fc))) eqn:Hf; simpl.
    - eexists. split; [reflexivity | apply find_remove].
    - eexists. split; [reflexivity|].
      destruct (length (LRUCache.items (cache fc)) =? LRUCache.max (cache fc))%nat;
        [by apply find_tail | done]. }
  destruct Hitems as (l & Hl & Hnone).
  unfold cleanup, LRUCache.purgeStale, LRUCache.size. cbn [cache with_cache]. rewrite Hl.
  rewrite List.filter_app. simpl. rewrite Hs. simpl. rewrite app_nil_r.
  set (kept := List.filter _ l).
  assert (Hle : (length kept <= length l)%nat) by apply List.filter_length_le.
  assert (Hkept : LRUCache.find key kept = None).
  { apply find_None_absent. apply find_None_absent in Hnone. intros Hin. apply Hnone.
    apply list_elem_of_fmap in Hin as (e' & -> & Hin). apply list_elem_of_fmap.
    exists e'. split; [done|]. apply list_elem_of_In.
    apply list_elem_of_In in Hin. subst kept. by apply List.filter_In in Hin as [? _]. }
  rewrite length_app. simpl. split; [lia|].
  match goal with |- context [get key now' (if ?b then _ else _)] => destruct b end;
    match goal with |- context [get key now' ?x] =>
      destruct (get_absent key now' x Hk) as (fc2 & Hg & _); [exact Hkept | eauto]
    end.
Qed.

(** X10.  Key validation: a key is accepted exactly when it has a character
    that is not white space.  On a blank key [get], [set] and [delete] throw
    "Cache key must be a non-empty string"; on any other key [get], [delete]
    and [set] under the default TTL do not throw. *)
Theorem blank_keys_rejected key (fc : FallbackCache.t V) :
  validKey key = negb (isBlank key) /\
  (isBlank key = true ->
   (forall now, get key now fc = Throw (newError "Cache key must be a non-empty string")) /\
   (forall value ttlMs now,
      set key value ttlMs now fc = Throw (newError "Cache key must be a non-empty string")) /\
   delete key fc = Throw (newError "Cache key must be a non-empty string")) /\
  (isBlank key = false ->
   (forall now, exists r fc1, get key now fc = Ok (r, fc1)) /\
   (forall value now, exists fc1, set key value None now fc = Ok fc1) /\
   (exists b fc1, delete key fc = Ok (b, fc1))).
Proof.
  split; [apply validKey_blank|]. unfold get, set, delete. rewrite validKey_blank.
  split; intros ->; simpl.
  - done.
  - split; [|split].
    + intros now. destruct (LRUCache.get key now (cache fc)) as [[e|] c]; eauto.
    + eauto.
    + destruct (LRUCache.delete key (cache fc)); eauto.
Qed.

(** X11.  [set] with a TTL of its own, on a valid key.  It returns exactly
    when the TTL is a number within [[10, 86400000]] or is [NaN], which both
    tests of the range check let through; otherwise, the infinities
    included, it throws "ttlMs must be between 10 and 86400000".  When it
    returns, the entry is stored with the value, the time of the write and
    the floor of the TTL; under a [NaN] TTL the entry is never stale. *)
Theorem set_validates_ttl key (value : V) (ttl : number) now (fc : FallbackCache.t V) :
  validKey key = true ->
  ((exists fc1, set key value (Some ttl) now fc = Ok fc1) <->
   ttl = NaN \/ exists T, ttl = Num T /\ (MIN_TTL_MS <= T)%Q /\ (T <= MAX_TTL_MS)%Q) /\
  (forall e, set key value (Some ttl) now fc = Throw e ->
             e = newError "ttlMs must be between 10 and 86400000") /\
  (forall fc1, set key value (Some ttl) now fc = Ok fc1 ->
     exists entry,
       LRUCache.find key (LRUCache.items (cache fc1)) = Some entry /\
       LRUCache.e_value entry = {| data := value; timestamp := now |} /\
       LRUCache.e_start entry = now /\
       (forall T, ttl = Num T -> LRUCache.e_ttl entry = Qfloor T) /\
       (ttl = NaN -> forall later, LRUCache.isStale later entry = false)).
Proof.
  intros Hk. unfold set. rewrite Hk. cbn [negb]. split; [|split].
  - destruct ttl as [| | |T]; cbn -[MIN_TTL_MS MAX_TTL_MS].
    + split; [by left | eauto].
    + split; [by intros [? ?] | intros [?|(T & ? & _)]; done].
    + split; [by intros [? ?] | intros [?|(T & ? & _)]; done].
    + destruct (outOfRange (Num T) MIN_TTL_MS MAX_TTL_MS) eqn:Hr.
      * split; [by intros [? ?]|]. intros [?|(T' & HT & Hlo & Hhi)]; [done|]. simplify_eq.
        by rewrite (outOfRange_false _ _ _ Hlo Hhi) in Hr.
      * apply outOfRange_Num in Hr. split; [|eauto]. intros _. right. eauto.
  - intros e. destruct (outOfRange ttl MIN_TTL_MS MAX_TTL_MS); intros H; by simplify_eq.
  - intros fc1. destruct (outOfRange ttl MIN_TTL_MS MAX_TTL_MS); [done|]. intros H. simplify_eq.
    eexists. split; [simpl; apply LRUCache_find_set|]. cbn.
    split; [done|]. split; [done|]. split.
    + by intros T ->.
    + by intros ->.
Qed.

(** X12.  The constructor returns exactly when the service name is not
    blank, the size is a number within [[1, 100000]], and the default TTL is
    a number within [[10, 86400000]] or is [NaN], which the range check lets
    through.  The cache it returns is empty, its capacity is the floor of the
    size, its default TTL the floor of the TTL ([NaN] stays [NaN]) and its
    service name is trimmed. *)
Theorem create_validates service (maxSz defaultTtl : number) :
  ((exists fc : FallbackCache.t V, create service maxSz defaultTtl = Ok fc) <->
   isBlank service = false /\
   (exists size, maxSz = Num size /\ (MIN_CACHE_SIZE <= size)%Q /\ (size <= MAX_CACHE_SIZE)%Q) /\
   (defaultTtl = NaN \/
    exists T, defaultTtl = Num T /\ (MIN_TTL_MS <= T)%Q /\ (T <= MAX_TTL_MS)%Q)) /\
  (forall (fc : FallbackCache.t V) size,
     create service maxSz defaultTtl = Ok fc -> maxSz = Num size ->
     getStats fc = {| size := 0; maxSize := Z.to_nat (Qfloor size); keys := [] |} /\
     defaultTtlMs fc = Number.floor defaultTtl /\
     serviceName fc = trim service).
Proof.
  split.
  - split.
    + intros [fc Hc]. apply create_Ok_inv in Hc as (size & -> & Hlo & Hhi & Hs & Ht & _).
      rewrite trim_empty in Hs. split; [done|]. split; [eauto|].
      destruct defaultTtl as [| | |T]; [by left|done|done|].
      right. exists T. split; [done|]. by apply outOfRange_Num.
    + intros (Hs & (size & -> & Hlo & Hhi) & Ht). unfold create.
      rewrite trim_empty, Hs, (outOfRange_false _ _ _ Hlo Hhi).
      assert (Hr : outOfRange defaultTtl MIN_TTL_MS MAX_TTL_MS = false).
      { destruct Ht as [->|(T & -> & Htlo & Hthi)]; [done | by apply outOfRange_false]. }
      rewrite Hr. cbn [Number.floor Number.of_Z]. eauto.
  - intros fc size Hc ->. apply create_Ok_inv in Hc as (size' & Heq & _ & _ & _ & _ & ->).
    by simplify_eq.
Qed.
End CacheValidation2.

(** ** Stale values stay until the entry goes *)

Section CacheRetention.
Context {V : Type}.
Import FallbackCache.

Local Abbreviation entries fc := (LRUCache.items (cache fc)).
Local Abbreviation binds k v l :=
  (forall e : LRUCache.entry (CacheValue V),
     In e l -> LRUCache.e_key e = k -> data (LRUCache.e_value e) = v).

Lemma In_remove key (e : LRUCache.entry (CacheValue V)) l :
  In e (LRUCache.remove key l) -> In e l.
Proof. unfold LRUCache.remove. intros H. by apply List.filter_In in H as [? _]. Qed.

Lemma In_tail (e : LRUCache.entry (CacheValue V)) l : In e (tail l) -> In e l.
Proof. destruct l; simpl; auto. Qed.

Lemma find_In key (l : list (LRUCache.entry (CacheValue V))) e :
  LRUCache.find key l = Some e -> LRUCache.e_key e = key /\ In e l.
Proof.
  unfold LRUCache.find. intros H. apply List.find_some in H as [Hin Heq].
  by apply String.eqb_eq in Heq.
Qed.

Lemma binds_set k v key value ttl now (c : LRUCache.t (CacheValue V)) :
  key <> k -> binds k v (LRUCache.items c) ->
  binds k v (LRUCache.items (LRUCache.set key value ttl now c)).
Proof.
  intros Hne Hb e. unfold LRUCache.set.
  destruct (LRUCache.find key (LRUCache.items c)); simpl; rewrite in_app_iff; simpl.
  - intros [Hin|[<-|[]]] Hk; [|done]. apply Hb; [by eapply In_remove | done].
  - intros [Hin|[<-|[]]] Hk; [|done]. apply Hb; [|done].
    destruct (length (LRUCache.items c) =? LRUCache.max c)%nat; [by apply In_tail | done].
Qed.

Lemma binds_get k v key now (c : LRUCache.t (CacheValue V)) :
  binds k v (LRUCache.items c) -> binds k v (LRUCache.items (LRUCache.get key now c).2).
Proof.
  intros Hb e. unfold LRUCache.get.
  destruct (LRUCache.find key (LRUCache.items c)) as [e0|] eqn:Hf; [|by apply Hb].
  apply find_In in Hf as [Hk0 Hin0].
  destruct (LRUCache.isStale now e0); simpl.
  - destruct (LRUCache.noDeleteOnStaleGet c); simpl; [by apply Hb|].
    intros Hin. apply Hb. by eapply In_remove.
  - rewrite in_app_iff. simpl. intros [Hin|[<-|[]]] Hk; simpl in *.
    + apply Hb; [by eapply In_remove | done].
    + apply Hb; [done | congruence].
Qed.

(** Every operation other than a [set] of [k] keeps what is stored under
    [k]: it may drop the entry, it does not change the value. *)
Lemma binds_apply k v (o : Op V) (fc : FallbackCache.t V) :
  match o with OpSet key _ _ _ => key <> k | _ => True end ->
  binds k v (entries fc) -> binds k v (entries (apply o fc)).
Proof.
  intros Ho Hb. destruct o as [key value ttlMs now|key now|key| |now]; simpl.
  - unfold set. destruct (negb (validKey key)); [done|].
    destruct ttlMs as [x|]; [destruct (outOfRange x MIN_TTL_MS MAX_TTL_MS); [done|]|];
      cbn [cache with_cache]; by apply binds_set.
  - unfold get. destruct (negb (validKey key)); [done|].
    pose proof (binds_get k v key now (cache fc) Hb) as Hg.
    destruct (LRUCache.get key now (cache fc)) as [[entry|] c]; cbn [snd] in Hg; [|done].
    destruct (Number.lt _ _); exact Hg.
  - unfold delete. destruct (negb (validKey key)); [done|]. unfold LRUCache.delete.
    destruct (LRUCache.find key (entries fc)) as [e0|]; cbn; [|done].
    intros e Hin. apply Hb. by eapply In_remove.
  - intros e [].
  - unfold cleanup, LRUCache.purgeStale. cbn.
    match goal with |- context [if ?b then _ else _] => destruct b end; cbn;
      intros e Hin; apply Hb; by apply List.filter_In in Hin as [? _].
Qed.

Lemma binds_run k v (ops : list (Op V)) (fc : FallbackCache.t V) :
  Forall (fun o => match o with OpSet key _ _ _ => key <> k | _ => True end) ops ->
  binds k v (entries fc) -> binds k v (entries (run ops fc)).
Proof.
  unfold run. revert fc. induction ops as [|o ops IH]; intros fc Hall Hb; simpl; [done|].
  apply Forall_cons in Hall as [Ho Hall]. apply IH; [done|]. by apply binds_apply.
Qed.

Lemma built_run (ops : list (Op V)) (fc : FallbackCache.t V) : built fc -> built (run ops fc).
Proof.
  unfold run. revert fc. induction ops as [|o ops IH]; intros fc Hb; simpl; [done|].
  apply IH. by apply built_apply.
Qed.

(** X28.  A value written with [set] is what [get] returns for as long as
    its key is in the cache, however stale the entry: after any sequence of
    cache operations on any keys in which [k] is not written again (reads,
    writes of other keys, deletes, [clear()], [cleanup()]), at whatever
    times, [get(k)] returns [v] if [k] is still listed by [getStats()] and
    [null] if it is not. *)
Theorem stale_value_retained k (v : V) ttlMs now (ops : list (Op V)) later
    (fc fc1 : FallbackCache.t V) :
  built fc ->
  set k v ttlMs now fc = Ok fc1 ->
  Forall (fun o => match o with OpSet key _ _ _ => key <> k | _ => True end) ops ->
  (In k (keys (getStats (run ops fc1))) ->
   exists fc2, get k later (run ops fc1) = Ok (Some v, fc2)) /\
  (~ In k (keys (getStats (run ops fc1))) ->
   exists fc2, get k later (run ops fc1) = Ok (None, fc2)).
Proof.
  intros Hb Hset Hall.
  assert (Hk : validKey k = true).
  { unfold set in Hset. by destruct (validKey k). }
  assert (Hb1 : built fc1).
  { pose proof (built_apply (OpSet k v ttlMs now) fc Hb) as H. simpl in H.
    by rewrite Hset in H. }
  assert (Hbinds : binds k v (entries fc1)).
  { unfold set in Hset. rewrite Hk in Hset. cbn [negb] in Hset.
    assert (Hnew : forall ttl, binds k v
              (LRUCache.items (LRUCache.set k {| data := v; timestamp := now |} ttl now (cache fc)))).
    { intros ttl e. unfold LRUCache.set.
      assert (Hold : forall e', In e' (LRUCache.remove k (entries fc)) ->
                                LRUCache.e_key e' <> k).
      { intros e' Hin. unfold LRUCache.remove in Hin. apply List.filter_In in Hin as [_ Hne].
        apply negb_true_iff in Hne. by apply String.eqb_neq in Hne. }
      destruct (LRUCache.find k (entries fc)) eqn:Hf; simpl; rewrite in_app_iff; simpl.
      - intros [Hin|[<-|[]]] Hke; [|done]. by apply Hold in Hin.
      - intros [Hin|[<-|[]]] Hke; [|done]. exfalso.
        apply find_None_absent in Hf. apply Hf. apply list_elem_of_fmap. exists e.
        split; [done|]. apply list_elem_of_In.
        destruct (length (entries fc) =? LRUCache.max (cache fc))%nat; [by apply In_tail | done]. }
    destruct ttlMs as [x|]; [destruct (outOfRange x MIN_TTL_MS MAX_TTL_MS); [done|]|];
      simplify_eq; apply Hnew. }
  pose proof (binds_run k v ops fc1 Hall Hbinds) as Hfinal.
  destruct (built_well_formed _ (built_run ops fc1 Hb1)) as (_ & _ & _ & Hstale & _).
  cbn [getStats keys]. unfold LRUCache.keys. rewrite <- find_is_Some_keys. split.
  - intros [e Hf]. destruct (get_found k later _ e Hk Hstale Hf) as [fc2 Hg].
    apply find_In in Hf as [Hke Hin]. rewrite (Hfinal e Hin Hke) in Hg. eauto.
  - intros Hnone. destruct (LRUCache.find k (entries (run ops fc1))) eqn:Hf; [by destruct Hnone|].
    destruct (get_absent k later _ Hk Hf) as (fc2 & Hg & _). eauto.
Qed.
End CacheRetention.

(** ** Hashing and cache keys *)

Section HashFacts.
Import Utils.

Lemma lxor_mod_pow2 a b n :
  0 <= n -> Z.lxor a b mod 2 ^ n = Z.lxor (a mod 2 ^ n) (b mod 2 ^ n).
Proof.
  intros Hn. apply Z.bits_inj'. intros i Hi.
  rewrite Z.lxor_spec. destruct (Z.lt_ge_cases i n) as [Hlt|Hge].
  - rewrite !Z.mod_pow2_bits_low by lia. by rewrite Z.lxor_spec.
  - rewrite !Z.mod_pow2_bits_high by lia. done.
Qed.

Lemma toInt32_mod z : toInt32 z mod 2 ^ 32 = z mod 2 ^ 32.
Proof.
  unfold toInt32. cbv zeta.
  destruct (z mod 2 ^ 32 <? 2 ^ 31).
  - apply Z.mod_mod. lia.
  - rewrite <- (Z.mod_add _ 1) by lia.
    replace (z mod 2 ^ 32 - 2 ^ 32 + 1 * 2 ^ 32) with (z mod 2 ^ 32) by lia.
    apply Z.mod_mod. lia.
Qed.

Lemma fastHash_step_mod h h' c :
  h mod 2 ^ 32 = h' mod 2 ^ 32 ->
  fastHash_step h c mod 2 ^ 32 = Z.lxor (Z.shiftl h' 5 + h') (charCode c) mod 2 ^ 32.
Proof.
  intros Hh. unfold fastHash_step.
  rewrite lxor_mod_pow2 by lia. rewrite (lxor_mod_pow2 (Z.shiftl h' 5 + h')) by lia.
  f_equal. rewrite toInt32_mod.
  rewrite Z.add_mod by lia. rewrite toInt32_mod.
  rewrite !Z.shiftl_mul_pow2 by lia.
  rewrite (Z.mul_mod h) by lia. rewrite Hh.
  rewrite <- (Z.mul_mod h') by lia. rewrite <- Z.add_mod by lia. done.
Qed.

Lemma fastHash_loop_mod str h h' :
  h mod 2 ^ 32 = h' mod 2 ^ 32 ->
  fastHash_loop h str mod 2 ^ 32 = djb2_loop h' str mod 2 ^ 32.
Proof.
  revert h h'. induction str as [|c str IH]; intros h h' Hh; simpl; [done|].
  apply IH. by apply fastHash_step_mod.
Qed.

(** X13.  The 32-bit arithmetic of [fastHash] computes the DJB2-XOR hash
    over the integers: wrapping to a signed 32-bit value at every shift and
    addition and reading the result as unsigned gives
    [h = (h * 32 + h) XOR c] from 5381, reduced modulo [2^32] once at the
    end; the output is its hexadecimal text. *)
Theorem fastHash_is_djb2 str :
  toUint32 (fastHash_loop 5381 str) = djb2 str /\
  fastHash str = toString16 (djb2 str) /\
  0 <= djb2 str < 2 ^ 32.
Proof.
  assert (H : toUint32 (fastHash_loop 5381 str) = djb2 str).
  { unfold toUint32, djb2. by apply fastHash_loop_mod. }
  split; [done|]. split; [unfold fastHash; by rewrite H|].
  unfold djb2. apply Z.mod_pos_bound. lia.
Qed.
End HashFacts.

Section KeyFacts.
Import Utils.

(** X14.  For flat objects of at most ten keys, the cache key depends on
    the values only through their [String(...)] text: two requests with the
    same keys whose values render to the same text get the same key,
    whatever the types of the values.  So [{id: 1}] and [{id: "1"}] share a
    cache entry, and so do [null] and the string ["null"]. *)
Theorem generateCacheKey_reads_rendered_values JSON_stringify m
    (x y : list (string * jsval)) :
  NoDup (x.*1) -> x.*1 = y.*1 -> (length x <= 10)%nat ->
  Forall (fun kv => isSimpleValue kv.2 = true) x ->
  Forall (fun kv => isSimpleValue kv.2 = true) y ->
  (forall k, k ∈ x.*1 -> String_of (get_prop k x) = String_of (get_prop k y)) ->
  generateCacheKey JSON_stringify m (JObject x) =
  generateCacheKey JSON_stringify m (JObject y).
Proof.
  intros Hnd Hk Hlen Hx Hy Hs.
  assert (Hnd' : NoDup (y.*1)) by (by rewrite <- Hk).
  assert (Hlen' : (length y <= 10)%nat).
  { rewrite <- (length_fmap fst y), <- Hk, length_fmap. done. }
  rewrite !generateCacheKey_simple by done.
  assert (Hsk : sorted_keys y = sorted_keys x) by (unfold sorted_keys; by rewrite Hk).
  rewrite Hsk. do 4 f_equal.
  apply map_ext_in. intros k Hin. do 2 f_equal. apply Hs.
  apply list_elem_of_In in Hin. unfold sorted_keys in Hin.
  by rewrite merge_sort_Permutation in Hin.
Qed.

Lemma generateCacheKey_reads_rendered_values_witness :
  generateCacheKey (fun _ => Ok "") "GetUser" (JObject [("id", JNumber 1); ("tag", JNull)]) =
  generateCacheKey (fun _ => Ok "") "GetUser" (JObject [("id", JString "1"); ("tag", JString "null")]).
Proof.
  refine (generateCacheKey_reads_rendered_values (fun _ => Ok "") "GetUser"
           [("id", JNumber 1); ("tag", JNull)]
           [("id", JString "1"); ("tag", JString "null")] _ _ _ _ _ _).
  - apply (bool_decide_unpack _). vm_compute. exact I.
  - reflexivity.
  - simpl. lia.
  - repeat constructor.
  - repeat constructor.
  - intros k Hk. simpl in Hk.
    apply elem_of_cons in Hk as [->|Hk]; [vm_compute; reflexivity|].
    apply elem_of_cons in Hk as [->|Hk]; [vm_compute; reflexivity|].
    by apply elem_of_nil in Hk.
Defined.
End KeyFacts.

(** ** Wire errors *)

Section WireErrors.
Import CallExecutor.

Lemma retryable_iff (e : JsError) :
  isRetryableError e = true <-> exists c, code e = Some c /\ In c retryableCodes.
Proof.
  unfold isRetryableError. destruct (code e) as [c|].
  - rewrite existsb_exists. split.
    + intros (x & Hin & Heq). apply Z.eqb_eq in Heq. subst. eauto.
    + intros (c' & Hc & Hin). simplify_eq. exists c'. split; [done|]. apply Z.eqb_refl.
  - split; [done|]. by intros (c & ? & _).
Qed.

(** X15.  The error [mapGrpcError] builds from a wire error carries the
    wire code as [code] and as [grpcCode] and the details, or the message
    when the details are missing or empty, as its message.  It is retryable
    exactly when the code is 4, 8, 10 or 14, a connection error exactly when
    the code is 14, and every connection error is retryable. *)
Theorem mapGrpcError_classification (se : ServiceError) :
  let e := mapGrpcError se in
  code e = Some (se_code se) /\ grpcCode e = Some (se_code se) /\
  (isRetryableError e = true <-> se_code se ∈ [4; 8; 10; 14]) /\
  (isConnectionError e = true <-> se_code se = 14) /\
  (isConnectionError e = true -> isRetryableError e = true) /\
  (message e = match se_details se with
               | Some d => if String.eqb d "" then se_message se else d
               | None => se_message se
               end).
Proof.
  cbv zeta. split; [done|]. split; [done|].
  assert (Hr : isRetryableError (mapGrpcError se) = true <-> se_code se ∈ [4; 8; 10; 14]).
  { rewrite retryable_iff. simpl. unfold UNAVAILABLE, DEADLINE_EXCEEDED, RESOURCE_EXHAUSTED, ABORTED.
    rewrite !elem_of_cons, elem_of_nil. split.
    - intros (c & Hc & Hin). simplify_eq. lia.
    - intros H. exists (se_code se). split; [done|]. lia. }
  assert (Hc : isConnectionError (mapGrpcError se) = true <-> se_code se = 14).
  { unfold isConnectionError. simpl. unfold UNAVAILABLE. apply Z.eqb_eq. }
  split; [done|]. split; [done|]. split.
  - intros H. apply Hr. apply Hc in H. rewrite H. rewrite !elem_of_cons. tauto.
  - simpl. unfold details_or_message. destruct (se_details se) as [[|a d]|]; done.
Qed.
End WireErrors.

(** ** Calls: counters, backoff and fallback *)

Section CallAccounting.
Import Client.
Context {R : Type}.
Variable JSON_stringify : Utils.jsval -> Result string.

Local Abbreviation total c := (MetricsTracker.totalCalls (metricsTracker c)).
Local Abbreviation succeeded c := (MetricsTracker.successfulCalls (metricsTracker c)).
Local Abbreviation failed c := (MetricsTracker.failedCalls (metricsTracker c)).
Local Abbreviation retries c := (MetricsTracker.totalRetries (metricsTracker c)).
Local Abbreviation keyOf options methodName request :=
  (effectiveCacheKeyOf JSON_stringify options methodName request).

Lemma isBlank_colon m rest : FallbackCache.isBlank (m +:+ String ":" rest) = false.
Proof.
  induction m as [|a m IH]; simpl; [done|]. rewrite IH. apply andb_false_r.
Qed.

(** The generated keys always pass the cache's key validation. *)
Lemma generateCacheKey_valid methodName request key :
  Utils.generateCacheKey JSON_stringify methodName request = Ok key ->
  FallbackCache.validKey key = true.
Proof.
  rewrite validKey_blank. intros Hk. apply negb_true_iff. revert Hk.
  unfold Utils.generateCacheKey.
  destruct request; try (intros H; simplify_eq; apply isBlank_colon).
  destruct (_ && _); [intros H; simplify_eq; apply isBlank_colon|].
  destruct (JSON_stringify _); intros H; simplify_eq. apply isBlank_colon.
Qed.

Lemma effectiveCacheKeyOf_valid options methodName request key :
  usableKey options = true ->
  keyOf options methodName request = Ok key ->
  FallbackCache.validKey key = true.
Proof.
  unfold usableKey, effectiveCacheKeyOf. destruct (cacheKey options) as [[|a k]|].
  - intros _. apply generateCacheKey_valid.
  - simpl. intros H Hk. simplify_eq. by rewrite validKey_blank.
  - intros _. apply generateCacheKey_valid.
Qed.

Lemma handleServiceUnavailable_config key useCache now (c c1 : Client.t R) r :
  handleServiceUnavailable key useCache now c = (c1, r) ->
  config c1 = config c /\ connectionManager c1 = connectionManager c.
Proof.
  unfold handleServiceUnavailable. destruct useCache; [|intros H; by simplify_eq].
  destruct (FallbackCache.get key now (fallbackCache c)) as [[[cached|] fc]|e];
    intros H; by simplify_eq.
Qed.

Lemma set_default_ttl_Ok key (v : R) now (fc : FallbackCache.t R) :
  FallbackCache.validKey key = true ->
  FallbackCache.set key v None now fc =
  Ok (FallbackCache.with_cache fc
        (LRUCache.set key {| FallbackCache.data := v; FallbackCache.timestamp := now |}
           (FallbackCache.storeTtl (FallbackCache.defaultTtlMs fc)) now (FallbackCache.cache fc))).
Proof. intros Hk. unfold FallbackCache.set. by rewrite Hk. Qed.

Lemma executeCallAttempt_counts (env : AttemptEnv R) methodName key useCache
    (c c1 : Client.t R) r :
  executeCallAttempt env methodName key useCache c = (c1, r) ->
  config c1 = config c /\ total c1 = total c /\ failed c1 = failed c /\
  (succeeded c <= succeeded c1 <= S (succeeded c))%nat /\
  (forall e, r = Throw e ->
     (useCache = false \/ FallbackCache.validKey key = true \/
      CallExecutor.isRetryableError e = true) ->
     succeeded c1 = succeeded c).
Proof.
  unfold executeCallAttempt.
  destruct (ConnectionManager.ensureConnected _ _ _ _ _) as [cm [[|]|e0]].
  - destruct (ConnectionManager.client cm).
    2:{ intros H; simplify_eq. cbn. repeat split; lia. }
    destruct (CallExecutor.executeGrpcCall _ _ _) as [resp|e1].
    2:{ intros H; simplify_eq. cbn. repeat split; lia. }
    destruct useCache.
    2:{ intros H; simplify_eq. cbn. repeat split; try lia. intros e He. done. }
    destruct (FallbackCache.set _ _ _ _ _) as [fc|e1] eqn:Hset; intros H; simplify_eq; cbn.
    + repeat split; try lia. intros e He. done.
    + repeat split; try lia. intros e He [Hu|[Hk|Hr]]; [done| |].
      * cbn in Hset. rewrite set_default_ttl_Ok in Hset by done. done.
      * simplify_eq. apply set_throws_uncoded in Hset.
        unfold CallExecutor.isRetryableError in Hr. by rewrite Hset in Hr.
  - intros H. pose proof (handleServiceUnavailable_config _ _ _ _ _ _ H) as [Hc _].
    apply handleServiceUnavailable_frame in H as (_ & _ & Hs & Hf & Ht).
    cbn in *. rewrite Hs, Hf, Ht. repeat split; try done; lia.
  - intros H; simplify_eq. cbn. repeat split; lia.
Qed.

Lemma handleRetryAttempt_counts (env : AttemptEnv R) attempt e maxAttempts (c : Client.t R) :
  let c1 := (handleRetryAttempt env attempt e maxAttempts c).1 in
  config c1 = config c /\ total c1 = total c /\ failed c1 = failed c /\
  succeeded c1 = succeeded c /\ fallbackCache c1 = fallbackCache c.
Proof.
  unfold handleRetryAttempt.
  destruct (0 <? attempt)%nat, (negb (CallExecutor.isRetryableError e) || _),
    (CallExecutor.isConnectionError e); cbn; done.
Qed.

(** A retry is granted only for a retryable error, below the last attempt. *)
Lemma handleRetryAttempt_retryable (env : AttemptEnv R) attempt e maxAttempts (c : Client.t R) :
  (handleRetryAttempt env attempt e maxAttempts c).2 = true ->
  CallExecutor.isRetryableError e = true /\ (S attempt < maxAttempts)%nat.
Proof.
  unfold handleRetryAttempt.
  destruct (CallExecutor.isRetryableError e); simpl; [|by destruct (0 <? attempt)%nat].
  destruct (maxAttempts - 1 <=? attempt)%nat eqn:Hle; simpl; [done|].
  intros _. split; [done|]. apply Nat.leb_gt in Hle. lia.
Qed.

Lemma tryFallbackCache_counts key useCache now (c c1 : Client.t R) r :
  tryFallbackCache key useCache now c = (c1, r) ->
  config c1 = config c /\ total c1 = total c /\ failed c1 = failed c /\
  succeeded c1 = succeeded c /\ slept c1 = slept c /\
  connectionManager c1 = connectionManager c /\ retries c1 = retries c.
Proof.
  unfold tryFallbackCache. destruct useCache; simpl; [|intros H; by simplify_eq].
  destruct (FallbackCache.get key now (fallbackCache c)) as [[[cached|] fc]|e];
    intros H; by simplify_eq.
Qed.

Lemma call_loop_counts (envs : nat -> AttemptEnv R) methodName key useCache maxAttempts
    remaining attempt lastError (c c' : Client.t R) exit :
  call_loop envs methodName key useCache maxAttempts remaining attempt lastError c = (c', exit) ->
  config c' = config c /\ total c' = total c /\ failed c' = failed c /\
  (succeeded c <= succeeded c' <= S (succeeded c))%nat /\
  (useCache = false \/ FallbackCache.validKey key = true ->
   forall le, exit = Exited le -> succeeded c' = succeeded c).
Proof.
  revert attempt lastError c.
  induction remaining as [|remaining IH]; intros attempt lastError c; simpl.
  { intros H; simplify_eq. repeat split; lia. }
  destruct (executeCallAttempt (envs attempt) methodName key useCache c) as [c1 [resp|e]] eqn:Hexec.
  - intros H; simplify_eq.
    apply executeCallAttempt_counts in Hexec as (? & ? & ? & ? & _).
    repeat split; try done; try lia.
  - apply executeCallAttempt_counts in Hexec as (Hc & Ht & Hf & Hs & Hthrow).
    specialize (Hthrow e eq_refl).
    pose proof (handleRetryAttempt_retryable (envs attempt) attempt e maxAttempts c1) as Hretry.
    pose proof (handleRetryAttempt_counts (envs attempt) attempt e maxAttempts c1)
      as (Hc2 & Ht2 & Hf2 & Hs2 & _).
    destruct (handleRetryAttempt (envs attempt) attempt e maxAttempts c1) as [c2 [|]];
      cbn [fst] in *.
    + intros Hloop. apply IH in Hloop as (Hc3 & Ht3 & Hf3 & Hs3 & Hex).
      assert (Hsame : succeeded c1 = succeeded c) by (apply Hthrow; right; right; by apply Hretry).
      split; [congruence|]. split; [congruence|]. split; [congruence|]. split; [lia|].
      intros Hv le Hle. rewrite (Hex Hv le Hle). lia.
    + intros H; simplify_eq. split; [congruence|]. split; [congruence|].
      split; [congruence|]. split; [lia|].
      intros Hv le _. rewrite Hs2. apply Hthrow. tauto.
Qed.

(** What one call does to the counters.  A call that rejects while its
    cache key is generated leaves the client as it was. *)
Lemma call_counts (envs : nat -> AttemptEnv R) finalNow methodName request options
    (c c' : Client.t R) r :
  call JSON_stringify envs finalNow methodName request options c = (c', r) ->
  config c' = config c /\
  match keyOf options methodName request with
  | Throw e => c' = c /\ r = Throw e
  | Ok key =>
      total c' = S (total c) /\
      (succeeded c <= succeeded c' <= S (succeeded c))%nat /\
      (failed c <= failed c' <= S (failed c))%nat /\
      (forall e, r = Throw e -> failed c' = S (failed c)) /\
      (useCacheOf c options = false \/ FallbackCache.validKey key = true ->
       (succeeded c' + failed c' <= S (succeeded c + failed c))%nat /\
       (forall e, r = Throw e -> succeeded c' = succeeded c))
  end.
Proof.
  unfold call. fold (useCacheOf c options).
  destruct (keyOf options methodName request) as [key|e0]; [|intros H; by simplify_eq].
  set (maxAttempts := if skipRetry options then 1%nat else (retryCount (config c) + 1)%nat).
  set (c0 := set_metrics (MetricsTracker.recordCallStart (metricsTracker c)) c).
  destruct (call_loop envs methodName key (useCacheOf c options) maxAttempts maxAttempts 0 None c0)
    as [c1 [response|lastError]] eqn:Hloop;
    apply call_loop_counts in Hloop as (Hc & Ht & Hf & Hs & Hex).
  - intros H; simplify_eq. subst c0. cbn in *.
    split; [done|]. split; [done|]. split; [lia|]. split; [lia|]. split; [done|].
    intros Hv. split; [lia|done].
  - set (c2 := set_metrics (MetricsTracker.recordFailure (metricsTracker c1)) c1).
    destruct (tryFallbackCache key (useCacheOf c options) finalNow c2) as [c3 r3] eqn:Htry.
    apply tryFallbackCache_counts in Htry as (Hc3 & Ht3 & Hf3 & Hs3 & _).
    subst c0 c2. cbn in *.
    destruct r3 as [[cached|]|e]; intros H; simplify_eq;
      (split; [congruence|]; split; [lia|]; split; [lia|]; split; [lia|];
       split; [intros; lia|];
       intros Hv; specialize (Hex Hv _ eq_refl); split; [lia|intros; lia]).
Qed.

End CallAccounting.

Section CallOutcomes.
Import Client CallExecutor.
Context {R : Type}.
Variable JSON_stringify : Utils.jsval -> Result string.

Local Abbreviation succeeded c := (MetricsTracker.successfulCalls (metricsTracker c)).
Local Abbreviation failed c := (MetricsTracker.failedCalls (metricsTracker c)).
Local Abbreviation retries c := (MetricsTracker.totalRetries (metricsTracker c)).
Local Abbreviation keyOf options methodName request :=
  (effectiveCacheKeyOf JSON_stringify options methodName request).
Local Abbreviation maxAttemptsOf c options :=
  (if skipRetry options then 1%nat else (retryCount (config c) + 1)%nat).
Local Abbreviation delay c i := (retryDelayMs (config c) * 2 ^ Z.of_nat i).

Lemma ensureConnected_connected now rnd f r s :
  ConnectionManager.isConnected s = true ->
  ConnectionManager.ensureConnected now rnd f r s = (s, Ok true) /\
  is_Some (ConnectionManager.client s).
Proof.
  intros Hc. unfold ConnectionManager.ensureConnected. rewrite Hc. split; [done|].
  by apply isConnected_iff in Hc as [_ ?].
Qed.

(** From a manager that takes a new connect, with a factory that returns
    and a channel that becomes ready, [ensureConnected] resolves to [true]
    and leaves the manager connected. *)
Lemma ensureConnected_succeeds now rnd h s :
  ConnectionManager.operable s ->
  exists s',
    ConnectionManager.ensureConnected now rnd (ConnectionManager.FactoryReturns h)
      ConnectionManager.ReadyOk s = (s', Ok true) /\
    ConnectionManager.isConnected s' = true /\ ConnectionManager.operable s'.
Proof.
  intros [Hsd Hp]. unfold ConnectionManager.ensureConnected.
  destruct (ConnectionManager.isConnected s) eqn:Hc; [by exists s|].
  rewrite Hp. unfold ConnectionManager.connect_start. rewrite Hsd.
  set (s0 := ConnectionManager.set_connectPromise true _).
  destruct (handleConnectionSuccess_frame now s0) as (Hst & Hcl & Hsd' & _).
  unfold ConnectionManager.connect_finish, ConnectionManager.ensureConnected_resume.
  rewrite Hst. cbn [ConnectionManager.ConnectionState_eqb].
  eexists. split; [reflexivity|]. split.
  - apply isConnected_iff.
    change (ConnectionManager.state (ConnectionManager.handleConnectionSuccess now s0) =
              ConnectionManager.CONNECTED /\
            is_Some (ConnectionManager.client (ConnectionManager.handleConnectionSuccess now s0))).
    rewrite Hst, Hcl. split; [done|]. subst s0. cbn. eauto.
  - split; [|done].
    change (ConnectionManager.isShuttingDown (ConnectionManager.handleConnectionSuccess now s0)
            = false).
    rewrite Hsd'. subst s0. cbn. done.
Qed.

Lemma handleConnectionLost_operable rnd s :
  ConnectionManager.operable s ->
  ConnectionManager.operable (ConnectionManager.handleConnectionLost rnd s).
Proof.
  intros [Hsd Hp]. unfold ConnectionManager.operable, ConnectionManager.handleConnectionLost.
  destruct (negb _); [done|].
  match goal with |- context [ConnectionManager.scheduleReconnect rnd ?x] =>
    destruct (scheduleReconnect_frame rnd x) as (_ & _ & -> & -> & _) end.
  destruct (ConnectionManager.client s) eqn:Hcl; unfold ConnectionManager.close_client; cbn;
    rewrite ?Hcl; done.
Qed.

Lemma set_manager_same (c : Client.t R) : set_manager (connectionManager c) c = c.
Proof. by destruct c. Qed.

Lemma maxAttempts_pos options (c : Client.t R) : exists n, maxAttemptsOf c options = S n.
Proof.
  destruct (skipRetry options); [by exists 0%nat|]. exists (retryCount (config c)). lia.
Qed.

(** An attempt the transport answers with an error. *)
Lemma attempt_error (env : AttemptEnv R) methodName key useCache (c : Client.t R) h se :
  ConnectionManager.operable (connectionManager c) ->
  env_factory env = ConnectionManager.FactoryReturns h ->
  env_ready env = ConnectionManager.ReadyOk ->
  env_invoke env = InvokeError se ->
  exists c1,
    executeCallAttempt env methodName key useCache c = (c1, Throw (mapGrpcError se)) /\
    ConnectionManager.operable (connectionManager c1) /\
    slept c1 = slept c /\ metricsTracker c1 = metricsTracker c /\
    config c1 = config c /\ fallbackCache c1 = fallbackCache c.
Proof.
  intros Hop Hf Hr Hi. unfold executeCallAttempt. rewrite Hf, Hr.
  destruct (ensureConnected_succeeds (env_now env) (env_rnd env) h _ Hop)
    as (s' & -> & Hcon & Hop').
  apply isConnected_iff in Hcon as [_ [h' Hh]]. rewrite Hh, Hi. cbn [executeGrpcCall].
  eexists. split; [reflexivity|]. done.
Qed.

(** An attempt the transport answers. *)
Lemma attempt_ok (env : AttemptEnv R) methodName key useCache (c : Client.t R) h response :
  ConnectionManager.operable (connectionManager c) ->
  useCache = false \/ FallbackCache.validKey key = true ->
  env_factory env = ConnectionManager.FactoryReturns h ->
  env_ready env = ConnectionManager.ReadyOk ->
  env_invoke env = InvokeOk response ->
  exists c1,
    executeCallAttempt env methodName key useCache c = (c1, Ok response) /\
    slept c1 = slept c /\ retries c1 = retries c /\
    succeeded c1 = S (succeeded c) /\ failed c1 = failed c /\ config c1 = config c.
Proof.
  intros Hop Hv Hf Hr Hi. unfold executeCallAttempt. rewrite Hf, Hr.
  destruct (ensureConnected_succeeds (env_now env) (env_rnd env) h _ Hop)
    as (s' & -> & Hcon & Hop').
  apply isConnected_iff in Hcon as [_ [h' Hh]]. rewrite Hh, Hi. cbn [executeGrpcCall].
  destruct useCache.
  - destruct Hv as [?|Hk]; [done|]. rewrite set_default_ttl_Ok by done.
    eexists. split; [reflexivity|]. done.
  - eexists. split; [reflexivity|]. done.
Qed.

(** The failure handler grants a retry for a retryable error below the last
    attempt, after one backoff sleep; a retry is counted when the attempt
    that failed was one. *)
Lemma retry_granted (env : AttemptEnv R) attempt e maxAttempts (c : Client.t R) :
  isRetryableError e = true -> (S attempt < maxAttempts)%nat ->
  ConnectionManager.operable (connectionManager c) ->
  exists c2,
    handleRetryAttempt env attempt e maxAttempts c = (c2, true) /\
    ConnectionManager.operable (connectionManager c2) /\
    slept c2 = (slept c ++ [delay c attempt])%list /\
    retries c2 = (retries c + if (0 <? attempt)%nat then 1 else 0)%nat /\
    succeeded c2 = succeeded c /\ failed c2 = failed c /\
    config c2 = config c /\ fallbackCache c2 = fallbackCache c.
Proof.
  intros He Hlt Hop. unfold handleRetryAttempt. rewrite He. cbn [negb orb].
  assert (Hle : (maxAttempts - 1 <=? attempt)%nat = false) by (apply Nat.leb_gt; lia).
  rewrite Hle.
  destruct (0 <? attempt)%nat, (isConnectionError e); cbn;
    (eexists; split; [reflexivity|]; cbn;
     split; [try done; by apply handleConnectionLost_operable|];
     split; [done|]; split; [lia|]; done).
Qed.

(** On the last attempt the handler grants none and does not sleep. *)
Lemma retry_refused (env : AttemptEnv R) attempt e maxAttempts (c : Client.t R) :
  (maxAttempts - 1 <= attempt)%nat ->
  exists c2,
    handleRetryAttempt env attempt e maxAttempts c = (c2, false) /\
    slept c2 = slept c /\
    retries c2 = (retries c + if (0 <? attempt)%nat then 1 else 0)%nat /\
    succeeded c2 = succeeded c /\ failed c2 = failed c /\
    config c2 = config c /\ fallbackCache c2 = fallbackCache c /\
    connectionManager c2 = connectionManager c.
Proof.
  intros Hle. unfold handleRetryAttempt.
  rewrite (proj2 (Nat.leb_le _ _) Hle), orb_true_r.
  destruct (0 <? attempt)%nat; cbn; (eexists; split; [reflexivity|]; cbn);
    repeat split; lia.
Qed.

(** The loop when the transport fails retryably [j] times from attempt [a]
    on and then answers. *)
Lemma call_loop_recovers (envs : nat -> AttemptEnv R) methodName key useCache maxAttempts
    response :
  useCache = false \/ FallbackCache.validKey key = true ->
  forall j a lastError (c : Client.t R),
    ConnectionManager.operable (connectionManager c) ->
    (a + j < maxAttempts)%nat ->
    (forall i, (a <= i <= a + j)%nat ->
       (exists h, env_factory (envs i) = ConnectionManager.FactoryReturns h) /\
       env_ready (envs i) = ConnectionManager.ReadyOk) ->
    (forall i, (a <= i < a + j)%nat ->
       exists se, env_invoke (envs i) = InvokeError se /\
                  isRetryableError (mapGrpcError se) = true) ->
    env_invoke (envs (a + j)%nat) = InvokeOk response ->
    exists c',
      call_loop envs methodName key useCache maxAttempts (maxAttempts - a) a lastError c
        = (c', Returned response) /\
      slept c' = (slept c ++ map (fun i => delay c i) (seq a j))%list /\
      retries c' = (retries c + (j - if (0 <? a)%nat then 0 else 1))%nat /\
      succeeded c' = S (succeeded c) /\ failed c' = failed c /\ config c' = config c.
Proof.
  intros Hv. induction j as [|j IH]; intros a lastError c Hop Hlt Hcon Hfail Hok.
  - destruct (maxAttempts - a)%nat as [|rem] eqn:Hrem; [lia|]. cbn [call_loop].
    rewrite Nat.add_0_r in Hok.
    destruct (Hcon a) as [[h Hf] Hr]; [lia|].
    destruct (attempt_ok (envs a) methodName key useCache c h response Hop Hv Hf Hr Hok)
      as (c1 & -> & Hs & Hre & Hsu & Hfa & Hcf).
    exists c1. split; [done|]. simpl. rewrite app_nil_r.
    repeat split; try done. rewrite Hre. destruct (0 <? a)%nat; lia.
  - destruct (maxAttempts - a)%nat as [|rem] eqn:Hrem; [lia|]. cbn [call_loop].
    destruct (Hcon a) as [[h Hf] Hr]; [lia|].
    destruct (Hfail a) as (se & Hi & Hre); [lia|].
    destruct (attempt_error (envs a) methodName key useCache c h se Hop Hf Hr Hi)
      as (c1 & -> & Hop1 & Hs1 & Hm1 & Hc1 & _).
    destruct (retry_granted (envs a) a (mapGrpcError se) maxAttempts c1 Hre ltac:(lia) Hop1)
      as (c2 & -> & Hop2 & Hs2 & Hr2 & Hsu2 & Hfa2 & Hc2 & _).
    assert (Hrem' : rem = (maxAttempts - S a)%nat) by lia. rewrite Hrem'.
    destruct (IH (S a) (Some (mapGrpcError se)) c2 Hop2) as (c' & Hloop & Hs & Hr' & Hsu & Hfa & Hcf).
    + lia.
    + intros i Hi'. apply Hcon. lia.
    + intros i Hi'. apply Hfail. lia.
    + by rewrite Nat.add_succ_comm.
    + exists c'. split; [exact Hloop|].
      rewrite Hs, Hr', Hsu, Hfa, Hcf, Hs2, Hr2, Hsu2, Hfa2, Hc2, Hs1, Hm1, Hc1.
      split; [simpl; by rewrite <- app_assoc|].
      split; [change (0 <? S a)%nat with true; destruct (0 <? a)%nat; lia|]. done.
Qed.

(** The loop when the transport fails retryably on every attempt left. *)
Lemma call_loop_exhausts (envs : nat -> AttemptEnv R) methodName key useCache maxAttempts :
  forall j a lastError (c : Client.t R),
    ConnectionManager.operable (connectionManager c) ->
    (a + S j = maxAttempts)%nat ->
    (forall i, (a <= i < maxAttempts)%nat ->
       (exists h, env_factory (envs i) = ConnectionManager.FactoryReturns h) /\
       env_ready (envs i) = ConnectionManager.ReadyOk) ->
    (forall i, (a <= i < maxAttempts)%nat ->
       exists se, env_invoke (envs i) = InvokeError se /\
                  isRetryableError (mapGrpcError se) = true) ->
    exists c' se,
      call_loop envs methodName key useCache maxAttempts (maxAttempts - a) a lastError c
        = (c', Exited (Some (mapGrpcError se))) /\
      env_invoke (envs (maxAttempts - 1)%nat) = InvokeError se /\
      slept c' = (slept c ++ map (fun i => delay c i) (seq a j))%list /\
      retries c' = (retries c + (S j - if (0 <? a)%nat then 0 else 1))%nat /\
      succeeded c' = succeeded c /\ failed c' = failed c /\ config c' = config c /\
      fallbackCache c' = fallbackCache c.
Proof.
  induction j as [|j IH]; intros a lastError c Hop Hsum Hcon Hfail.
  - destruct (maxAttempts - a)%nat as [|rem] eqn:Hrem; [lia|]. cbn [call_loop].
    destruct (Hcon a) as [[h Hf] Hr]; [lia|].
    destruct (Hfail a) as (se & Hi & Hre); [lia|].
    destruct (attempt_error (envs a) methodName key useCache c h se Hop Hf Hr Hi)
      as (c1 & -> & Hop1 & Hs1 & Hm1 & Hc1 & Hfc1).
    destruct (retry_refused (envs a) a (mapGrpcError se) maxAttempts c1 ltac:(lia))
      as (c2 & -> & Hs2 & Hr2 & Hsu2 & Hfa2 & Hc2 & Hfc2 & _).
    exists c2, se. split; [done|].
    replace (maxAttempts - 1)%nat with a by lia. split; [done|].
    rewrite Hs2, Hr2, Hsu2, Hfa2, Hc2, Hfc2, Hs1, Hm1, Hc1, Hfc1. simpl. rewrite app_nil_r.
    repeat split; try done. destruct (0 <? a)%nat; lia.
  - destruct (maxAttempts - a)%nat as [|rem] eqn:Hrem; [lia|]. cbn [call_loop].
    destruct (Hcon a) as [[h Hf] Hr]; [lia|].
    destruct (Hfail a) as (se & Hi & Hre); [lia|].
    destruct (attempt_error (envs a) methodName key useCache c h se Hop Hf Hr Hi)
      as (c1 & -> & Hop1 & Hs1 & Hm1 & Hc1 & Hfc1).
    destruct (retry_granted (envs a) a (mapGrpcError se) maxAttempts c1 Hre ltac:(lia) Hop1)
      as (c2 & -> & Hop2 & Hs2 & Hr2 & Hsu2 & Hfa2 & Hc2 & Hfc2).
    assert (Hrem' : rem = (maxAttempts - S a)%nat) by lia. rewrite Hrem'.
    destruct (IH (S a) (Some (mapGrpcError se)) c2 Hop2)
      as (c' & se' & Hloop & Hlast & Hs & Hr' & Hsu & Hfa & Hcf & Hfc).
    + lia.
    + intros i Hi'. apply Hcon. lia.
    + intros i Hi'. apply Hfail. lia.
    + exists c', se'. split; [exact Hloop|]. split; [exact Hlast|].
      rewrite Hs, Hr', Hsu, Hfa, Hcf, Hfc, Hs2, Hr2, Hsu2, Hfa2, Hc2, Hfc2, Hs1, Hm1, Hc1, Hfc1.
      split; [simpl; by rewrite <- app_assoc|].
      split; [change (0 <? S a)%nat with true; destruct (0 <? a)%nat; lia|]. done.
Qed.

Lemma handleRetryAttempt_sleeps (env : AttemptEnv R) attempt e maxAttempts (c : Client.t R) :
  slept (handleRetryAttempt env attempt e maxAttempts c).1 =
  (slept c ++ if (handleRetryAttempt env attempt e maxAttempts c).2
              then [delay c attempt] else [])%list.
Proof.
  unfold handleRetryAttempt.
  destruct (0 <? attempt)%nat, (negb (CallExecutor.isRetryableError e) || _),
    (CallExecutor.isConnectionError e); cbn; by rewrite ?app_nil_r.
Qed.

Lemma call_loop_backoff (envs : nat -> AttemptEnv R) methodName key useCache maxAttempts
    remaining attempt lastError (c c' : Client.t R) exit :
  call_loop envs methodName key useCache maxAttempts remaining attempt lastError c = (c', exit) ->
  (attempt + remaining = maxAttempts)%nat ->
  exists k, (k <= remaining - 1)%nat /\
    slept c' = (slept c ++ map (fun i => delay c i) (seq attempt k))%list.
Proof.
  revert attempt lastError c.
  induction remaining as [|remaining IH]; intros attempt lastError c; simpl.
  { intros H _. simplify_eq. exists 0%nat. split; [done|]. by rewrite app_nil_r. }
  destruct (executeCallAttempt (envs attempt) methodName key useCache c) as [c1 [resp|e]] eqn:Hexec.
  - intros H _; simplify_eq. apply executeCallAttempt_frame in Hexec as [-> _].
    exists 0%nat. split; [lia|]. by rewrite app_nil_r.
  - pose proof (executeCallAttempt_counts _ _ _ _ _ _ _ Hexec) as (Hc & _).
    apply executeCallAttempt_frame in Hexec as [Hs _].
    pose proof (handleRetryAttempt_sleeps (envs attempt) attempt e maxAttempts c1) as Hsl.
    pose proof (handleRetryAttempt_retryable (envs attempt) attempt e maxAttempts c1) as Hre.
    pose proof (handleRetryAttempt_counts (envs attempt) attempt e maxAttempts c1) as (Hc2 & _).
    destruct (handleRetryAttempt (envs attempt) attempt e maxAttempts c1) as [c2 [|]];
      cbn [fst snd] in *.
    + intros Hloop Hsum. destruct (Hre eq_refl) as [_ Hlt].
      apply IH in Hloop as (k & Hk & Hloop); [|lia].
      exists (S k). split; [lia|]. rewrite Hloop, Hsl, Hs, Hc2, Hc. simpl.
      by rewrite <- app_assoc.
    + intros H _; simplify_eq. exists 0%nat. split; [lia|].
      rewrite Hsl, Hs. done.
Qed.

(** X17.  The backoff of one call whose cache key is usable, on a manager
    that is free to connect.  The sleeps the call adds are always
    [retryDelayMs * 2^0, retryDelayMs * 2^1, ...] in this order, fewer than
    the number of attempts allowed ([retryCount + 1], or 1 under
    [skipRetry]).  Their number is the number of retries made: when the
    transport fails retryably [j] times and then answers, the call returns
    that answer after exactly the first [j] delays, with [j - 1] retries
    counted; when it fails retryably on every attempt allowed, the call makes
    them all, sleeps between them and not after the last, counts one retry
    per attempt after the first and one failure, and with the cache off
    throws the last mapped error. *)
Theorem call_backoff (envs : nat -> AttemptEnv R) finalNow methodName request options
    (c : Client.t R) key :
  keyOf options methodName request = Ok key ->
  useCacheOf c options = false \/ FallbackCache.validKey key = true ->
  ConnectionManager.operable (connectionManager c) ->
  let maxAttempts := maxAttemptsOf c options in
  let run := call JSON_stringify envs finalNow methodName request options c in
  (exists k, (k < maxAttempts)%nat /\ slept run.1 = (slept c ++ backoff c k)%list) /\
  (forall j response,
     (j < maxAttempts)%nat -> connects envs (S j) -> failsRetryably envs j ->
     env_invoke (envs j) = InvokeOk response ->
     run.2 = Ok response /\
     slept run.1 = (slept c ++ backoff c j)%list /\
     retries run.1 = (retries c + (j - 1))%nat /\
     succeeded run.1 = S (succeeded c) /\ failed run.1 = failed c) /\
  (connects envs maxAttempts -> failsRetryably envs maxAttempts ->
     slept run.1 = (slept c ++ backoff c (maxAttempts - 1))%list /\
     retries run.1 = (retries c + (maxAttempts - 1))%nat /\
     succeeded run.1 = succeeded c /\ failed run.1 = S (failed c) /\
     exists se, env_invoke (envs (maxAttempts - 1)%nat) = InvokeError se /\
                (useCacheOf c options = false -> run.2 = Throw (mapGrpcError se))).
Proof.
  intros Hkey Hv Hop maxAttempts run. subst run. unfold call. rewrite Hkey.
  fold (useCacheOf c options). fold maxAttempts.
  set (c0 := set_metrics (MetricsTracker.recordCallStart (metricsTracker c)) c).
  assert (Hop0 : ConnectionManager.operable (connectionManager c0)) by done.
  split; [|split].
  - destruct (call_loop envs methodName key (useCacheOf c options) maxAttempts maxAttempts 0
                None c0) as [c1 exit] eqn:Hloop.
    apply call_loop_backoff in Hloop as (k & Hk & Hsl); [|done].
    assert (Hk' : (k < maxAttempts)%nat).
    { subst maxAttempts. destruct (skipRetry options); lia. }
    exists k. split; [done|]. destruct exit as [response|lastError]; [exact Hsl|].
    set (c2 := set_metrics (MetricsTracker.recordFailure (metricsTracker c1)) c1).
    destruct (tryFallbackCache key (useCacheOf c options) finalNow c2) as [c3 r3] eqn:Htry.
    apply tryFallbackCache_counts in Htry as (_ & _ & _ & _ & Hs3 & _).
    assert (Hs : slept c3 = (slept c ++ backoff c k)%list) by (rewrite Hs3; exact Hsl).
    by destruct r3 as [[cached|]|e].
  - intros j response Hj Hcon Hfail Hok.
    destruct (call_loop_recovers envs methodName key (useCacheOf c options) maxAttempts
                response Hv j 0%nat None c0 Hop0) as (c1 & Hloop & Hs & Hr & Hsu & Hfa & _).
    + lia.
    + intros i Hi. apply Hcon. lia.
    + intros i Hi. apply Hfail. lia.
    + exact Hok.
    + rewrite Nat.sub_0_r in Hloop. rewrite Hloop. cbn [fst snd].
      split; [done|]. split; [exact Hs|]. split; [exact Hr|]. done.
  - intros Hcon Hfail.
    assert (Hpos : (0 + S (maxAttempts - 1) = maxAttempts)%nat).
    { subst maxAttempts. destruct (skipRetry options); lia. }
    destruct (call_loop_exhausts envs methodName key (useCacheOf c options) maxAttempts
                (maxAttempts - 1) 0%nat None c0 Hop0 Hpos)
      as (c1 & se & Hloop & Hlast & Hs & Hr & Hsu & Hfa & Hcf & Hfc).
    + intros i Hi. apply Hcon. lia.
    + intros i Hi. apply Hfail. lia.
    + rewrite Nat.sub_0_r in Hloop. rewrite Hloop.
      set (c2 := set_metrics (MetricsTracker.recordFailure (metricsTracker c1)) c1).
      destruct (tryFallbackCache key (useCacheOf c options) finalNow c2) as [c3 r3] eqn:Htry.
      pose proof (tryFallbackCache_counts _ _ _ _ _ _ Htry)
        as (_ & _ & Hf3 & Hsu3 & Hs3 & _ & Hr3).
      assert (Hfacts : slept c3 = (slept c ++ backoff c (maxAttempts - 1))%list /\
                       retries c3 = (retries c + (maxAttempts - 1))%nat /\
                       succeeded c3 = succeeded c /\ failed c3 = S (failed c)).
      { rewrite Hs3, Hr3, Hsu3, Hf3. subst c2. cbn. rewrite Hs, Hr, Hsu, Hfa. cbn.
        repeat split; try done. lia. }
      destruct Hfacts as (F1 & F2 & F3 & F4).
      assert (Hoff : useCacheOf c options = false -> r3 = Ok None).
      { intros Hu. rewrite Hu in Htry. unfold tryFallbackCache in Htry. cbn in Htry.
        by simplify_eq. }
      destruct r3 as [[cached|]|e]; cbn [fst snd];
        (split; [exact F1|]; split; [exact F2|]; split; [exact F3|]; split; [exact F4|];
         exists se; split; [exact Hlast|]; intros Hu; specialize (Hoff Hu); by simplify_eq).
Qed.

Lemma unlisted_code_not_retryable (se : ServiceError) :
  se_code se ∉ [4; 8; 10; 14] -> isRetryableError (mapGrpcError se) = false.
Proof.
  intros Hcode. apply not_true_is_false. intros Hr.
  apply retryable_iff in Hr as (k & Hk & Hin). simpl in Hk. simplify_eq.
  apply Hcode. unfold retryableCodes, UNAVAILABLE, DEADLINE_EXCEEDED, RESOURCE_EXHAUSTED,
    ABORTED in Hin. simpl in Hin. rewrite !elem_of_cons. lia.
Qed.

Lemma valid_get_Ok key now (fc : FallbackCache.t R) :
  FallbackCache.validKey key = true ->
  exists o fc1, FallbackCache.get key now fc = Ok (o, fc1).
Proof.
  intros Hk. unfold FallbackCache.get. rewrite Hk. cbn.
  destruct (LRUCache.get _ _ _) as [[e|] lc]; [destruct (Number.lt _ _)|]; eauto.
Qed.

(** X18.  On a connected client and with a cache key that can be used (its
    derivation does not throw, and the fallback cache is off for the call or
    the key is not blank), a transport error whose code is not 4, 8, 10 or
    14 ends the call on the first attempt: no sleep, no retry counted, the
    connection left alone, [failedCalls] plus one and [successfulCalls]
    unchanged.  The caller gets the mapped error when the cache is off or
    does not hold the key, and the cached value when the cache is in use and
    holds it; with the cache in use the read is one of the two. *)
Theorem non_retryable_error_surfaces (envs : nat -> AttemptEnv R) finalNow methodName request
    options (c : Client.t R) (se : ServiceError) key :
  ConnectionManager.isConnected (connectionManager c) = true ->
  env_invoke (envs 0%nat) = InvokeError se ->
  se_code se ∉ [4; 8; 10; 14] ->
  keyOf options methodName request = Ok key ->
  useCacheOf c options = false \/ FallbackCache.validKey key = true ->
  exists c' r,
    call JSON_stringify envs finalNow methodName request options c = (c', r) /\
    slept c' = slept c /\
    connectionManager c' = connectionManager c /\
    retries c' = retries c /\
    succeeded c' = succeeded c /\
    failed c' = S (failed c) /\
    (useCacheOf c options = false -> r = Throw (mapGrpcError se)) /\
    (useCacheOf c options = true ->
     exists o fc, FallbackCache.get key finalNow (fallbackCache c) = Ok (o, fc) /\
                  r = match o with Some v => Ok v | None => Throw (mapGrpcError se) end).
Proof.
  intros Hcon Hinv Hcode Hkey Hv.
  pose proof (unlisted_code_not_retryable se Hcode) as Hnr.
  unfold call. rewrite Hkey. fold (useCacheOf c options).
  destruct (maxAttempts_pos options c) as [n ->].
  set (c0 := set_metrics (MetricsTracker.recordCallStart (metricsTracker c)) c).
  assert (Hexec : executeCallAttempt (envs 0%nat) methodName key (useCacheOf c options) c0 =
                  (c0, Throw (mapGrpcError se))).
  { unfold executeCallAttempt.
    destruct (ensureConnected_connected (env_now (envs 0%nat)) (env_rnd (envs 0%nat))
                (env_factory (envs 0%nat)) (env_ready (envs 0%nat)) (connectionManager c0))
      as [-> [h Hh]]; [done|].
    rewrite set_manager_same, Hh, Hinv. done. }
  cbn [call_loop]. rewrite Hexec.
  unfold handleRetryAttempt. rewrite Hnr. cbn [negb orb Nat.ltb Nat.leb].
  unfold tryFallbackCache.
  destruct (useCacheOf c options) eqn:Hu; cbn [negb].
  - destruct Hv as [?|Hvalid]; [done|].
    cbn [fallbackCache set_metrics c0].
    destruct (valid_get_Ok key finalNow (fallbackCache c) Hvalid) as (o & fc & Hget).
    rewrite Hget.
    destruct o as [v|]; do 2 eexists; (split; [reflexivity|]); cbn;
      (split; [done|]; split; [done|]; split; [done|]; split; [done|]; split; [done|];
       split; [done|]; intros _; eauto).
  - do 2 eexists. split; [reflexivity|]. cbn.
    split; [done|]. split; [done|]. split; [done|]. split; [done|]. split; [done|].
    split; done.
Qed.

(** X19.  On a connected client with the fallback cache in use and a
    usable key whose derivation does not throw, a call the transport answers
    returns that answer on the first attempt, counts one success and no
    failure, never sleeps, and leaves the answer in the cache under the
    call's key: a read of that key on the cache as the call left it, with no
    other cache operation in between, finds the answer however much later it
    comes, also after its TTL. *)
Theorem successful_call_is_cached (envs : nat -> AttemptEnv R) finalNow methodName request
    options (c : Client.t R) (response : R) key :
  ConnectionManager.isConnected (connectionManager c) = true ->
  env_invoke (envs 0%nat) = InvokeOk response ->
  useCacheOf c options = true ->
  usableKey options = true ->
  keyOf options methodName request = Ok key ->
  FallbackCache.built (fallbackCache c) ->
  exists c',
    call JSON_stringify envs finalNow methodName request options c = (c', Ok response) /\
    slept c' = slept c /\
    connectionManager c' = connectionManager c /\
    succeeded c' = S (succeeded c) /\
    failed c' = failed c /\
    FallbackCache.built (fallbackCache c') /\
    (forall later, exists fc,
       FallbackCache.get key later (fallbackCache c') = Ok (Some response, fc)).
Proof.
  intros Hcon Hinv Hu Husable Hkey Hb.
  assert (Hvalid : FallbackCache.validKey key = true)
    by (by eapply effectiveCacheKeyOf_valid).
  unfold call. rewrite Hkey. fold (useCacheOf c options). rewrite Hu.
  destruct (maxAttempts_pos options c) as [n ->].
  set (c0 := set_metrics (MetricsTracker.recordCallStart (metricsTracker c)) c).
  cbn [call_loop]. unfold executeCallAttempt.
  destruct (ensureConnected_connected (env_now (envs 0%nat)) (env_rnd (envs 0%nat))
              (env_factory (envs 0%nat)) (env_ready (envs 0%nat)) (connectionManager c0))
    as [-> [h Hh]]; [done|].
  rewrite set_manager_same, Hh, Hinv. cbn [executeGrpcCall].
  rewrite set_default_ttl_Ok by done.
  eexists. split; [reflexivity|]. cbn.
  split; [done|]. split; [done|]. split; [done|]. split; [done|]. split.
  - pose proof (FallbackCache.built_apply
                  (FallbackCache.OpSet key response None
                     (env_now (envs 0%nat) + env_latency (envs 0%nat))) _ Hb) as Hb'.
    cbn in Hb'. rewrite set_default_ttl_Ok in Hb' by done. exact Hb'.
  - intros later.
    destruct (built_well_formed _ Hb) as (_ & _ & _ & Hstale & _).
    match goal with |- context [LRUCache.set key ?v ?ttl ?now ?lc] =>
      apply (get_found key later _
               {| LRUCache.e_key := key; LRUCache.e_value := v;
                  LRUCache.e_ttl := ttl; LRUCache.e_start := now |} Hvalid);
      [cbn; by destruct (LRUCache_flags_set key v ttl now lc) as [-> _]
      |cbn; apply LRUCache_find_set]
    end.
Qed.
End CallOutcomes.

Section AfterClose.
Import Client CallExecutor.
Context {R : Type}.
Variable JSON_stringify : Utils.jsval -> Result string.

Local Abbreviation empty c :=
  (LRUCache.items (FallbackCache.cache (fallbackCache c)) = []).
Local Abbreviation unavailable c :=
  (newError (serviceName (config c) +:+ " is not available")).

Lemma close_closed (c : Client.t R) :
  ConnectionManager.connectPromise (connectionManager c) = false -> closed (close c).
Proof.
  intros Hp. unfold closed.
  change (connectionManager (close c)) with (ConnectionManager.close (connectionManager c)).
  destruct (close_frame (connectionManager c)) as (-> & _ & -> & _ & ->). done.
Qed.

Lemma ensureConnected_shut now rnd f r (s : ConnectionManager.t) :
  ConnectionManager.isShuttingDown s = true ->
  ConnectionManager.state s = ConnectionManager.DISCONNECTED ->
  ConnectionManager.connectPromise s = false ->
  ConnectionManager.ensureConnected now rnd f r s = (s, Ok false).
Proof.
  intros Hsd Hst Hp. unfold ConnectionManager.ensureConnected, ConnectionManager.isConnected.
  rewrite Hst, Hp. cbn [ConnectionManager.ConnectionState_eqb andb].
  unfold ConnectionManager.connect_start. rewrite Hsd.
  unfold ConnectionManager.ensureConnected_resume. f_equal.
  destruct s; cbn in *; by subst.
Qed.

Lemma get_empty key now (fc : FallbackCache.t R) :
  LRUCache.items (FallbackCache.cache fc) = [] ->
  (FallbackCache.validKey key = false /\
   exists e, FallbackCache.get key now fc = Throw e /\ code e = None) \/
  (FallbackCache.validKey key = true /\
   exists fc1, FallbackCache.get key now fc = Ok (None, fc1) /\
               LRUCache.items (FallbackCache.cache fc1) = []).
Proof.
  intros He. unfold FallbackCache.get, LRUCache.get.
  destruct (FallbackCache.validKey key); simpl; [right|left; eauto].
  split; [done|]. rewrite He. simpl. eauto.
Qed.

Lemma handleServiceUnavailable_empty key useCache now (c c1 : Client.t R) r :
  empty c ->
  handleServiceUnavailable key useCache now c = (c1, r) ->
  empty c1 /\ (exists e, r = Throw e /\ code e = None) /\
  (useCache = false \/ FallbackCache.validKey key = true -> r = Throw (unavailable c)).
Proof.
  intros He. unfold handleServiceUnavailable. destruct useCache.
  - destruct (get_empty key now (fallbackCache c) He)
      as [[Hk (e & -> & Hcode)]|[Hk (fc1 & -> & He1)]]; intros H; simplify_eq; cbn.
    + split; [done|]. split; [eauto|]. intros [?|?]; congruence.
    + split; [done|]. split; [eauto|]. done.
  - intros H; simplify_eq. split; [done|]. split; [eauto|]. done.
Qed.

Lemma tryFallbackCache_empty key useCache now (c c1 : Client.t R) r :
  empty c ->
  tryFallbackCache key useCache now c = (c1, r) ->
  empty c1 /\ (r = Ok None \/ exists e, r = Throw e) /\
  (useCache = false \/ FallbackCache.validKey key = true -> r = Ok None).
Proof.
  intros He. unfold tryFallbackCache. destruct useCache; cbn [negb].
  - destruct (get_empty key now (fallbackCache c) He)
      as [[Hk (e & -> & Hcode)]|[Hk (fc1 & -> & He1)]]; intros H; simplify_eq; cbn.
    + split; [done|]. split; [eauto|]. intros [?|?]; congruence.
    + split; [done|]. split; [eauto|]. done.
  - intros H; simplify_eq. split; [done|]. split; [eauto|]. done.
Qed.

Lemma closed_call (envs : nat -> AttemptEnv R) finalNow methodName request options
    (c c' : Client.t R) r :
  closed c ->
  call JSON_stringify envs finalNow methodName request options c = (c', r) ->
  closed c' /\ slept c' = slept c /\ connectionManager c' = connectionManager c /\
  (exists e, r = Throw e) /\
  (forall key,
     effectiveCacheKeyOf JSON_stringify options methodName request = Ok key ->
     useCacheOf c options = false \/ usableKey options = true ->
     r = Throw (unavailable c)) /\
  (forall e, effectiveCacheKeyOf JSON_stringify options methodName request = Throw e ->
             r = Throw e).
Proof.
  intros Hcl. pose proof Hcl as (Hsd & Hst & Hp & He). unfold call.
  destruct (effectiveCacheKeyOf JSON_stringify options methodName request) as [key|e0] eqn:Hkey.
  2:{ intros H; simplify_eq. split; [done|]. split; [done|]. split; [done|].
      split; [eauto|]. split; [intros key' Hk'; done|]. intros e He'. by simplify_eq. }
  fold (useCacheOf c options).
  destruct (maxAttempts_pos options c) as [n ->].
  set (c0 := set_metrics (MetricsTracker.recordCallStart (metricsTracker c)) c).
  assert (Hvalid : useCacheOf c options = false \/ usableKey options = true ->
                   useCacheOf c options = false \/ FallbackCache.validKey key = true).
  { intros [?|?]; [by left|right]. by eapply effectiveCacheKeyOf_valid. }
  cbn [call_loop]. unfold executeCallAttempt.
  change (connectionManager c0) with (connectionManager c).
  rewrite ensureConnected_shut by done.
  change (set_manager (connectionManager c) c0) with (set_manager (connectionManager c0) c0).
  rewrite set_manager_same.
  destruct (handleServiceUnavailable key (useCacheOf c options) (env_now (envs 0%nat)) c0)
    as [c1 r1] eqn:Hhsu.
  pose proof (handleServiceUnavailable_config _ _ _ _ _ _ Hhsu) as [Hc1 Hm1].
  pose proof (handleServiceUnavailable_frame _ _ _ _ _ _ Hhsu) as (Hs1 & _).
  apply handleServiceUnavailable_empty in Hhsu as (He1 & (e & -> & Hcode) & Hr1); [|done].
  assert (Hnr : isRetryableError e = false)
    by (unfold isRetryableError; by rewrite Hcode).
  unfold handleRetryAttempt. rewrite Hnr. cbn [negb orb Nat.ltb Nat.leb].
  set (c2 := set_metrics (MetricsTracker.recordFailure (metricsTracker c1)) c1).
  destruct (tryFallbackCache key (useCacheOf c options) finalNow c2) as [c3 r3] eqn:Htry.
  pose proof (tryFallbackCache_counts _ _ _ _ _ _ Htry) as (_ & _ & _ & _ & Hs3 & Hm3 & _).
  apply tryFallbackCache_empty in Htry as (He3 & Hr3 & Hr3'); [|done].
  assert (Hman : connectionManager c3 = connectionManager c) by (rewrite Hm3; cbn; by rewrite Hm1).
  assert (Hsl : slept c3 = slept c) by (rewrite Hs3; cbn; by rewrite Hs1).
  intros H.
  assert (c3 = c') as <- by (destruct r3 as [[cached|]|e3]; by simplify_eq).
  split; [unfold closed; by rewrite Hman|]. split; [done|]. split; [done|].
  split; [|split; [|done]].
  - destruct Hr3 as [->|[e3 ->]]; simplify_eq; eauto.
  - intros key' _ Hv. rewrite (Hr3' (Hvalid Hv)) in H. simplify_eq.
    specialize (Hr1 (Hvalid Hv)). by simplify_eq.
Qed.

(** X20.  After [close()] on a client with no connect under way, every
    call throws, without a sleep and without touching the connection manager
    again (no event, no connect attempt, no handle).  For the calls whose
    cache key can be derived (generating it does not throw) and used (the
    fallback cache off for the call, or the custom key absent, empty or not
    blank) the error is "<service> is not available"; a call whose key
    cannot be derived throws what the derivation threw. *)
Theorem calls_after_close (invs : list (Invocation R)) (c c' : Client.t R) rs :
  ConnectionManager.connectPromise (connectionManager c) = false ->
  calls JSON_stringify invs (close c) = (c', rs) ->
  length rs = length invs /\
  Forall (fun r => exists e, r = Throw e) rs /\
  slept c' = slept c /\
  connectionManager c' = ConnectionManager.close (connectionManager c) /\
  Forall2 (fun i r =>
             (keyed JSON_stringify i = true ->
              useCacheOf c (inv_options i) = false \/ usableKey (inv_options i) = true ->
              r = Throw (unavailable c)) /\
             (forall e,
                effectiveCacheKeyOf JSON_stringify (inv_options i) (inv_method i)
                  (inv_request i) = Throw e ->
                r = Throw e)) invs rs.
Proof.
  intros Hp.
  assert (Hgen : forall (d d' : Client.t R) rs,
            closed d -> calls JSON_stringify invs d = (d', rs) ->
            length rs = length invs /\ Forall (fun r => exists e, r = Throw e) rs /\
            slept d' = slept d /\ connectionManager d' = connectionManager d /\
            Forall2 (fun i r =>
                       (keyed JSON_stringify i = true ->
                        useCacheOf d (inv_options i) = false \/
                        usableKey (inv_options i) = true ->
                        r = Throw (unavailable d)) /\
                       (forall e,
                          effectiveCacheKeyOf JSON_stringify (inv_options i) (inv_method i)
                            (inv_request i) = Throw e ->
                          r = Throw e)) invs rs).
  { clear. induction invs as [|i invs IH]; intros d d' rs Hd; simpl.
    { intros H; simplify_eq. repeat split; by constructor. }
    destruct (call JSON_stringify (inv_envs i) (inv_finalNow i) (inv_method i) (inv_request i)
                (inv_options i) d) as [d1 r] eqn:Hcall.
    destruct (calls JSON_stringify invs d1) as [d2 rs'] eqn:Hrest.
    intros H; simplify_eq.
    pose proof (call_counts JSON_stringify _ _ _ _ _ _ _ _ Hcall) as (Hcfg & _).
    apply closed_call in Hcall as (Hd1 & Hs1 & Hm1 & Hthrow & Hun & Hder); [|done].
    destruct (IH d1 d' rs' Hd1 Hrest) as (Hlen & Hall & Hs & Hm & Hun').
    split; [simpl; by rewrite Hlen|]. split; [by constructor|].
    split; [congruence|]. split; [congruence|].
    constructor.
    - split; [|exact Hder]. unfold keyed. intros Hk Hus.
      destruct (effectiveCacheKeyOf JSON_stringify (inv_options i) (inv_method i)
                  (inv_request i)) as [key|e0] eqn:Hkey; [|done].
      by apply (Hun key).
    - unfold useCacheOf in *. rewrite <- Hcfg. exact Hun'. }
  intros Hcalls. destruct (Hgen (close c) c' rs (close_closed c Hp) Hcalls)
    as (Hlen & Hall & Hs & Hm & Hun).
  split; [done|]. split; [done|]. split; [done|]. split; [done|]. exact Hun.
Qed.
End AfterClose.

(** ** Connection manager: what every interleaving keeps *)

Section LtsInvariants.
Import ConnectionManager ConnectionLts.

Lemma scheduleReconnect_emitted rnd s :
  emitted (scheduleReconnect rnd s) = emitted s /\
  config (scheduleReconnect rnd s) = config s.
Proof.
  unfold scheduleReconnect.
  destruct (isShuttingDown s || bool_decide (is_Some (reconnectTimer s))); [done|].
  destruct (attemptsExhausted s); done.
Qed.

Lemma handleConnectionFailure_emitted now rnd e s :
  emitted (handleConnectionFailure now rnd e s) = (emitted s ++ [EvError (message e)])%list.
Proof.
  unfold handleConnectionFailure. cbn.
  destruct (errorListener s); [|done].
  match goal with |- context [scheduleReconnect rnd ?x] =>
    destruct (scheduleReconnect_emitted rnd x) as (-> & _) end.
  done.
Qed.

Lemma handleConnectionSuccess_emitted now s :
  emitted (handleConnectionSuccess now s) = (emitted s ++ [EvConnected])%list.
Proof.
  unfold handleConnectionSuccess, monitorConnection. cbn.
  destruct (client s) eqn:Hcl; cbn; by rewrite ?Hcl.
Qed.

Lemma handleConnectionLost_emitted rnd s :
  emitted (handleConnectionLost rnd s) = emitted s \/
  emitted (handleConnectionLost rnd s) = (emitted s ++ [EvDisconnected])%list.
Proof.
  unfold handleConnectionLost.
  destruct (negb (ConnectionState_eqb (state s) CONNECTED)); [by left|]. right.
  match goal with |- context [scheduleReconnect rnd ?x] =>
    destruct (scheduleReconnect_emitted rnd x) as (-> & _) end.
  destruct (client s) eqn:Hcl; unfold close_client; cbn; rewrite ?Hcl; done.
Qed.

Lemma checkState_emitted ch rnd s :
  emitted (checkState ch rnd s) = emitted s \/
  emitted (checkState ch rnd s) = (emitted s ++ [EvDisconnected])%list.
Proof.
  unfold checkState.
  destruct (isShuttingDown s || negb (bool_decide (is_Some (client s)))); [by left|].
  destruct ch; try (by left); apply (handleConnectionLost_emitted rnd (set_monitorTimer None s)).
Qed.

Lemma count_snoc (p : Event -> bool) (l : list Event) ev :
  length (List.filter p (l ++ [ev])) =
  (length (List.filter p l) + if p ev then 1 else 0)%nat.
Proof. rewrite List.filter_app, length_app. simpl. by destruct (p ev). Qed.

(** The two counters after a list of events grew by one. *)
Lemma counts_snoc s s' ev :
  emitted s' = (emitted s ++ [ev])%list ->
  connecting_count s' = (connecting_count s + if is_connecting ev then 1 else 0)%nat /\
  settled_count s' = (settled_count s + if is_settled ev then 1 else 0)%nat.
Proof.
  intros He. unfold connecting_count, settled_count. rewrite He, !count_snoc. done.
Qed.

Lemma counts_same s s' :
  emitted s' = emitted s ->
  connecting_count s' = connecting_count s /\ settled_count s' = settled_count s.
Proof. intros He. unfold connecting_count, settled_count. by rewrite He. Qed.

Lemma connect_start_counts now rnd f s :
  match connect_start now rnd f s with
  | Rejected _ s1 =>
      (connecting_count s1 = connecting_count s /\ settled_count s1 = settled_count s) \/
      (connecting_count s1 = S (connecting_count s) /\ settled_count s1 = S (settled_count s))
  | Pending _ s1 =>
      connecting_count s1 = S (connecting_count s) /\ settled_count s1 = settled_count s
  end.
Proof.
  unfold connect_start. destruct (isShuttingDown s); [by left|].
  set (s0 := emit EvConnecting _).
  assert (H0 : connecting_count s0 = S (connecting_count s) /\ settled_count s0 = settled_count s).
  { destruct (counts_snoc s s0 EvConnecting eq_refl) as [-> ->]. simpl. lia. }
  destruct f as [e|h].
  - right. destruct (counts_snoc s0 _ _ (handleConnectionFailure_emitted now rnd e s0))
      as [-> ->]. simpl. lia.
  - destruct (counts_same s0 (set_client (Some h) s0) eq_refl) as [-> ->]. done.
Qed.

Lemma connect_finish_counts now rnd r s :
  connecting_count (connect_finish now rnd r s).1 = connecting_count s /\
  settled_count (connect_finish now rnd r s).1 = S (settled_count s).
Proof.
  destruct r as [|e]; simpl.
  - destruct (counts_snoc s _ _ (handleConnectionSuccess_emitted now s)) as [-> ->].
    simpl. lia.
  - destruct (counts_snoc s _ _ (handleConnectionFailure_emitted now rnd e s)) as [-> ->].
    simpl. lia.
Qed.

Lemma length_delete_lookup {A} (l : list A) i x :
  l !! i = Some x -> length l = S (length (delete i l)).
Proof.
  revert i. induction l as [|y l IH]; intros [|i]; simpl; try done.
  intros H. by rewrite (IH i H).
Qed.

Lemma step_accounting a c c' o :
  step a c = Some (c', o) ->
  connecting_count (mgr c) = (settled_count (mgr c) + length (inflight c))%nat ->
  connecting_count (mgr c') = (settled_count (mgr c') + length (inflight c'))%nat.
Proof.
  intros Hstep Hinv. destruct a; simpl in Hstep.
  - destruct (isConnected (mgr c)); [by simplify_eq|].
    destruct (connectPromise (mgr c)); [by simplify_eq|].
    pose proof (connect_start_counts now rnd f (mgr c)) as Hcs.
    destruct (connect_start now rnd f (mgr c)) as [e s1|h s1]; simpl in Hstep; simplify_eq.
    + cbn [mgr inflight].
      destruct (counts_same s1 (set_connectPromise false (set_connectPromise true s1)) eq_refl)
        as [-> ->].
      destruct Hcs as [[-> ->]|[-> ->]]; lia.
    + cbn [mgr inflight].
      destruct (counts_same s1 (set_connectPromise true s1) eq_refl) as [-> ->].
      destruct Hcs as [-> ->]. rewrite length_app. simpl. lia.
  - destruct (inflight c !! i) as [att|] eqn:Hi; [|done].
    pose proof (connect_finish_counts now rnd r (mgr c)) as [Hc Hs].
    apply length_delete_lookup in Hi.
    destruct (connect_finish now rnd r (mgr c)) as [s1 settled]. cbn [fst] in *.
    destruct (a_owned att).
    + unfold ensureConnected_resume in Hstep.
      destruct (counts_same s1 (set_connectPromise false s1) eq_refl) as [Hc' Hs'].
      destruct settled; simplify_eq; cbn [mgr inflight]; lia.
    + simplify_eq. cbn [mgr inflight]. lia.
  - destruct (reconnectTimer (mgr c)); [|done].
    unfold reconnectTimerFired in Hstep.
    pose proof (connect_start_counts now rnd f (set_reconnectTimer None (mgr c))) as Hcs.
    destruct (counts_same (mgr c) (set_reconnectTimer None (mgr c)) eq_refl) as [Hc0 Hs0].
    destruct (connect_start now rnd f (set_reconnectTimer None (mgr c))) as [e s1|h s1];
      simplify_eq; cbn [mgr inflight].
    + destruct Hcs as [[-> ->]|[-> ->]]; lia.
    + destruct Hcs as [-> ->]. rewrite length_app. simpl. lia.
  - simplify_eq. cbn [mgr inflight].
    destruct (checkState_emitted ch rnd (mgr c)) as [He|He].
    + destruct (counts_same _ _ He) as [-> ->]. done.
    + destruct (counts_snoc _ _ _ He) as [-> ->]. simpl. lia.
  - simplify_eq. cbn [mgr inflight].
    destruct (handleConnectionLost_emitted rnd (mgr c)) as [He|He].
    + destruct (counts_same _ _ He) as [-> ->]. done.
    + destruct (counts_snoc _ _ _ He) as [-> ->]. simpl. lia.
  - simplify_eq. cbn [mgr inflight].
    destruct (counts_same (mgr c) (on_error (mgr c)) eq_refl) as [-> ->]. done.
  - simplify_eq. cbn [mgr inflight].
    destruct (counts_snoc _ _ _ (close_emitted (mgr c))) as [-> ->]. simpl. lia.
Qed.

(** X21.  In every state the manager can reach, under any interleaving of
    its operations: the number of ['connecting'] events emitted equals the
    number of ['connected'] and ['error'] events emitted plus the number of
    connect attempts still waiting for the channel.  Every attempt that was
    announced ends in exactly one of the two events. *)
Theorem connect_events_balance cfg c :
  reachable cfg c ->
  connecting_count (mgr c) = (settled_count (mgr c) + length (inflight c))%nat.
Proof.
  induction 1 as [|a c c' o _ IH Hstep]; [done|]. by eapply step_accounting.
Qed.

Lemma run_reachable cfg acts c c' obs :
  reachable cfg c -> run acts c = Some (c', obs) -> reachable cfg c'.
Proof.
  revert c obs. induction acts as [|a acts IH]; intros c obs Hr Hrun; simpl in Hrun.
  - by simplify_eq.
  - destruct (step a c) as [[c1 o]|] eqn:Hstep; [|done].
    destruct (run acts c1) as [[c2 os]|] eqn:Hrest; [|done]. simplify_eq.
    eapply IH; [|exact Hrest]. by eapply reachable_step.
Qed.

Lemma handleConnectionLost_promise rnd s :
  connectPromise (handleConnectionLost rnd s) = connectPromise s.
Proof.
  unfold handleConnectionLost.
  destruct (negb (ConnectionState_eqb (state s) CONNECTED)); [done|].
  match goal with |- context [scheduleReconnect rnd ?x] =>
    destruct (scheduleReconnect_frame rnd x) as (_ & _ & _ & -> & _) end.
  destruct (client s) eqn:Hcl; unfold close_client; cbn; rewrite ?Hcl; done.
Qed.

Lemma checkState_promise ch rnd s :
  connectPromise (checkState ch rnd s) = connectPromise s.
Proof.
  unfold checkState.
  destruct (isShuttingDown s || negb (bool_decide (is_Some (client s)))); [done|].
  destruct ch; try done; by rewrite handleConnectionLost_promise.
Qed.

Lemma connect_start_promise now rnd f s :
  match connect_start now rnd f s with
  | Rejected _ s1 | Pending _ s1 => connectPromise s1 = connectPromise s
  end.
Proof.
  unfold connect_start. destruct (isShuttingDown s); [done|].
  destruct f as [e|h]; [|done].
  match goal with |- context [handleConnectionFailure now rnd e ?x] =>
    by destruct (handleConnectionFailure_frame now rnd e x) as (_ & _ & _ & ->) end.
Qed.

Lemma connect_finish_promise now rnd r s :
  connectPromise (connect_finish now rnd r s).1 = connectPromise s.
Proof.
  destruct r as [|e]; simpl.
  - by destruct (handleConnectionSuccess_frame now s) as (_ & _ & _ & ->).
  - by destruct (handleConnectionFailure_frame now rnd e s) as (_ & _ & _ & ->).
Qed.

Lemma owned_delete (l : list Attempt) i att :
  l !! i = Some att ->
  length (List.filter a_owned l) =
  (length (List.filter a_owned (delete i l)) + if a_owned att then 1 else 0)%nat.
Proof.
  revert i. induction l as [|y l IH]; intros [|i]; simpl; try done.
  - intros H. simplify_eq. destruct (a_owned att); simpl; lia.
  - intros H. specialize (IH i H). destruct (a_owned y); simpl; lia.
Qed.

Lemma step_slot a c c' o :
  step a c = Some (c', o) ->
  owned_count c = (if connectPromise (mgr c) then 1 else 0)%nat ->
  owned_count c' = (if connectPromise (mgr c') then 1 else 0)%nat.
Proof.
  unfold owned_count. intros Hstep Hinv. destruct a; simpl in Hstep.
  - destruct (isConnected (mgr c)); [by simplify_eq|].
    destruct (connectPromise (mgr c)) eqn:Hp; [by simplify_eq; rewrite Hp|].
    destruct (connect_start now rnd f (mgr c)) as [e s1|h s1]; simpl in Hstep; simplify_eq;
      cbn [mgr inflight]; cbn.
    + done.
    + rewrite List.filter_app, length_app, Hinv. done.
  - destruct (inflight c !! i) as [att|] eqn:Hi; [|done].
    pose proof (connect_finish_promise now rnd r (mgr c)) as Hcp.
    apply owned_delete in Hi.
    destruct (connect_finish now rnd r (mgr c)) as [s1 settled]. cbn [fst] in *.
    destruct (a_owned att).
    + unfold ensureConnected_resume in Hstep.
      destruct settled; simplify_eq; cbn [mgr inflight]; cbn;
        destruct (connectPromise (mgr c)); lia.
    + simplify_eq. cbn [mgr inflight]. rewrite Hcp. lia.
  - destruct (reconnectTimer (mgr c)); [|done].
    unfold reconnectTimerFired in Hstep.
    pose proof (connect_start_promise now rnd f (set_reconnectTimer None (mgr c))) as Hcp.
    destruct (connect_start now rnd f (set_reconnectTimer None (mgr c))) as [e s1|h s1];
      simplify_eq; cbn [mgr inflight]; rewrite Hcp; cbn [connectPromise set_reconnectTimer].
    + done.
    + rewrite List.filter_app, length_app. simpl. lia.
  - simplify_eq. cbn [mgr inflight]. by rewrite checkState_promise.
  - simplify_eq. cbn [mgr inflight]. by rewrite handleConnectionLost_promise.
  - by simplify_eq.
  - simplify_eq. cbn [mgr inflight].
    by destruct (close_frame (mgr c)) as (_ & _ & _ & _ & ->).
Qed.












End LtsInvariants.

(** ** Connection manager: sharing, loss and shutdown *)

Section ManagerScenarios.
Import ConnectionManager ConnectionLts.

Lemma run_awaiting acts c :
  isConnected (mgr c) = false -> connectPromise (mgr c) = true ->
  forallb is_ensure acts = true ->
  run acts c = Some (c, replicate (length acts) ObsAwaiting).
Proof.
  intros Hc Hp. induction acts as [|a acts IH]; simpl; [done|].
  intros Hall. apply andb_true_iff in Hall as [Ha Hall].
  destruct a; try discriminate Ha. simpl. rewrite Hc, Hp, (IH Hall). done.
Qed.

(** X24.  When [ensureConnected] starts a connect and further calls to
    [ensureConnected] arrive before the channel answers, however many: all of
    them wait on the one pending promise, the factory is asked once (the
    handle is the first caller's), and ['connecting'] is emitted once. *)
Theorem concurrent_callers_share_attempt now rnd h acts c :
  isShuttingDown (mgr c) = false -> connectPromise (mgr c) = false ->
  isConnected (mgr c) = false -> forallb is_ensure acts = true ->
  exists c',
    run (ActEnsureConnected now rnd (FactoryReturns h) :: acts) c =
      Some (c', replicate (S (length acts)) ObsAwaiting) /\
    inflight c' = (inflight c ++ [{| a_handle := h; a_owned := true |}])%list /\
    client (mgr c') = Some h /\
    emitted (mgr c') = (emitted (mgr c) ++ [EvConnecting])%list.
Proof.
  intros Hsd Hp Hc Hall.
  cbn [run step]. rewrite Hc, Hp. unfold connect_start. rewrite Hsd.
  match goal with |- context [run acts ?c1] =>
    rewrite (run_awaiting acts c1); [| |done|done] end.
  - eexists. split; [reflexivity|]. done.
  - cbn [mgr]. unfold isConnected. cbn. by destruct (reconnectAttempts (mgr c)).
Qed.

Lemma closed_quiet_run_quiet acts c c' obs :
  closed_quiet c -> run acts c = Some (c', obs) ->
  closed_quiet c' /\
  Forall (fun o => o = ObsNone \/ o = ObsReturned (Ok false)) obs /\
  connecting_count (mgr c') = connecting_count (mgr c).
Proof.
  revert c obs. induction acts as [|a acts IH]; intros c obs Hq Hrun; simpl in Hrun.
  - simplify_eq. auto.
  - destruct (step a c) as [[c1 o]|] eqn:Hstep; [|done].
    destruct (run acts c1) as [[c2 os]|] eqn:Hrest; [|done]. simplify_eq.
    destruct (closed_quiet_step a c c1 o Hq Hstep) as (Hq1 & Ho & Hcount).
    destruct (IH c1 os Hq1 Hrest) as (Hq' & Hos & Hcount').
    split; [done|]. split; [by constructor | congruence].
Qed.

(** X25.  [close()] with no connect in flight is final: whatever is done to
    the manager afterwards, the state stays [DISCONNECTED], there is no
    handle, no reconnect timer and no connect in flight, no further
    ['connecting'] event is emitted and every [ensureConnected] resolves to
    [false]. *)
Theorem close_is_final acts c c' obs :
  inflight c = [] -> connectPromise (mgr c) = false ->
  run (ActClose :: acts) c = Some (c', obs) ->
  state (mgr c') = DISCONNECTED /\ client (mgr c') = None /\
  reconnectTimer (mgr c') = None /\ isShuttingDown (mgr c') = true /\
  inflight c' = [] /\
  connecting_count (mgr c') = connecting_count (mgr c) /\
  Forall (fun o => o = ObsNone \/ o = ObsReturned (Ok false)) obs.
Proof.
  intros Hfl Hp Hrun. cbn [run step] in Hrun.
  destruct (run acts _) as [[c2 os]|] eqn:Hrest; [|done]. simplify_eq.
  apply closed_quiet_run_quiet in Hrest as ((Hsd & Hst & Hcl & _ & Ht & Hin) & Hos & Hcount);
    [|by apply close_makes_quiet].
  cbn [mgr] in Hcount.
  split; [done|]. split; [done|]. split; [done|]. split; [done|]. split; [done|]. split.
  - rewrite Hcount. unfold connecting_count. rewrite close_emitted.
    rewrite List.filter_app, length_app. simpl. lia.
  - constructor; [by left | done].
Qed.

(** X26.  [handleConnectionLost] acts once: a second call right after the
    first changes nothing, and the state it leaves is never [CONNECTED].
    Called in state [CONNECTED] it leaves [DISCONNECTED] with no handle,
    having closed the handle it held and emitted one ['disconnected']. *)
Theorem handleConnectionLost_once rnd rnd' s :
  handleConnectionLost rnd' (handleConnectionLost rnd s) = handleConnectionLost rnd s /\
  state (handleConnectionLost rnd s) <> CONNECTED /\
  (state s = CONNECTED ->
   state (handleConnectionLost rnd s) = DISCONNECTED /\
   client (handleConnectionLost rnd s) = None /\
   emitted (handleConnectionLost rnd s) = (emitted s ++ [EvDisconnected])%list /\
   closedHandles (handleConnectionLost rnd s) =
     (closedHandles s ++ match client s with Some h => [h] | None => [] end)%list).
Proof.
  assert (Hne : state (handleConnectionLost rnd s) <> CONNECTED).
  { destruct (handleConnectionLost_cases rnd s) as [[Hn ->]|(_ & -> & _)]; done. }
  split; [|split; [done|]].
  - unfold handleConnectionLost at 1.
    destruct (state (handleConnectionLost rnd s)); done.
  - intros Hst. destruct (handleConnectionLost_cases rnd s) as [[Hn _]|(_ & -> & ->)]; [done|].
    split; [done|]. split; [done|].
    unfold handleConnectionLost. rewrite Hst. cbn [ConnectionState_eqb negb].
    assert (Hsched : forall x, emitted (scheduleReconnect rnd x) = emitted x /\
                               closedHandles (scheduleReconnect rnd x) = closedHandles x).
    { intros x. unfold scheduleReconnect.
      destruct (isShuttingDown x || bool_decide (is_Some (reconnectTimer x))); [done|].
      destruct (attemptsExhausted x); done. }
    match goal with |- context [scheduleReconnect rnd ?x] =>
      destruct (Hsched x) as [-> ->] end.
    unfold close_client. cbn. destruct (client s) eqn:Hcl; cbn; rewrite ?Hcl, ?app_nil_r; done.
Qed.

Lemma ensureConnected_true_connected now rnd f r s s1 :
  connectPromise s = false ->
  ensureConnected now rnd f r s = (s1, Ok true) -> isConnected s1 = true.
Proof.
  intros Hp. unfold ensureConnected.
  destruct (isConnected s) eqn:Hc; [intros H; by simplify_eq|].
  rewrite Hp. unfold connect_start.
  destruct (isShuttingDown s); [intros H; by simplify_eq|].
  destruct f as [e|h]; [intros H; by simplify_eq|].
  destruct r as [|e].
  - set (s0 := set_connectPromise true _).
    destruct (handleConnectionSuccess_frame now s0) as (Hst & Hcl & _).
    unfold connect_finish, ensureConnected_resume. rewrite Hst. cbn [ConnectionState_eqb].
    intros H. simplify_eq. apply isConnected_iff.
    change (state (handleConnectionSuccess now s0) = CONNECTED /\
            is_Some (client (handleConnectionSuccess now s0))).
    rewrite Hst, Hcl. split; [done|]. subst s0. cbn. eauto.
  - unfold connect_finish, ensureConnected_resume. intros H. by simplify_eq.
Qed.

End ManagerScenarios.

(** ** What [ensureConnected] resolves to *)

Section Resolution.
Import ConnectionManager ConnectionLts.

Lemma serial_handle_inv cfg c : serial_reachable cfg c -> handle_inv c.
Proof.
  induction 1 as [|a c c' o _ IH Hstep Hser].
  - split; [done|]. split; [done | simpl; lia].
  - by eapply step_handle_inv.
Qed.

Lemma reachable_slot cfg c :
  reachable cfg c -> owned_count c = (if connectPromise (mgr c) then 1 else 0)%nat.
Proof. induction 1 as [|a c c' o _ IH Hstep]; [done|]. by eapply step_slot. Qed.

Lemma connect_finish_state now rnd r s :
  match (connect_finish now rnd r s).2 with
  | Ok _ => state (connect_finish now rnd r s).1 = CONNECTED
  | Throw _ => state (connect_finish now rnd r s).1 = DISCONNECTED
  end.
Proof.
  destruct r as [|e]; simpl.
  - by destruct (handleConnectionSuccess_frame now s) as (-> & _).
  - by destruct (handleConnectionFailure_frame now rnd e s) as (-> & _).
Qed.

(** What one step lets the callers of [ensureConnected] observe, in any
    configuration. *)
Lemma step_resolves a c c' o :
  step a c = Some (c', o) ->
  match o with
  | ObsNone => is_ensure a = false
  | ObsAwaiting => is_ensure a = true /\ connectPromise (mgr c') = true
  | ObsReturned r =>
      is_ensure a = true /\
      exists b, r = Ok b /\
        (b = true <-> state (mgr c') = CONNECTED /\ is_Some (client (mgr c'))) /\
        (b = true -> c' = c) /\
        (b = false -> connectPromise (mgr c') = false)
  | ObsDelivered r =>
      exists b, r = Ok b /\ (b = true <-> state (mgr c') = CONNECTED) /\
                connectPromise (mgr c') = false
  end.
Proof.
  intros Hstep. destruct a; simpl in Hstep.
  - destruct (isConnected (mgr c)) eqn:Hc.
    { simplify_eq. split; [done|]. exists true. split; [done|].
      split; [by rewrite <- isConnected_iff | done]. }
    destruct (connectPromise (mgr c)) eqn:Hp; [by simplify_eq|].
    pose proof (connect_start_inv now rnd f (mgr c)) as Hcs.
    destruct (connect_start now rnd f (mgr c)) as [e s1|h s1]; simplify_eq; cbn.
    + split; [done|]. exists false. split; [done|]. split; [|done].
      split; [done|]. intros [Hst Hcl].
      destruct Hcs as [[-> _]|[Hst' _]]; [|congruence].
      assert (isConnected (mgr c) = true) by (by apply isConnected_iff). congruence.
    + done.
  - destruct (inflight c !! i) as [att|]; [|done].
    pose proof (connect_finish_state now rnd r (mgr c)) as Hst.
    destruct (connect_finish now rnd r (mgr c)) as [s1 settled]. cbn [fst snd] in Hst.
    destruct (a_owned att); [|by simplify_eq].
    unfold ensureConnected_resume in Hstep.
    destruct settled; simplify_eq; cbn; rewrite Hst; cbn.
    + exists true. done.
    + exists false. split; [done|]. split; [|done]. split; done.
  - destruct (reconnectTimer (mgr c)); [|done].
    destruct (reconnectTimerFired now rnd f (mgr c)); by simplify_eq.
  - by simplify_eq.
  - by simplify_eq.
  - by simplify_eq.
  - by simplify_eq.
Qed.

(** C9, amended.  [ensureConnected] never throws: every call either
    resolves at once to a boolean or is suspended on the pending connect
    promise, and what is delivered when that promise settles is a boolean.
    - A call that resolves at once gives [true] exactly when the state is
      [CONNECTED] with a handle, and then it changes nothing; when it gives
      [false] the promise slot is empty.
    - A call that was suspended gives [true] exactly when the state is
      [CONNECTED] at the time the promise settles (the handle is not looked
      at), and the promise slot is empty then, whatever the outcome.
    - In the interleavings in which connect attempts do not overlap, every
      call gives [true] exactly when the state is [CONNECTED] with a handle,
      and the promise slot is empty when it resolves.
    - A suspended call does resolve: in every reachable configuration a
      connect started by [ensureConnected] is then in flight, and whenever its
      channel answers, whatever the answer, a boolean is delivered. *)
Theorem ensureConnected_resolves cfg c :
  (forall now rnd f, exists c' o,
     step (ActEnsureConnected now rnd f) c = Some (c', o) /\
     (o = ObsAwaiting \/ exists b : bool, o = ObsReturned (Ok b))) /\
  (forall a c' r, step a c = Some (c', ObsReturned r) ->
     exists b, r = Ok b /\
       (b = true <-> state (mgr c') = CONNECTED /\ is_Some (client (mgr c'))) /\
       (b = true -> c' = c) /\
       (b = false -> connectPromise (mgr c') = false)) /\
  (forall a c' r, step a c = Some (c', ObsDelivered r) ->
     exists b, r = Ok b /\ (b = true <-> state (mgr c') = CONNECTED) /\
               connectPromise (mgr c') = false) /\
  (serial_reachable cfg c ->
   forall a c' o r, step a c = Some (c', o) -> serial a c c' ->
     o = ObsReturned r \/ o = ObsDelivered r ->
     exists b, r = Ok b /\
       (b = true <-> state (mgr c') = CONNECTED /\ is_Some (client (mgr c'))) /\
       connectPromise (mgr c') = false) /\
  (reachable cfg c ->
   forall a c', step a c = Some (c', ObsAwaiting) ->
     connectPromise (mgr c') = true /\
     exists i att, inflight c' !! i = Some att /\ a_owned att = true /\
       forall now rnd r, exists c'' (b : bool),
         step (ActSettle i now rnd r) c' = Some (c'', ObsDelivered (Ok b))).
Proof.
  split; [|split; [|split; [|split]]].
  - intros now rnd f. simpl.
    destruct (isConnected (mgr c)); [eauto 6|].
    destruct (connectPromise (mgr c)); [eauto|].
    destruct (connect_start now rnd f (mgr c)) as [e s1|h s1]; [|eauto].
    cbn. eauto 6.
  - intros a c' r Hstep. by destruct (step_resolves _ _ _ _ Hstep) as [_ ?].
  - intros a c' r Hstep. exact (step_resolves _ _ _ _ Hstep).
  - intros Hser a c' o r Hstep Hs Ho.
    assert (Hinv : handle_inv c')
      by (eapply step_handle_inv; [by eapply serial_handle_inv | done..]).
    assert (Hslot : owned_count c' = (if connectPromise (mgr c') then 1 else 0)%nat).
    { eapply reachable_slot, reachable_step; [by eapply serial_reachable_reachable | done]. }
    destruct Hinv as (Hcon & Hfl & _).
    pose proof (step_resolves _ _ _ _ Hstep) as Hres.
    destruct Ho as [-> | ->].
    + destruct Hres as (_ & b & -> & Hb & Hp). exists b. split; [done|]. split; [done|].
      destruct b; [|by apply Hp].
      destruct (proj1 Hb eq_refl) as [Hst _].
      destruct (connectPromise (mgr c')); [|done]. unfold owned_count in Hslot.
      destruct (inflight c') as [|att l] eqn:Hin; [done|].
      assert (Hne : att :: l <> []) by done. destruct (Hfl Hne) as [_ Hn]. done.
    + destruct Hres as (b & -> & Hb & Hp). exists b. split; [done|]. split; [|done].
      rewrite Hb. split; [|by intros [? _]]. intros Hst. split; [done | by apply Hcon].
  - intros Hreach a c' Hstep.
    assert (Hslot : owned_count c' = (if connectPromise (mgr c') then 1 else 0)%nat)
      by (eapply reachable_slot, reachable_step; done).
    destruct (step_resolves _ _ _ _ Hstep) as [_ Hp]. split; [done|].
    rewrite Hp in Hslot. unfold owned_count in Hslot.
    assert (Hex : exists att, att ∈ inflight c' /\ a_owned att = true).
    { destruct (List.filter a_owned (inflight c')) as [|att l] eqn:Hf; [done|].
      assert (Hin : In att (List.filter a_owned (inflight c'))) by (rewrite Hf; by left).
      apply List.filter_In in Hin as [Hin Hown]. exists att. split; [|done].
      by apply list_elem_of_In. }
    destruct Hex as (att & Hin & Hown). apply list_elem_of_lookup in Hin as [i Hi].
    exists i, att. split; [done|]. split; [done|]. intros now rnd r. simpl. rewrite Hi.
    destruct (connect_finish now rnd r (mgr c')) as [s1 settled]. rewrite Hown.
    unfold ensureConnected_resume. destruct settled; eauto.
Qed.

(** C9, as stated, fails on [Scenario.lateReady]: the late answer of the
    first channel makes the suspended [ensureConnected] resolve to [true]
    while the manager holds no handle, the connection having been lost in
    between. *)
Lemma true_without_handle :
  ~ (forall c a c' b,
       reachable Scenario.connCfg c ->
       step a c = Some (c', ObsDelivered (Ok b)) ->
       (b = true <-> state (mgr c') = CONNECTED /\ is_Some (client (mgr c')))).
Proof.
  intros Hclaim.
  eassert (Hrun : run (take 7 Scenario.lateReady) (initial Scenario.connCfg) = Some (_, _))
    by (vm_compute; reflexivity).
  match type of Hrun with _ = Some (?c, _) =>
    eassert (Hstep : step (ActSettle 0 8000 (1 # 2) ReadyOk) c = Some (_, ObsDelivered (Ok true)))
      by (vm_compute; reflexivity)
  end.
  pose proof (run_reachable _ _ _ _ _ (reachable_initial _) Hrun) as Hreach.
  destruct (proj1 (Hclaim _ _ _ _ Hreach Hstep) eq_refl) as [_ [h Hh]].
  vm_compute in Hh. discriminate Hh.
Qed.

(** X27.  In the interleavings in which connect attempts do not overlap,
    once an [ensureConnected] has resolved to [true], at once or on the
    promise it was suspended on, a further [ensureConnected] issued before
    anything else happens resolves to [true] at once and leaves the manager
    and the attempts in flight untouched, whatever the factory would do. *)
Theorem ensureConnected_again cfg a c c' o :
  serial_reachable cfg c -> step a c = Some (c', o) -> serial a c c' ->
  o = ObsReturned (Ok true) \/ o = ObsDelivered (Ok true) ->
  forall now rnd f, step (ActEnsureConnected now rnd f) c' = Some (c', ObsReturned (Ok true)).
Proof.
  intros Hser Hstep Hs Ho now rnd f.
  assert (Hinv : handle_inv c')
    by (eapply step_handle_inv; [by eapply serial_handle_inv | done..]).
  destruct Hinv as (Hcon & _).
  pose proof (step_resolves _ _ _ _ Hstep) as Hres.
  assert (Hc : isConnected (mgr c') = true).
  { apply isConnected_iff. destruct Ho as [-> | ->].
    - destruct Hres as (_ & b & Hb & Hiff & _). simplify_eq. by apply Hiff.
    - destruct Hres as (b & Hb & Hiff & _). simplify_eq.
      assert (Hst : state (mgr c') = CONNECTED) by (by apply Hiff). auto. }
  simpl. by rewrite Hc.
Qed.
End Resolution.

(** ** Instances of the further properties *)

Section FurtherInstances.
Import FallbackCache.

(** A new cache of the given capacity, with what the constructor computed. *)
Local Ltac new_cache maxSize Hc :=
  eassert (Hc : create (V:=string) "Svc" (Num maxSize) (Num 60000) = Ok _) by (vm_compute; reflexivity).

Lemma cache_is_bounded_witness :
  exists fc fc3 : FallbackCache.t string,
    create "Svc" (Num 2) (Num 60000) = Ok fc /\
    fc3 = apply (OpSet "c" "3" None 2) (apply (OpSet "b" "2" None 1)
            (apply (OpSet "a" "1" None 0) fc)) /\
    (size (getStats fc3) <= maxSize (getStats fc3))%nat /\
    (1 <= maxSize (getStats fc3))%nat /\
    NoDup (keys (getStats fc3)).
Proof.
  new_cache 2%Q Hc.
  match type of Hc with _ = Ok ?fc =>
    exists fc, (apply (OpSet "c" "3" None 2) (apply (OpSet "b" "2" None 1)
                  (apply (OpSet "a" "1" None 0) fc)))
  end.
  split; [exact Hc|]. split; [reflexivity|].
  apply cache_is_bounded. do 3 apply built_apply. exact (built_create _ _ _ _ Hc).
Defined.

Lemma set_then_get_witness :
  exists fc fc1 fc2 : FallbackCache.t string,
    create "Svc" (Num 100) (Num 60000) = Ok fc /\
    set "Get:id=1" "payload" None 0 fc = Ok fc1 /\
    get "Get:id=1" 90000 fc1 = Ok (Some "payload", fc2).
Proof.
  new_cache 100%Q Hc.
  match type of Hc with _ = Ok ?fc =>
    eassert (Hs : set "Get:id=1" "payload" None 0 fc = Ok _) by (vm_compute; reflexivity)
  end.
  destruct (set_then_get "Get:id=1" "payload" None 0 90000 _ _
              (built_create _ _ _ _ Hc) Hs) as [fc2 Hg].
  eexists _, _, fc2. split; [exact Hc|]. split; [exact Hs | exact Hg].
Defined.

Lemma set_recency_order_witness :
  exists fc fc1 fc2 : FallbackCache.t string,
    create "Svc" (Num 100) (Num 60000) = Ok fc /\
    set "a" "1" None 0 fc = Ok fc1 /\
    set "b" "2" None 1 fc1 = Ok fc2 /\
    keys (getStats fc2) = ["b"; "a"].
Proof.
  new_cache 100%Q Hc.
  match type of Hc with _ = Ok ?fc =>
    eassert (Hs1 : set "a" "1" None 0 fc = Ok _) by (vm_compute; reflexivity)
  end.
  match type of Hs1 with _ = Ok ?fc1 =>
    eassert (Hs2 : set "b" "2" None 1 fc1 = Ok _) by (vm_compute; reflexivity)
  end.
  eexists _, _, _. split; [exact Hc|]. split; [exact Hs1|]. split; [exact Hs2|].
  refine (proj1 (proj2 (set_recency_order "b" "2" None 1 _ _ Hs2)) _ _).
  - vm_compute. intros [H|[]]. discriminate H.
  - vm_compute. intros H. discriminate H.
Defined.

Lemma get_recency_order_witness :
  exists fc fc2 fc3 : FallbackCache.t string,
    create "Svc" (Num 100) (Num 60000) = Ok fc /\
    fc2 = apply (OpSet "b" "2" None 1) (apply (OpSet "a" "1" None 0) fc) /\
    get "a" 5 fc2 = Ok (Some "1", fc3) /\
    keys (getStats fc3) = ["a"; "b"].
Proof.
  new_cache 100%Q Hc.
  match type of Hc with _ = Ok ?fc =>
    eassert (Hg : get "a" 5 (apply (OpSet "b" "2" None 1) (apply (OpSet "a" "1" None 0) fc))
                  = Ok (Some "1", _)) by (vm_compute; reflexivity)
  end.
  eexists _, _, _. split; [exact Hc|]. split; [reflexivity|]. split; [exact Hg|].
  refine (proj2 (proj2 (get_recency_order "a" 5 _ _
            {| LRUCache.e_key := "a"; LRUCache.e_value := {| data := "1"; timestamp := 0 |};
               LRUCache.e_ttl := 60000; LRUCache.e_start := 0 |} _ _ _ Hg))).
  - do 2 apply built_apply. exact (built_create _ _ _ _ Hc).
  - vm_compute. reflexivity.
Defined.

Lemma delete_removes_witness :
  exists (fc fc1 : FallbackCache.t string) b fc2,
    create "Svc" (Num 100) (Num 60000) = Ok fc /\
    fc1 = apply (OpSet "a" "1" None 0) fc /\
    delete "a" fc1 = Ok (b, fc2) /\
    ~ In "a" (keys (getStats fc2)).
Proof.
  new_cache 100%Q Hc.
  match type of Hc with _ = Ok ?fc =>
    destruct (delete_removes "a" (apply (OpSet "a" "1" None 0) fc))
      as (b & fc2 & Hd & _ & Hnot & _)
  end.
  - apply built_apply. exact (built_create _ _ _ _ Hc).
  - vm_compute. reflexivity.
  - eexists _, _, b, fc2. split; [exact Hc|]. split; [reflexivity|].
    split; [exact Hd | exact Hnot].
Defined.

Lemma cleanup_ends_stale_reads_witness :
  exists fc fc1 fc2 : FallbackCache.t string,
    create "Svc" (Num 100) (Num 60000) = Ok fc /\
    set "a" "1" (Some (Num (10 # 1))) 0 fc = Ok fc1 /\
    (1 <= (cleanup 11 fc1).1)%nat /\
    get "a" 11 (cleanup 11 fc1).2 = Ok (None, fc2).
Proof.
  new_cache 100%Q Hc.
  match type of Hc with _ = Ok ?fc =>
    eassert (Hs : set "a" "1" (Some (Num (10 # 1))) 0 fc = Ok _) by (vm_compute; reflexivity)
  end.
  destruct (cleanup_ends_stale_reads "a" "1" 10 0 11 _ _ Hs) as [Hn [fc2 Hg]].
  - reflexivity.
  - eexists _, _, fc2. split; [exact Hc|]. split; [exact Hs|]. split; [exact Hn | exact Hg].
Defined.

Lemma set_validates_ttl_witness :
  exists fc fc1 : FallbackCache.t string,
    create "Svc" (Num 100) (Num 60000) = Ok fc /\
    set "a" "1" (Some (Num (5 # 1))) 0 fc =
      Throw (newError "ttlMs must be between 10 and 86400000") /\
    set "a" "1" (Some NaN) 0 fc = Ok fc1 /\
    exists entry,
      LRUCache.find "a" (LRUCache.items (cache fc1)) = Some entry /\
      forall later, LRUCache.isStale later entry = false.
Proof.
  new_cache 100%Q Hc.
  match type of Hc with _ = Ok ?fc =>
    eassert (Hs : set "a" "1" (Some NaN) 0 fc = Ok _) by (vm_compute; reflexivity);
    eassert (Ht : set "a" "1" (Some (Num (5 # 1))) 0 fc = Throw _) by (vm_compute; reflexivity);
    pose proof (set_validates_ttl "a" "1" (Num (5 # 1)) 0 fc eq_refl) as (_ & Hthrow & _);
    destruct (set_validates_ttl "a" "1" NaN 0 fc eq_refl) as (_ & _ & Hstored)
  end.
  destruct (Hstored _ Hs) as (entry & Hfind & _ & _ & _ & Hnan).
  eexists _, _. split; [exact Hc|]. split; [|split; [exact Hs|]].
  - rewrite Ht. exact (f_equal Throw (Hthrow _ Ht)).
  - exists entry. split; [exact Hfind | exact (Hnan eq_refl)].
Defined.

Lemma latency_snapshot_ordered_witness :
  Number.le
    (MetricsTracker.m_minLatencyMs (MetricsTracker.snapshot (MetricsTracker.after 0
       [MetricsTracker.OpSuccess (Number.of_Z 200); MetricsTracker.OpSuccess (Number.of_Z 301)])))
    (MetricsTracker.m_avgLatencyMs (MetricsTracker.snapshot (MetricsTracker.after 0
       [MetricsTracker.OpSuccess (Number.of_Z 200); MetricsTracker.OpSuccess (Number.of_Z 301)])))
  = true.
Proof.
  refine (proj1 (latency_snapshot_ordered 0
            [MetricsTracker.OpSuccess (Number.of_Z 200);
             MetricsTracker.OpSuccess (Number.of_Z 301)] _)).
  repeat constructor; eexists; reflexivity.
Defined.
Lemma stale_value_retained_witness :
  exists fc fc1 fc2 : FallbackCache.t string,
    create "Svc" (Num 2) (Num 60000) = Ok fc /\
    set "a" "1" (Some (Num (10 # 1))) 0 fc = Ok fc1 /\
    get "a" 90000
      (run [OpSet "b" "2" None 5; OpGet "a" 8; OpCleanup 9; OpDelete "b"; OpGet "c" 50000] fc1)
      = Ok (Some "1", fc2).
Proof.
  eassert (Hc : create (V:=string) "Svc" (Num 2) (Num 60000) = Ok _) by (vm_compute; reflexivity).
  match type of Hc with _ = Ok ?fc =>
    eassert (Hs : set "a" "1" (Some (Num (10 # 1))) 0 fc = Ok _) by (vm_compute; reflexivity)
  end.
  destruct (stale_value_retained "a" "1" (Some (Num (10 # 1))) 0
              [OpSet "b" "2" None 5; OpGet "a" 8; OpCleanup 9; OpDelete "b"; OpGet "c" 50000]
              90000 _ _ (built_create _ _ _ _ Hc) Hs) as [Hin _].
  - repeat constructor; intros H; discriminate H.
  - destruct Hin as [fc2 Hg]; [vm_compute; by left|].
    eexists _, _, fc2. split; [exact Hc|]. split; [exact Hs | exact Hg].
Defined.
End FurtherInstances.

Section CallInstances.
Import Client.

(** A client from the constructor, and the same once connected. *)
Local Ltac new_client retries cacheOn Hc :=
  eassert (Hc : Scenario.fresh retries cacheOn = Some _) by (vm_compute; reflexivity).


Lemma call_backoff_witness :
  exists c : Client.t string,
    Scenario.fresh 3 false = Some c /\
    (call (fun _ => Ok "") Scenario.twoFailures 0 "Get"
       (Utils.JObject [("id", Utils.JNumber 1)]) noOptions c).2 = Ok "payload" /\
    slept (call (fun _ => Ok "") Scenario.twoFailures 0 "Get"
             (Utils.JObject [("id", Utils.JNumber 1)]) noOptions c).1
      = (slept c ++ [1000; 2000])%list.
Proof.
  new_client 3%nat false Hc.
  match type of Hc with _ = Some ?c =>
    destruct (call_backoff (fun _ => Ok "") Scenario.twoFailures 0 "Get"
                (Utils.JObject [("id", Utils.JNumber 1)]) noOptions c "Get:id=1")
      as (_ & Hrecover & _)
  end.
  - vm_compute. reflexivity.
  - left. reflexivity.
  - split; reflexivity.
  - destruct (Hrecover 2%nat "payload") as (Hr & Hs & _).
    + vm_compute. lia.
    + intros i Hi. destruct i as [|[|[|i]]]; [| | |lia]; (split; [by eexists | reflexivity]).
    + intros i Hi. destruct i as [|[|i]]; [| |lia]; (eexists; split; reflexivity).
    + reflexivity.
    + eexists. split; [exact Hc|]. split; [exact Hr | exact Hs].
Defined.

Lemma non_retryable_error_surfaces_witness :
  exists (c c1 c' : Client.t string) r,
    Scenario.fresh 3 false = Some c /\
    c1 = (ensureConnected 0 (1 # 2) (ConnectionManager.FactoryReturns 1%nat)
            ConnectionManager.ReadyOk c).1 /\
    call (fun _ => Ok "")
      (fun _ => Scenario.up 10 1%nat
                  (CallExecutor.InvokeError (Scenario.wireError 3 "bad request")) 0)
      20 "Get" (Utils.JObject [("id", Utils.JNumber 1)]) noOptions c1 = (c', r) /\
    slept c' = slept c1 /\
    r = Throw (CallExecutor.mapGrpcError (Scenario.wireError 3 "bad request")).
Proof.
  new_client 3%nat false Hc.
  match type of Hc with _ = Some ?c =>
    destruct (non_retryable_error_surfaces (fun _ => Ok "")
                (fun _ => Scenario.up 10 1%nat
                   (CallExecutor.InvokeError (Scenario.wireError 3 "bad request")) 0)
                20 "Get" (Utils.JObject [("id", Utils.JNumber 1)]) noOptions
                (ensureConnected 0 (1 # 2) (ConnectionManager.FactoryReturns 1%nat)
                   ConnectionManager.ReadyOk c).1
                (Scenario.wireError 3 "bad request") "Get:id=1")
      as (c' & r & Hcall & Hs & _ & _ & _ & _ & Hoff & _)
  end.
  - vm_compute. reflexivity.
  - reflexivity.
  - simpl. rewrite !elem_of_cons, elem_of_nil. lia.
  - vm_compute. reflexivity.
  - left. reflexivity.
  - eexists _, _, c', r. split; [exact Hc|]. split; [reflexivity|]. split; [exact Hcall|].
    split; [exact Hs|]. apply Hoff. reflexivity.
Defined.

Lemma successful_call_is_cached_witness :
  exists (c c1 c' : Client.t string) fc,
    Scenario.fresh 3 true = Some c /\
    c1 = (ensureConnected 0 (1 # 2) (ConnectionManager.FactoryReturns 1%nat)
            ConnectionManager.ReadyOk c).1 /\
    call (fun _ => Ok "") (Scenario.healthy 5) 20 "Get"
      (Utils.JObject [("id", Utils.JNumber 1)]) noOptions c1 = (c', Ok "payload") /\
    FallbackCache.get "Get:id=1" 1000000 (fallbackCache c') = Ok (Some "payload", fc).
Proof.
  new_client 3%nat true Hc.
  match type of Hc with _ = Some ?c =>
    destruct (successful_call_is_cached (fun _ => Ok "") (Scenario.healthy 5) 20 "Get"
                (Utils.JObject [("id", Utils.JNumber 1)]) noOptions
                (ensureConnected 0 (1 # 2) (ConnectionManager.FactoryReturns 1%nat)
                   ConnectionManager.ReadyOk c).1 "payload" "Get:id=1")
      as (c' & Hcall & _ & _ & _ & _ & _ & Hget)
  end.
  - vm_compute. reflexivity.
  - reflexivity.
  - reflexivity.
  - reflexivity.
  - vm_compute. reflexivity.
  - apply (FallbackCache.built_create "Svc" (Num 100) (Num 60000)). vm_compute. reflexivity.
  - destruct (Hget 1000000) as [fc Hfc].
    eexists _, _, c', fc. split; [exact Hc|]. split; [reflexivity|]. split; [exact Hcall|].
    exact Hfc.
Defined.

Lemma calls_after_close_witness :
  exists (c c' : Client.t string) r,
    Scenario.fresh 3 true = Some c /\
    calls (fun _ => Ok "") [Scenario.invocation (Scenario.healthy 5)] (close c) = (c', [r]) /\
    r = Throw (newError "Svc is not available").
Proof.
  new_client 3%nat true Hc.
  match type of Hc with _ = Some ?c =>
    eassert (Hcalls : calls (fun _ => Ok "") [Scenario.invocation (Scenario.healthy 5)] (close c)
               = (_, _)) by (vm_compute; reflexivity)
  end.
  eexists _, _, _. split; [exact Hc|]. split; [exact Hcalls|].
  match type of Hc with _ = Some ?c =>
    pose proof (calls_after_close (fun _ => Ok "") _ c _ _ eq_refl Hcalls)
      as (_ & _ & _ & _ & Hun)
  end.
  apply Forall2_cons_1 in Hun as [[Hr _] _].
  exact (Hr eq_refl (or_intror eq_refl)).
Defined.
End CallInstances.

Section ManagerInstances.
Import ConnectionManager ConnectionLts.


Lemma connect_events_balance_witness :
  exists c obs,
    run Scenario.closeDuringConnect (initial Scenario.connCfg) = Some (c, obs) /\
    connecting_count (mgr c) = (settled_count (mgr c) + length (inflight c))%nat.
Proof.
  eassert (Hrun : run Scenario.closeDuringConnect (initial Scenario.connCfg) = Some (_, _))
    by (vm_compute; reflexivity).
  eexists _, _. split; [exact Hrun|].
  apply (connect_events_balance Scenario.connCfg).
  exact (run_reachable _ _ _ _ _ (reachable_initial _) Hrun).
Defined.



Lemma concurrent_callers_share_attempt_witness :
  exists c',
    run [ActEnsureConnected 0 (1 # 2) (FactoryReturns 1%nat);
         ActEnsureConnected 1 (1 # 2) (FactoryReturns 2%nat);
         ActEnsureConnected 2 (1 # 2) (FactoryReturns 3%nat)]
      (initial Scenario.connCfg) = Some (c', [ObsAwaiting; ObsAwaiting; ObsAwaiting]) /\
    inflight c' = [{| a_handle := 1%nat; a_owned := true |}] /\
    client (mgr c') = Some 1%nat /\
    emitted (mgr c') = [EvConnecting].
Proof.
  refine (concurrent_callers_share_attempt 0 (1 # 2) 1%nat
            [ActEnsureConnected 1 (1 # 2) (FactoryReturns 2%nat);
             ActEnsureConnected 2 (1 # 2) (FactoryReturns 3%nat)]
            (initial Scenario.connCfg) _ _ _ _); reflexivity.
Defined.

Lemma close_is_final_witness :
  exists c' obs,
    run [ActClose; ActEnsureConnected 7000 (1 # 2) (FactoryReturns 4%nat);
         ActMonitorTick READY (1 # 2)]
      (initial Scenario.connCfg) = Some (c', obs) /\
    state (mgr c') = DISCONNECTED /\
    Forall (fun o => o = ObsNone \/ o = ObsReturned (Ok false)) obs.
Proof.
  eassert (Hrun : run [ActClose; ActEnsureConnected 7000 (1 # 2) (FactoryReturns 4%nat);
                       ActMonitorTick READY (1 # 2)]
                    (initial Scenario.connCfg) = Some (_, _)) by (vm_compute; reflexivity).
  eexists _, _. split; [exact Hrun|].
  destruct (close_is_final _ (initial Scenario.connCfg) _ _ eq_refl eq_refl Hrun)
    as (Hst & _ & _ & _ & _ & _ & Hobs).
  split; [exact Hst | exact Hobs].
Defined.

End ManagerInstances.

Section ResolutionInstances.
Import ConnectionManager ConnectionLts.

Lemma connecting_serial :
  exists c, step (ActEnsureConnected 0 (1 # 2) (FactoryReturns 1%nat)) (initial Scenario.connCfg)
              = Some (c, ObsAwaiting) /\
            serial_reachable Scenario.connCfg c.
Proof.
  eassert (Hstep : step (ActEnsureConnected 0 (1 # 2) (FactoryReturns 1%nat))
                     (initial Scenario.connCfg) = Some (_, ObsAwaiting))
    by (vm_compute; reflexivity).
  eexists. split; [exact Hstep|].
  refine (serial_step _ _ _ _ _ (serial_initial _) Hstep _).
  split; [simpl; lia | intros H; discriminate H].
Defined.

Lemma ensureConnected_resolves_witness :
  exists c c',
    step (ActEnsureConnected 0 (1 # 2) (FactoryReturns 1%nat)) (initial Scenario.connCfg)
      = Some (c, ObsAwaiting) /\
    step (ActSettle 0 10 (1 # 2) ReadyOk) c = Some (c', ObsDelivered (Ok true)) /\
    (state (mgr c') = CONNECTED /\ is_Some (client (mgr c'))) /\
    connectPromise (mgr c') = false.
Proof.
  destruct connecting_serial as (c & Hstep & Hser).
  eassert (Hsettle : step (ActSettle 0 10 (1 # 2) ReadyOk) c = Some (_, ObsDelivered (Ok true))).
  { unfold step in Hstep. simpl in Hstep. injection Hstep as <-. vm_compute. reflexivity. }
  destruct (proj1 (proj2 (proj2 (proj2 (ensureConnected_resolves Scenario.connCfg c)))) Hser
              _ _ _ (Ok true) Hsettle) as (b & Hb & Hiff & Hp).
  - unfold step in Hstep. simpl in Hstep. injection Hstep as <-.
    split; [simpl; lia | intros H; discriminate H].
  - by right.
  - eexists _, _. split; [exact Hstep|]. split; [exact Hsettle|].
    injection Hb as <-. split; [by apply Hiff | exact Hp].
Defined.

Lemma ensureConnected_again_witness :
  exists c c',
    step (ActEnsureConnected 0 (1 # 2) (FactoryReturns 1%nat)) (initial Scenario.connCfg)
      = Some (c, ObsAwaiting) /\
    step (ActSettle 0 10 (1 # 2) ReadyOk) c = Some (c', ObsDelivered (Ok true)) /\
    step (ActEnsureConnected 60000 (1 # 2) (FactoryThrows Scenario.deadline)) c'
      = Some (c', ObsReturned (Ok true)).
Proof.
  destruct connecting_serial as (c & Hstep & Hser).
  eassert (Hsettle : step (ActSettle 0 10 (1 # 2) ReadyOk) c = Some (_, ObsDelivered (Ok true))).
  { unfold step in Hstep. simpl in Hstep. injection Hstep as <-. vm_compute. reflexivity. }
  eexists _, _. split; [exact Hstep|]. split; [exact Hsettle|].
  refine (ensureConnected_again Scenario.connCfg _ _ _ _ Hser Hsettle _ _ _ _ _).
  - unfold step in Hstep. simpl in Hstep. injection Hstep as <-.
    split; [simpl; lia | intros H; discriminate H].
  - by right.
Defined.
End ResolutionInstances.
